(** * scripthandler: release / runner / collection engine

    A shallow embedding of the Python sources under [script_handler/]:
    - [runner/port_service.py]      (module [PortService])
    - [models/service.py], the log reader ([ServiceLogs])
    - [runner/runner_base.py], [runner/subprocess_runner.py]
    - [models/releases.py], [models/script.py], [models/service.py]
    - [models/collections.py], [handlers/script_handler.py]

    Python objects that are shared and mutated (runners, scripts, services,
    OS processes, the port pool, the file system) live in one explicit
    store, [World]; methods are state-and-exception passing functions on
    it.  Awaiting is resolved sequentially: a coroutine runs to its end,
    tasks handed to [asyncio.ensure_future] are queued in the store. *)

From Stdlib Require Import ZArith Ascii String List Sorted Lia Bool.
From Stdlib Require Import Numbers.DecimalString.
From stdpp Require Import gmap strings list.

Open Scope Z_scope.

(** ** Python exceptions and results *)

Inductive exn : Type :=
| IndexError (msg : string)
| KeyError (msg : string)
| UnboundLocalError (var : string)
| TimeoutError
| RunnerError (msg : string)
| FileNotFoundError
| AttributeError (msg : string)
| ProcessLookupError
| HTTPException (status : Z) (detail : string)
| NoSuchObject
| UserError (cls : string).

(** The class name an exception is raised (and caught) under.
    [NoSuchObject] is not Python's: an operation stops with it when it is
    given a reference that the store does not hold. *)
Definition exn_class (e : exn) : string :=
  match e with
  | IndexError _ => "IndexError"
  | KeyError _ => "KeyError"
  | UnboundLocalError _ => "UnboundLocalError"
  | TimeoutError => "TimeoutError"
  | RunnerError _ => "RunnerError"
  | FileNotFoundError => "FileNotFoundError"
  | AttributeError _ => "AttributeError"
  | ProcessLookupError => "ProcessLookupError"
  | NoSuchObject => "NoSuchObject"
  | HTTPException _ _ => "HTTPException"
  | UserError cls => cls
  end.

Inductive result (A : Type) : Type :=
| Returns (a : A)
| Raises (e : exn).
Arguments Returns {A} a.
Arguments Raises {A} e.

(** ** runner/port_service.py *)

Module PortService.

(** [sortedcontainers.SortedSet] of ints: the elements in increasing
    order, each once. *)
Fixpoint add (x : Z) (s : list Z) : list Z :=
  match s with
  | [] => [x]
  | y :: s' =>
      if x <? y then x :: y :: s'
      else if x =? y then y :: s'
      else y :: add x s'
  end.

Definition SortedSet (ports : list Z) : list Z :=
  fold_left (fun s p => add p s) ports [].

(** [SortedSet.pop(0)]: remove and return the item at index 0;
    [IndexError] when there is none. *)
Definition pop0 (s : list Z) : result (Z * list Z) :=
  match s with
  | [] => Raises (IndexError "pop index out of range")
  | p :: s' => Returns (p, s')
  end.

(** [PortService.__init__] *)
Definition init (ports : list Z) : list Z := SortedSet ports.

(** [PortService.acquire_port] *)
Definition acquire_port (_ports : list Z) : result (Z * list Z) :=
  pop0 _ports.

(** [PortService.release_port] *)
Definition release_port (port : Z) (_ports : list Z) : list Z :=
  add port _ports.

(** The representation invariant of the sorted set. *)
Definition sorted (s : list Z) : Prop := StronglySorted Z.lt s.

Inductive op : Type := Acquire | Release (port : Z).

(** A pool after a sequence of calls; a failed acquire leaves it as it
    was. *)
Definition step (s : list Z) (o : op) : list Z :=
  match o with
  | Acquire => match acquire_port s with
               | Returns (_, s') => s'
               | Raises _ => s
               end
  | Release p => release_port p s
  end.

Definition after (ports : list Z) (ops : list op) : list Z :=
  fold_left step ops (init ports).

End PortService.

(** ** models/service.py: reading the log file backwards *)

Module ServiceLogs.

(** Text as Python's [str]: a sequence of characters.  The file is
    modelled by its decoded text, with [seek], [tell] and [read] counting
    characters; for Python's text files that is exact when every
    character is one byte and there is no carriage return to
    translate. *)
Definition str := list ascii.

Definition LF : ascii := "010"%char.
Definition CR : ascii := "013"%char.

(** The line boundaries of [str.splitlines] below U+0100:
    \n \v \f \r \x1c \x1d \x1e \x85. *)
Definition is_linebreak (c : ascii) : bool :=
  existsb (N.eqb (N_of_ascii c)) [10; 11; 12; 13; 28; 29; 30; 133]%N.

(** [s.splitlines(keepends)]; "\r\n" is one boundary. *)
Fixpoint splitlines (keepends : bool) (s : str) : list str :=
  match s with
  | [] => []
  | c :: s' =>
      if is_linebreak c then
        match s' with
        | d :: s'' =>
            if Ascii.eqb c CR && Ascii.eqb d LF
            then (if keepends then [c; d] else []) :: splitlines keepends s''
            else (if keepends then [c] else []) :: splitlines keepends s'
        | [] => [if keepends then [c] else []]
        end
      else
        match splitlines keepends s' with
        | [] => [[c]]
        | l :: ls => (c :: l) :: ls
        end
  end.

(** [sep.join(parts)] *)
Fixpoint join (sep : str) (parts : list str) : str :=
  match parts with
  | [] => []
  | [p] => p
  | p :: ps => p ++ sep ++ join sep ps
  end.

(** What an (async) generator does when iterated to its end: it yields
    items, then stops or raises. *)
Inductive gen (A : Type) : Type :=
| Stop
| Yield (a : A) (rest : gen A)
| Throw (e : exn).
Arguments Stop {A}.
Arguments Yield {A} a rest.
Arguments Throw {A} e.

Fixpoint yield_all {A} (xs : list A) (rest : gen A) : gen A :=
  match xs with
  | [] => rest
  | x :: xs' => Yield x (yield_all xs' rest)
  end.

(** [fp.seek(pos); fp.read(n)] *)
Definition read_at (content : str) (pos n : Z) : str :=
  firstn (Z.to_nat n) (skipn (Z.to_nat pos) content).

(** [xs[-1]] *)
Definition last_item {A} (xs : list A) : option A := last xs.

(** [lines[-1] += segment] *)
Definition extend_last (lines : list str) (segment : str) : list str :=
  match lines with
  | [] => []
  | _ => removelast lines ++ [List.last lines [] ++ segment]
  end.

(** [for index in range(len(lines) - 1, 0, -1): l = lines[index];
    if l: yield l] *)
Definition tail_backwards (lines : list str) : list str :=
  List.filter (fun l : str => match l with [] => false | _ => true end)
    (rev (tl lines)).

Definition out_of_range : exn := IndexError "index out of range".

(** The [while remaining_size > 0] loop of [_reverse_read_lines] and
    the final [yield segment].  [rounds] bounds the number of rounds:
    every round takes [buf_size] off [remaining_size], so with
    [buf_size >= 1] and [rounds >= remaining_size] the loop condition is
    false when the rounds are used up (lemma [read_loop_rounds]). *)
Fixpoint read_loop (rounds : nat) (content : str) (buf_size file_size : Z)
    (segment : option str) (offset remaining_size : Z) : gen str :=
  let finish :=
    match segment with
    | Some seg => Yield seg Stop
    | None => Stop
    end in
  match rounds with
  | O => finish
  | S rounds' =>
      if 0 <? remaining_size then
        let offset := Z.min file_size (offset + buf_size) in
        let buffer :=
          read_at content (file_size - offset) (Z.min remaining_size buf_size) in
        let remaining_size := remaining_size - buf_size in
        let lines := splitlines true buffer in
        let continue (first : list str) (lines : list str) : gen str :=
          match lines with
          | [] => yield_all first (Throw out_of_range)
          | line0 :: _ =>
              yield_all (first ++ tail_backwards lines)
                (read_loop rounds' content buf_size file_size
                   (Some line0) offset remaining_size)
          end in
        match segment with
        | Some seg =>
            match last_item buffer with
            | None => Throw out_of_range
            | Some c =>
                if Ascii.eqb c LF then continue [seg] lines
                else
                  match lines with
                  | [] => Throw out_of_range
                  | _ => continue [] (extend_last lines seg)
                  end
            end
        | None => continue [] lines
        end
      else finish
  end.


(** [_reverse_read_lines(fp, buf_size)] *)
Definition _reverse_read_lines (content : str) (buf_size : Z) : gen str :=
  let file_size := Z.of_nat (length content) in
  read_loop (Z.to_nat file_size) content buf_size file_size None 0 file_size.

(** The [async for] of [get_logs], with its [break]. *)
Fixpoint collect (lines : gen str) (limit counter : Z) (logs : str) : result str :=
  match lines with
  | Stop => Returns logs
  | Throw e => Raises e
  | Yield line rest =>
      if limit <=? counter then Returns logs
      else collect rest limit (counter + 1) (logs ++ line)
  end.

Definition default_buf_size : Z := 8192.

(** [Service.get_logs], on the text of the log file ([None]: the file
    does not exist); [buf_size] is the default of [_reverse_read_lines]
    at the call in the source. *)
Definition get_logs_with (buf_size : Z) (log_file : option str) (limit : Z)
    : result str :=
  match log_file with
  | None => Returns []
  | Some content =>
      match collect (_reverse_read_lines content buf_size) limit 0 [] with
      | Raises e => Raises e
      | Returns logs =>
          let reversed := rev (splitlines false logs) in
          Returns (join [LF] reversed)
      end
  end.

Definition get_logs : option str -> Z -> result str :=
  get_logs_with default_buf_size.




(** The [n] last items of a list. *)
Definition last_n {A} (n : nat) (xs : list A) : list A :=
  skipn (length xs - n)%nat xs.

Definition txt (s : string) : str := list_ascii_of_string s.

End ServiceLogs.


(** ** The data of the models *)

Definition str := ServiceLogs.str.
Definition txt : string -> str := ServiceLogs.txt.
Definition LF : ascii := ServiceLogs.LF.

(** A path, as its components below the configured root. *)
Definition path := list string.

Definition string_of_Z (z : Z) : string := NilZero.string_of_int (Z.to_int z).

(** models/app_config.py *)
Module app_config.
Inductive AppType : Type := SERVICE | STREAMLIT | PYTHON | UNKNOWN.

Record RuntimeConfig : Type := {
  entry_file : string;
  env : list (string * string);
  cli_args : list string
}.

Record AppConfig : Type := {
  app_icon : option string;
  type : AppType;
  config : RuntimeConfig
}.
End app_config.

(** models/repository.py: the fields of a [Repository] that releases,
    artifacts and indices read, and what [git_copy_tagged_version] finds
    in its git repository: for each tag the files of the tagged tree. *)
Module repository.
Record Repository : Type := {
  git_service_id : Z;
  name : string;
  owner_id : Z;
  owner_name : string;
  tagged : list (string * list (path * str))
}.
End repository.

(** models/releases.py: the attributes of a [Release]. *)
Module releases.
Record Release : Type := {
  repo : repository.Repository;
  tag_name : string;
  _apps : list (string * app_config.AppConfig);
  time : option Z;
  _shared_owner_id : option Z
}.
End releases.

(** An OS child process, as [asyncio.subprocess.Process] shows it.  How
    long it takes to exit, on its own and after each signal, is the
    environment's choice, fixed when the process is spawned. *)
Inductive Fate : Type :=
| ExitsAfter (delay : Z) (code : Z)
| Never.

Record Behaviour : Type := {
  alone : Fate;
  on_terminate : Fate;
  on_kill : Fate
}.

Record Launch : Type := {
  l_activator : string;
  l_work_dir : path;
  l_program : string;
  l_entry_file : option string;
  l_env : list (string * string);
  l_cli_args : list string;
  l_port : option Z
}.

Record Process : Type := {
  pid : nat;
  returncode : option Z;
  fate : Fate;
  behaviour : Behaviour;
  launch : Launch
}.

(** runner/subprocess_runner.py: the three runner classes and the
    attributes of a [SubProcessRunner].  The process object that
    [create_subprocess] returns is held by the one runner that spawned it
    (and by the streams of that runner), so it is kept in the runner. *)
Inductive StreamStrategy : Type := PSEUDO_TERMINAL | SUBPROCESS_PIPE | DEVNULL.

Inductive RunnerClass : Type :=
| PythonShellRunner | PythonVEnvRunner | StreamlitVenvRunner.

Inductive RunnerStream : Type :=
| FileDescriptorStream (pid : nat)
| SubProcessStream (pid : nat).

Record Runner : Type := {
  runner_class : RunnerClass;
  _venv_activator : string;
  _work_dir : path;
  _stream_strategy : StreamStrategy;
  _proc : option Process;
  _run_start_event : bool;
  _master_fd : bool;
  _slave_fd : bool;
  _streams : option RunnerStream;
  _port : option Z
}.

(** models/script.py *)
Module script.
Inductive State : Type := ACTIVE | STARTING | INACTIVE.

Record Script : Type := {
  state : State;
  port : option Z;
  exit_code : option Z;
  name : string;
  config : app_config.AppConfig;
  version : string;
  type : app_config.AppType;
  created_at : option Z;
  compound_id : string * string;
  repository_id : Z;
  owner_name : string;
  _release : releases.Release;
  _runner : nat
}.
End script.

(** models/service.py *)
Module service.
Inductive State : Type := ACTIVE | STARTING | INACTIVE | FAILED_TO_START.

Record Service : Type := {
  state : State;
  exit_code : option Z;
  config : app_config.AppConfig;
  name : string;
  started_at : option Z;
  version : string;
  created_at : option Z;
  compound_id : string * string;
  repository_id : Z;
  owner_name : string;
  enabled : bool;
  _release : releases.Release;
  _runner : nat;
  _log_file : path;
  _enabled_file : path
}.
End service.

(** models/collections.py: the indices.  A Python [dict] keeps its keys in
    insertion order, which the loops over the indices observe, so the
    dictionaries are association lists; the values are references to the
    artifacts in the store. *)
Definition dict (K V : Type) : Type := list (K * V).

Module collections.
Record ObjCollection : Type := {
  _by_name : dict string (dict string nat);
  _by_owner_id : dict Z (dict string (dict string nat));
  types : list app_config.AppType
}.
End collections.

(** ** The store *)

Inductive Node : Type := Dir | File (content : str).

(** Coroutines handed to [asyncio.ensure_future]. *)
Inductive Task : Type :=
| Script_wait_task (self : nat)
| Script_kill (self : nat)
| Service_run (self : nat)
| Service_wait_task (self : nat)
| Service_log_task (self : nat)
| Service_kill (self : nat).

Inductive Signal : Type := SIGTERM | SIGKILL.

(** What happened, in order; a history that no operation reads. *)
Inductive Event : Type :=
| Script_state (self : nat) (st : script.State)
| Service_state (self : nat) (st : service.State)
| Spawned (runner pid : nat)
| Signalled (runner pid : nat) (sig : Signal)
| Exited (runner pid : nat) (code : Z)
| Startup_try (self : nat) (ready : bool)
| Checkout (tag : string) (to_folder : path).

Record World : Type := {
  runners : gmap nat Runner;
  scripts : gmap nat script.Script;
  services : gmap nat service.Service;
  next_id : nat;
  oracle : list Behaviour;
  ports : list Z;
  fs : gmap path Node;
  script_index : collections.ObjCollection;
  service_index : collections.ObjCollection;
  tasks : list Task;
  clock : Z;
  utcnow : string;
  history : list Event
}.
(** Field updates of the store. *)
Definition set_runners (f : _) (w : World) : World :=
  {| runners := f (runners w); scripts := scripts w; services := services w;
     next_id := next_id w; oracle := oracle w; ports := ports w; fs := fs w;
     script_index := script_index w; service_index := service_index w;
     tasks := tasks w; clock := clock w; utcnow := utcnow w;
     history := history w |}.
Definition set_scripts (f : _) (w : World) : World :=
  {| runners := runners w; scripts := f (scripts w); services := services w;
     next_id := next_id w; oracle := oracle w; ports := ports w; fs := fs w;
     script_index := script_index w; service_index := service_index w;
     tasks := tasks w; clock := clock w; utcnow := utcnow w;
     history := history w |}.
Definition set_services (f : _) (w : World) : World :=
  {| runners := runners w; scripts := scripts w; services := f (services w);
     next_id := next_id w; oracle := oracle w; ports := ports w; fs := fs w;
     script_index := script_index w; service_index := service_index w;
     tasks := tasks w; clock := clock w; utcnow := utcnow w;
     history := history w |}.
Definition set_next_id (f : _) (w : World) : World :=
  {| runners := runners w; scripts := scripts w; services := services w;
     next_id := f (next_id w); oracle := oracle w; ports := ports w;
     fs := fs w; script_index := script_index w;
     service_index := service_index w; tasks := tasks w; clock := clock w;
     utcnow := utcnow w; history := history w |}.
Definition set_oracle (f : _) (w : World) : World :=
  {| runners := runners w; scripts := scripts w; services := services w;
     next_id := next_id w; oracle := f (oracle w); ports := ports w;
     fs := fs w; script_index := script_index w;
     service_index := service_index w; tasks := tasks w; clock := clock w;
     utcnow := utcnow w; history := history w |}.
Definition set_ports (f : _) (w : World) : World :=
  {| runners := runners w; scripts := scripts w; services := services w;
     next_id := next_id w; oracle := oracle w; ports := f (ports w);
     fs := fs w; script_index := script_index w;
     service_index := service_index w; tasks := tasks w; clock := clock w;
     utcnow := utcnow w; history := history w |}.
Definition set_fs (f : _) (w : World) : World :=
  {| runners := runners w; scripts := scripts w; services := services w;
     next_id := next_id w; oracle := oracle w; ports := ports w;
     fs := f (fs w); script_index := script_index w;
     service_index := service_index w; tasks := tasks w; clock := clock w;
     utcnow := utcnow w; history := history w |}.
Definition set_script_index (f : _) (w : World) : World :=
  {| runners := runners w; scripts := scripts w; services := services w;
     next_id := next_id w; oracle := oracle w; ports := ports w; fs := fs w;
     script_index := f (script_index w); service_index := service_index w;
     tasks := tasks w; clock := clock w; utcnow := utcnow w;
     history := history w |}.
Definition set_service_index (f : _) (w : World) : World :=
  {| runners := runners w; scripts := scripts w; services := services w;
     next_id := next_id w; oracle := oracle w; ports := ports w; fs := fs w;
     script_index := script_index w; service_index := f (service_index w);
     tasks := tasks w; clock := clock w; utcnow := utcnow w;
     history := history w |}.
Definition set_tasks (f : _) (w : World) : World :=
  {| runners := runners w; scripts := scripts w; services := services w;
     next_id := next_id w; oracle := oracle w; ports := ports w; fs := fs w;
     script_index := script_index w; service_index := service_index w;
     tasks := f (tasks w); clock := clock w; utcnow := utcnow w;
     history := history w |}.
Definition set_history (f : _) (w : World) : World :=
  {| runners := runners w; scripts := scripts w; services := services w;
     next_id := next_id w; oracle := oracle w; ports := ports w; fs := fs w;
     script_index := script_index w; service_index := service_index w;
     tasks := tasks w; clock := clock w; utcnow := utcnow w;
     history := f (history w) |}.

(** Attribute assignments on a runner. *)
Definition with_work_dir (v : _) (r : Runner) : Runner :=
  {| runner_class := runner_class r; _venv_activator := _venv_activator r;
     _work_dir := v; _stream_strategy := _stream_strategy r;
     _proc := _proc r; _run_start_event := _run_start_event r;
     _master_fd := _master_fd r; _slave_fd := _slave_fd r;
     _streams := _streams r; _port := _port r |}.
Definition with_proc (v : _) (r : Runner) : Runner :=
  {| runner_class := runner_class r; _venv_activator := _venv_activator r;
     _work_dir := _work_dir r; _stream_strategy := _stream_strategy r;
     _proc := v; _run_start_event := _run_start_event r;
     _master_fd := _master_fd r; _slave_fd := _slave_fd r;
     _streams := _streams r; _port := _port r |}.
Definition with_run_start_event (v : _) (r : Runner) : Runner :=
  {| runner_class := runner_class r; _venv_activator := _venv_activator r;
     _work_dir := _work_dir r; _stream_strategy := _stream_strategy r;
     _proc := _proc r; _run_start_event := v; _master_fd := _master_fd r;
     _slave_fd := _slave_fd r; _streams := _streams r; _port := _port r |}.
Definition with_master_fd (v : _) (r : Runner) : Runner :=
  {| runner_class := runner_class r; _venv_activator := _venv_activator r;
     _work_dir := _work_dir r; _stream_strategy := _stream_strategy r;
     _proc := _proc r; _run_start_event := _run_start_event r;
     _master_fd := v; _slave_fd := _slave_fd r; _streams := _streams r;
     _port := _port r |}.
Definition with_slave_fd (v : _) (r : Runner) : Runner :=
  {| runner_class := runner_class r; _venv_activator := _venv_activator r;
     _work_dir := _work_dir r; _stream_strategy := _stream_strategy r;
     _proc := _proc r; _run_start_event := _run_start_event r;
     _master_fd := _master_fd r; _slave_fd := v; _streams := _streams r;
     _port := _port r |}.
Definition with_streams (v : _) (r : Runner) : Runner :=
  {| runner_class := runner_class r; _venv_activator := _venv_activator r;
     _work_dir := _work_dir r; _stream_strategy := _stream_strategy r;
     _proc := _proc r; _run_start_event := _run_start_event r;
     _master_fd := _master_fd r; _slave_fd := _slave_fd r; _streams := v;
     _port := _port r |}.
Definition with_port (v : _) (r : Runner) : Runner :=
  {| runner_class := runner_class r; _venv_activator := _venv_activator r;
     _work_dir := _work_dir r; _stream_strategy := _stream_strategy r;
     _proc := _proc r; _run_start_event := _run_start_event r;
     _master_fd := _master_fd r; _slave_fd := _slave_fd r;
     _streams := _streams r; _port := v |}.
Definition with_returncode (v : _) (p : Process) : Process :=
  {| pid := pid p; returncode := v; fate := fate p; behaviour := behaviour p;
     launch := launch p |}.
Definition with_fate (v : _) (p : Process) : Process :=
  {| pid := pid p; returncode := returncode p; fate := v;
     behaviour := behaviour p; launch := launch p |}.

Module script_set.
Import script.
Definition set_state (v : _) (s : Script) : Script :=
  {| state := v; port := port s; exit_code := exit_code s; name := name s;
     config := config s; version := version s; type := type s;
     created_at := created_at s; compound_id := compound_id s;
     repository_id := repository_id s; owner_name := owner_name s;
     _release := _release s; _runner := _runner s |}.
Definition set_port (v : _) (s : Script) : Script :=
  {| state := state s; port := v; exit_code := exit_code s; name := name s;
     config := config s; version := version s; type := type s;
     created_at := created_at s; compound_id := compound_id s;
     repository_id := repository_id s; owner_name := owner_name s;
     _release := _release s; _runner := _runner s |}.
Definition set_exit_code (v : _) (s : Script) : Script :=
  {| state := state s; port := port s; exit_code := v; name := name s;
     config := config s; version := version s; type := type s;
     created_at := created_at s; compound_id := compound_id s;
     repository_id := repository_id s; owner_name := owner_name s;
     _release := _release s; _runner := _runner s |}.
End script_set.

Module service_set.
Import service.
Definition set_state (v : _) (s : Service) : Service :=
  {| state := v; exit_code := exit_code s; config := config s;
     name := name s; started_at := started_at s; version := version s;
     created_at := created_at s; compound_id := compound_id s;
     repository_id := repository_id s; owner_name := owner_name s;
     enabled := enabled s; _release := _release s; _runner := _runner s;
     _log_file := _log_file s; _enabled_file := _enabled_file s |}.
Definition set_exit_code (v : _) (s : Service) : Service :=
  {| state := state s; exit_code := v; config := config s; name := name s;
     started_at := started_at s; version := version s;
     created_at := created_at s; compound_id := compound_id s;
     repository_id := repository_id s; owner_name := owner_name s;
     enabled := enabled s; _release := _release s; _runner := _runner s;
     _log_file := _log_file s; _enabled_file := _enabled_file s |}.
Definition set_started_at (v : _) (s : Service) : Service :=
  {| state := state s; exit_code := exit_code s; config := config s;
     name := name s; started_at := v; version := version s;
     created_at := created_at s; compound_id := compound_id s;
     repository_id := repository_id s; owner_name := owner_name s;
     enabled := enabled s; _release := _release s; _runner := _runner s;
     _log_file := _log_file s; _enabled_file := _enabled_file s |}.
Definition set_enabled (v : _) (s : Service) : Service :=
  {| state := state s; exit_code := exit_code s; config := config s;
     name := name s; started_at := started_at s; version := version s;
     created_at := created_at s; compound_id := compound_id s;
     repository_id := repository_id s; owner_name := owner_name s;
     enabled := v; _release := _release s; _runner := _runner s;
     _log_file := _log_file s; _enabled_file := _enabled_file s |}.
End service_set.

(** ** Coroutines as store transformers

    A call returns a value, raises, or never comes back (it awaits a
    process that does not exit); in each case it leaves a store. *)

Inductive outcome (A : Type) : Type :=
| Ok (a : A) (w : World)
| Err (e : exn) (w : World)
| Hang (w : World).
Arguments Ok {A} a w.
Arguments Err {A} e w.
Arguments Hang {A} w.

Definition M (A : Type) : Type := World -> outcome A.

#[global] Instance M_ret : MRet M := fun A a w => Ok a w.
#[global] Instance M_bind : MBind M := fun A B f m w =>
  match m w with
  | Ok a w' => f a w'
  | Err e w' => Err e w'
  | Hang w' => Hang w'
  end.

Definition world_of {A} (o : outcome A) : World :=
  match o with
  | Ok _ w => w
  | Err _ w => w
  | Hang w => w
  end.

Definition raise {A} (e : exn) : M A := fun w => Err e w.
Definition hang {A} : M A := fun w => Hang w.
Definition get : M World := fun w => Ok w w.
Definition modify (f : World -> World) : M unit := fun w => Ok tt (f w).
Definition lift {A} (r : result A) : M A :=
  match r with
  | Returns a => mret a
  | Raises e => raise e
  end.

(** [try: body  except cls: handler] *)
Definition try_except {A} (body : M A) (cls : string) (handler : M A) : M A :=
  fun w =>
    match body w with
    | Err e w' => if String.eqb (exn_class e) cls then handler w' else Err e w'
    | o => o
    end.

Definition when (b : bool) (m : M unit) : M unit := if b then m else mret tt.

(** [for x in xs: body x] *)
Fixpoint for_each {A} (xs : list A) (body : A -> M unit) : M unit :=
  match xs with
  | [] => mret tt
  | x :: xs' => body x;; for_each xs' body
  end.

(** Objects of the store. *)
Definition deref {A} (heap : World -> gmap nat A) (ref : nat) : M A :=
  fun w =>
    match heap w !! ref with
    | Some x => Ok x w
    | None => Err NoSuchObject w
    end.

Definition runner_of : nat -> M Runner := deref runners.
Definition script_of : nat -> M script.Script := deref scripts.
Definition service_of : nat -> M service.Service := deref services.

Definition set_runner (ref : nat) (f : Runner -> Runner) : M unit :=
  modify (set_runners (alter f ref)).
(** An update of the process that a runner holds. *)
Definition set_proc (ref : nat) (f : Process -> Process) : M unit :=
  set_runner ref (fun r => with_proc (f <$> _proc r) r).
Definition set_script (ref : nat) (f : script.Script -> script.Script) : M unit :=
  modify (set_scripts (alter f ref)).
Definition set_service (ref : nat) (f : service.Service -> service.Service) : M unit :=
  modify (set_services (alter f ref)).

(** A number that nothing has yet: the pid of a new process. *)
Definition alloc : M nat :=
  fun w => Ok (next_id w) (set_next_id S w).

(** A new object: it is stored under a reference that nothing has yet. *)
Definition store_new {A} (set_heap : (gmap nat A -> gmap nat A) -> World -> World)
    (x : A) : M nat :=
  fun w => Ok (next_id w) (set_next_id S (set_heap <[next_id w := x]> w)).

Definition emit (ev : Event) : M unit :=
  modify (set_history (fun h => h ++ [ev])).

(** [asyncio.ensure_future(coro)] *)
Definition ensure_future (t : Task) : M unit :=
  modify (set_tasks (fun ts => ts ++ [t])).

(** The file system. *)
Definition exists_ (p : path) : M bool :=
  w ← get; mret (bool_decide (is_Some (fs w !! p))).

(** The ancestors of a path that are not the root, and the path. *)
Definition upto (p : path) : list path :=
  map (fun n => take n p) (seq 1 (length p)).

(** [os.makedirs(p, exist_ok=True)] *)
Definition makedirs (p : path) : M unit :=
  modify (set_fs (fun m =>
    fold_left (fun m d => match m !! d with
                          | Some _ => m
                          | None => <[d := Dir]> m
                          end) (upto p) m)).

Definition dirname (p : path) : path := removelast p.

(** [open(p, 'wb').write(content)] *)
Definition write_file (p : path) (content : str) : M unit :=
  modify (set_fs <[p := File content]>).

(** [open(p, 'a').write(data)]; creates the file when missing. *)
Definition appended (m : gmap path Node) (p : path) (data : str) : gmap path Node :=
  match m !! p with
  | Some (File c) => <[p := File (c ++ data)]> m
  | _ => <[p := File data]> m
  end.

Definition append_file (p : path) (data : str) : M unit :=
  modify (set_fs (fun m => appended m p data)).

(** [shutil.rmtree(p)] *)
Definition rmtree (p : path) : M unit :=
  there ← exists_ p;
  if there : bool
  then modify (set_fs (filter (fun kv : path * Node => ¬ (p `prefix_of` kv.1))))
  else raise FileNotFoundError.

(** ** runner/runner_base.py and runner/subprocess_runner.py *)

Module Runner.

(** [SubProcessRunner.__init__] and the constructors of its three
    subclasses: a runner without a process. *)
Definition new (cls : RunnerClass) (venv_activator : string) (work_dir : path)
    (stream_strategy : StreamStrategy) : M nat :=
  store_new set_runners
    {| runner_class := cls; _venv_activator := venv_activator;
       _work_dir := work_dir; _stream_strategy := stream_strategy;
       _proc := None; _run_start_event := false;
       _master_fd := false; _slave_fd := false;
       _streams := None; _port := None |}.

(** [self._proc and self._proc.returncode == None] *)
Definition alive (r : Runner) : bool :=
  match _proc r with
  | None => false
  | Some p => bool_decide (returncode p = None)
  end.

(** [SubProcessRunner.is_running] *)
Definition is_running (self : nat) : M bool :=
  r ← runner_of self; mret (alive r).

(** [Runner.set_working_dir] *)
Definition set_working_dir (self : nat) (dir : path) : M unit :=
  running ← is_running self;
  if running : bool
  then raise (RunnerError "Cannot change working directory while running")
  else set_runner self (with_work_dir dir).

(** [StreamlitVenvRunner.port]; [Runner.port] is [None]. *)
Definition port (self : nat) : M (option Z) :=
  r ← runner_of self;
  match runner_class r with
  | StreamlitVenvRunner => mret (_port r)
  | _ => mret None
  end.

(** [self._proc], which must be a process for a method call on it. *)
Definition the_proc (self : nat) (method : string) : M Process :=
  r ← runner_of self;
  match _proc r with
  | Some p => mret p
  | None =>
      raise (AttributeError ("'NoneType' object has no attribute '" +:+ method +:+ "'"))
  end.

(** [await self._proc.wait()]: the exit code, once the process has
    exited. *)
Definition proc_wait (self : nat) : M Z :=
  p ← the_proc self "wait";
  match returncode p with
  | Some code => mret code
  | None =>
      match fate p with
      | ExitsAfter _ code =>
          set_proc self (with_returncode (Some code));;
          emit (Exited self (pid p) code);;
          mret code
      | Never => hang
      end
  end.

(** [self._proc.terminate()] and [self._proc.kill()]: a signal to a
    process that has not exited. *)
Definition send_signal (self : nat) (method : string) (sig : Signal) : M unit :=
  p ← the_proc self method;
  match returncode p with
  | Some _ => raise ProcessLookupError
  | None =>
      emit (Signalled self (pid p) sig);;
      set_proc self (with_fate match sig with
                               | SIGTERM => on_terminate (behaviour p)
                               | SIGKILL => on_kill (behaviour p)
                               end)
  end.

(** [SubProcessRunner._terminate_impl] *)
Definition _terminate_impl (self : nat) : M unit :=
  send_signal self "terminate" SIGTERM.

(** [SubProcessRunner._kill_impl] *)
Definition _kill_impl (self : nat) : M unit :=
  send_signal self "kill" SIGKILL.

(** [StreamlitVenvRunner._release_port] *)
Definition _release_port (self : nat) : M unit :=
  r ← runner_of self;
  match _port r with
  | Some p =>
      if p =? 0 then mret tt
      else modify (set_ports (PortService.release_port p));;
           set_runner self (with_port None)
  | None => mret tt
  end.

(** [SubProcessRunner.wait] *)
Definition SubProcessRunner_wait (self : nat) : M Z :=
  ret_code ← proc_wait self;
  r ← runner_of self;
  when (_master_fd r) (set_runner self (with_master_fd false));;
  when (_slave_fd r) (set_runner self (with_slave_fd false));;
  set_runner self (with_run_start_event false);;
  mret ret_code.

(** [wait], with the override of [StreamlitVenvRunner]. *)
Definition wait (self : nat) : M Z :=
  r ← runner_of self;
  match runner_class r with
  | StreamlitVenvRunner =>
      ret ← SubProcessRunner_wait self;
      _release_port self;;
      mret ret
  | _ => SubProcessRunner_wait self
  end.

(** [Runner.wait_for]: [asyncio.wait_for(self.wait(), timeout)].  When
    the process does not exit within the timeout the pending [wait] is
    cancelled and the process runs on. *)
Definition wait_for (self : nat) (timeout : Z) : M Z :=
  p ← the_proc self "wait";
  match returncode p with
  | Some _ => wait self
  | None =>
      match fate p with
      | ExitsAfter delay code =>
          if delay <? timeout then wait self
          else set_proc self (with_fate (ExitsAfter (delay - Z.max 0 timeout) code));;
               raise TimeoutError
      | Never => raise TimeoutError
      end
  end.

(** The test [if timeout:] on a [Union[float, None]]: the timeout when
    it is neither [None] nor zero. *)
Definition truthy (timeout : option Z) : option Z :=
  match timeout with
  | Some t => if t =? 0 then None else Some t
  | None => None
  end.

(** [Runner.terminate] *)
Definition terminate (self : nat) (timeout : option Z) : M Z :=
  match truthy timeout with
  | Some t => _terminate_impl self;; wait_for self t
  | None => _terminate_impl self;; wait self
  end.

(** [Runner.kill] *)
Definition kill (self : nat) (timeout : option Z) : M Z :=
  match truthy timeout with
  | Some t => _kill_impl self;; wait_for self t
  | None => _kill_impl self;; wait self
  end.

(** The behaviour the environment gives the next process. *)
Definition default_behaviour : Behaviour :=
  {| alone := Never; on_terminate := ExitsAfter 0 (-15); on_kill := ExitsAfter 0 (-9) |}.

(** [self._proc = await SubProcessRunner.create_subprocess(cmd, ...)] *)
Definition create_subprocess (self : nat) (l : Launch) : M unit :=
  pid ← alloc;
  w ← get;
  let b := hd default_behaviour (oracle w) in
  modify (set_oracle (@tl Behaviour));;
  set_runner self (with_proc (Some
    {| pid := pid; returncode := None; fate := alone b; behaviour := b;
       launch := l |}));;
  emit (Spawned self pid).

(** [await asyncio.sleep(seconds)], as the process of the runner lives
    it. *)
Definition sleep (self : nat) (seconds : Z) : M unit :=
  r ← runner_of self;
  match _proc r with
  | Some {| pid := pid; returncode := None; fate := ExitsAfter delay code |} =>
      if delay <? seconds
      then set_proc self (with_returncode (Some code));;
           emit (Exited self pid code)
      else set_proc self (with_fate (ExitsAfter (delay - seconds) code))
  | _ => mret tt
  end.

(** [_run_impl] of the three subclasses. *)
Definition _run_impl (self : nat) (entry_file : string)
    (env_variables : list (string * string)) (cli_args : list string) : M bool :=
  r ← runner_of self;
  match runner_class r with
  | PythonShellRunner =>
      create_subprocess self
        {| l_activator := _venv_activator r; l_work_dir := _work_dir r;
           l_program := "python"; l_entry_file := None; l_env := [];
           l_cli_args := []; l_port := None |};;
      mret true
  | PythonVEnvRunner =>
      create_subprocess self
        {| l_activator := _venv_activator r; l_work_dir := _work_dir r;
           l_program := "python -u"; l_entry_file := Some entry_file;
           l_env := env_variables; l_cli_args := cli_args; l_port := None |};;
      mret true
  | StreamlitVenvRunner =>
      w ← get;
      '(p, rest) ← lift (PortService.acquire_port (ports w));
      modify (set_ports (fun _ => rest));;
      set_runner self (with_port (Some p));;
      create_subprocess self
        {| l_activator := _venv_activator r; l_work_dir := _work_dir r;
           l_program := "streamlit run"; l_entry_file := Some entry_file;
           l_env := env_variables; l_cli_args := cli_args; l_port := Some p |};;
      sleep self 3;;
      proc ← the_proc self "returncode";
      mret (bool_decide (returncode proc = None))
  end.

(** [SubProcessRunner.run] *)
Definition run (self : nat) (entry_file : string)
    (env_variables : list (string * string)) (cli_args : list string) : M bool :=
  running ← is_running self;
  when running
    (try_except (terminate self (Some 10);; mret tt)
       "TimeoutError" (kill self None;; mret tt));;
  r ← runner_of self;
  match _stream_strategy r with
  | PSEUDO_TERMINAL =>
      set_runner self (with_master_fd true);;
      set_runner self (with_slave_fd true)
  | _ => mret tt
  end;;
  ok ← _run_impl self entry_file env_variables cli_args;
  if ok : bool then
    r ← runner_of self;
    set_runner self (with_streams
      match _stream_strategy r, _proc r with
      | PSEUDO_TERMINAL, Some p => Some (FileDescriptorStream (pid p))
      | SUBPROCESS_PIPE, Some p => Some (SubProcessStream (pid p))
      | _, _ => None
      end);;
    set_runner self (with_run_start_event true);;
    mret true
  else mret false.

(** [clone] of the three subclasses: same construction parameters, no
    process. *)
Definition clone (self : nat) : M nat :=
  r ← runner_of self;
  new (runner_class r) (_venv_activator r) (_work_dir r) (_stream_strategy r).

End Runner.

(** runner/runner_factory.py: [VEnvRunnerFactory], with the default
    stream strategy of its methods. *)
Module RunnerFactory.
Definition create_streamlit_runner (venv_activator : string) (work_dir : path) : M nat :=
  Runner.new StreamlitVenvRunner venv_activator work_dir PSEUDO_TERMINAL.
Definition create_python_runner (venv_activator : string) (work_dir : path) : M nat :=
  Runner.new PythonVEnvRunner venv_activator work_dir PSEUDO_TERMINAL.
Definition create_python_shell_runner (venv_activator : string) (work_dir : path) : M nat :=
  Runner.new PythonShellRunner venv_activator work_dir PSEUDO_TERMINAL.
End RunnerFactory.

(** ** models/releases.py *)

Module Release.
Import releases.

(** [Release._path]: [os.path.join(_root_path, str(shared_owner_id) if
    shared_owner_id is not None else str(repo.owner_id), repo.name,
    tag_name)], below [_root_path]. *)
Definition root_path (self : Release) : path :=
  [ match _shared_owner_id self with
    | Some id => string_of_Z id
    | None => string_of_Z (repository.owner_id (repo self))
    end;
    repository.name (repo self);
    tag_name self ].

Definition apps (self : Release) := _apps self.
Definition id (self : Release) : string := tag_name self.
Definition owner_id (self : Release) : Z := repository.owner_id (repo self).
Definition shared_to_id (self : Release) : option Z := _shared_owner_id self.

(** [loaded_on_disk]: [os.path.exists(self._path)] *)
Definition loaded_on_disk (self : Release) : M bool :=
  exists_ (root_path self).

(** [GitRepository.git_copy_tagged_version(tag, to_folder)]: every file
    of the tagged tree is written below [to_folder], its directory made
    first; a tag that does not resolve raises [KeyError]. *)
Definition git_copy_tagged_version (r : repository.Repository) (tag : string)
    (to_folder : path) : M unit :=
  emit (Checkout tag to_folder);;
  match List.find (fun e : string * list (path * str) => String.eqb e.1 tag)
          (repository.tagged r) with
  | None => raise (KeyError tag)
  | Some (_, tree) =>
      for_each tree (fun entry : path * str =>
        let file_path := to_folder ++ entry.1 in
        makedirs (dirname file_path);;
        write_file file_path entry.2)
  end.

(** [Release.load] *)
Definition load (self : Release) : M unit :=
  loaded ← loaded_on_disk self;
  if loaded : bool then mret tt
  else git_copy_tagged_version (repo self) (tag_name self) (root_path self).

(** [Release.unload] *)
Definition unload (self : Release) : M unit :=
  rmtree (root_path self).

(** [Release.__init__] *)
Definition new (repo : repository.Repository) (tag_name : string)
    (apps : list (string * app_config.AppConfig)) (time : option Z)
    (shared_owner_id : option Z) : M Release :=
  let self := {| repo := repo; tag_name := tag_name; _apps := apps;
                 time := time; _shared_owner_id := shared_owner_id |} in
  load self;;
  mret self.

(** [Release.clone_to_shared] *)
Definition clone_to_shared (self : Release) (shared_owner_id : Z) : M Release :=
  new (repo self) (tag_name self) (apps self) (time self) (Some shared_owner_id).

(** The files in the tree of the release's tag; none when the tag does
    not resolve. *)
Definition tagged_files (self : Release) : list (path * str) :=
  match List.find (fun e : string * list (path * str) => String.eqb e.1 (tag_name self))
          (repository.tagged (repo self)) with
  | Some (_, tree) => tree
  | None => []
  end.

(** How often a checkout was started, read off the history. *)
Definition checkouts (self : Release) (w : World) : nat :=
  length (List.filter (fun ev => match ev with
                                 | Checkout tag folder =>
                                     bool_decide (tag = tag_name self
                                                  /\ folder = root_path self)
                                 | _ => false
                                 end) (history w)).
End Release.

(** The release set of one repository.  A hook is any callable on the
    repository and the release. *)
Definition HookFunction : Type := repository.Repository -> releases.Release -> M unit.

Record Releases : Type := {
  _releases : dict string releases.Release;
  _repo : repository.Repository;
  _new_hooks : list HookFunction;
  _delete_hooks : list HookFunction
}.

(** Python's [dict]: [d[k] = v], [del d[k]], [d.get(k)], [k in d]. *)
Module Dict.
Section ops.
Context {K V : Type} `{EqDecision K}.

Fixpoint get (d : dict K V) (k : K) : option V :=
  match d with
  | [] => None
  | (k', v) :: d' => if decide (k' = k) then Some v else get d' k
  end.

Definition contains (d : dict K V) (k : K) : bool :=
  match get d k with Some _ => true | None => false end.

(** An assignment to a key that is there keeps the key's place. *)
Fixpoint set (d : dict K V) (k : K) (v : V) : dict K V :=
  match d with
  | [] => [(k, v)]
  | (k', v') :: d' =>
      if decide (k' = k) then (k, v) :: d' else (k', v') :: set d' k v
  end.

Fixpoint del (d : dict K V) (k : K) : dict K V :=
  match d with
  | [] => []
  | (k', v') :: d' => if decide (k' = k) then del d' k else (k', v') :: del d' k
  end.

Definition values (d : dict K V) : list V := map snd d.
End ops.
End Dict.

Module Releases.
Import releases.

(** [Releases.new_release] *)
Definition new_release (self : Releases) (rel : Release) : M Releases :=
  if Dict.contains (_releases self) (tag_name rel) then mret self
  else
    let self' := {| _releases := Dict.set (_releases self) (tag_name rel) rel;
                    _repo := _repo self; _new_hooks := _new_hooks self;
                    _delete_hooks := _delete_hooks self |} in
    for_each (_new_hooks self') (fun hook => hook (_repo self') rel);;
    mret self'.

(** [Releases.delete_release].  The release set is an object that the
    call mutates: when the call raises, the set is the one that the
    [del] left, [removed self rel]. *)
Definition removed (self : Releases) (rel : Release) : Releases :=
  {| _releases := Dict.del (_releases self) (tag_name rel);
     _repo := _repo self; _new_hooks := _new_hooks self;
     _delete_hooks := _delete_hooks self |}.

Definition delete_release (self : Releases) (rel : Release) : M Releases :=
  if negb (Dict.contains (_releases self) (tag_name rel)) then mret self
  else
    let self' := removed self rel in
    for_each (_delete_hooks self') (fun hook => hook (_repo self') rel);;
    Release.unload rel;;
    mret self'.

(** [Releases.get_release] *)
Definition get_release (self : Releases) (tag_name : string) : option Release :=
  Dict.get (_releases self) tag_name.

(** [Releases.add_new_hook], [Releases.add_delete_hook] *)
Definition add_new_hook (self : Releases) (fn : HookFunction) : Releases :=
  {| _releases := _releases self; _repo := _repo self;
     _new_hooks := _new_hooks self ++ [fn]; _delete_hooks := _delete_hooks self |}.

End Releases.

(** [{**a, **b}] *)
Definition merge (a b : dict string string) : dict string string :=
  fold_left (fun d kv => Dict.set d kv.1 kv.2) b a.

(** [{"RELEASE_MODE": True}], as the launch command prints it. *)
Definition release_mode : dict string string := [("RELEASE_MODE", "True")]%string.

(** ** models/script.py *)

Module Script.
Import script.

Definition set_state (self : nat) (st : State) : M unit :=
  set_script self (script_set.set_state st);; emit (Script_state self st).

(** [Script.__init__] *)
Definition new (release : releases.Release) (name : string)
    (config : app_config.AppConfig) (runner : nat) : M nat :=
  Runner.set_working_dir runner (Release.root_path release);;
  store_new set_scripts
    {| state := INACTIVE; port := None; exit_code := None; name := name;
       config := config; version := Release.id release;
       type := app_config.type config;
       created_at := releases.time release;
       compound_id := (name, Release.id release);
       repository_id := repository.git_service_id (releases.repo release);
       owner_name := repository.owner_name (releases.repo release);
       _release := release; _runner := runner |}.

(** [Script.run] *)
Definition run (self : nat) (entry_file : option string)
    (env : option (dict string string)) (cli_args : option (list string)) : M unit :=
  s ← script_of self;
  let declared := app_config.config (config s) in
  loaded ← Release.loaded_on_disk (_release s);
  when (negb loaded) (Release.load (_release s));;
  set_state self STARTING;;
  ready ← Runner.run (_runner s)
    match entry_file with
    | Some f => if String.eqb f "" then app_config.entry_file declared else f
    | None => app_config.entry_file declared
    end
    match env with
    | Some (_ :: _ as e) => merge (merge (app_config.env declared) e) release_mode
    | _ => merge (app_config.env declared) release_mode
    end
    match cli_args with
    | Some (_ :: _ as a) => a
    | _ => app_config.cli_args declared
    end;
  set_state self (if ready : bool then ACTIVE else INACTIVE);;
  p ← Runner.port (_runner s);
  set_script self (script_set.set_port p);;
  ensure_future (Script_wait_task self).

(** [Script.terminate] *)
Definition terminate (self : nat) (timeout : Z) : M bool :=
  s ← script_of self;
  try_except (Runner.terminate (_runner s) (Some timeout);; mret true)
    "TimeoutError" (mret false).

(** [Script.kill] *)
Definition kill (self : nat) : M unit :=
  s ← script_of self;
  Runner.kill (_runner s) None;; mret tt.

(** [Script._wait_task] *)
Definition _wait_task (self : nat) : M unit :=
  s ← script_of self;
  code ← Runner.wait (_runner s);
  set_script self (script_set.set_exit_code (Some code));;
  set_script self (script_set.set_port None);;
  set_state self INACTIVE.

(** [Script.clone_to_shared] *)
Definition clone_to_shared (self : nat) (shared_owner_id : Z) : M nat :=
  s ← script_of self;
  cloned_release ← Release.clone_to_shared (_release s) shared_owner_id;
  cloned_runner ← Runner.clone (_runner s);
  Runner.set_working_dir cloned_runner (Release.root_path cloned_release);;
  new cloned_release (name s) (config s) cloned_runner.
End Script.

(** ** models/service.py *)

Module Service.
Import service.

Definition _startup_tries : nat := 5.

Definition set_state (self : nat) (st : State) : M unit :=
  set_service self (service_set.set_state st);; emit (Service_state self st).

(** The line [f"[{utcnow}] [ServiceHandler] {data} \n"]. *)
Definition log_line (w : World) (data : string) : str :=
  txt ("[" +:+ utcnow w +:+ "] [ServiceHandler] " +:+ data +:+ " ") ++ [LF].

(** [Service._write_to_log] *)
Definition _write_to_log (self : nat) (data : string) : M unit :=
  s ← service_of self;
  there ← exists_ (_log_file s);
  if there : bool then
    w ← get;
    append_file (_log_file s) (log_line w data)
  else mret tt.

(** [Service._ensure_log_file_exists] *)
Definition _ensure_log_file_exists (file : path) : M unit :=
  there ← exists_ file;
  if there : bool then mret tt
  else makedirs (dirname file);; append_file file [].

(** [json.loads] of the enabled file, which [set_enabled] writes with
    [json.dumps] of a [bool]; anything else counts as [False]. *)
Definition json_bool (content : str) : bool :=
  bool_decide (content = txt "true").

(** The loop [while not ready and tries < Service._startup_tries], with
    [left] the tries that remain, [_startup_tries - tries].  Each try and
    what it reported goes into the history. *)
Fixpoint startup_loop (left : nat) (self runner : nat)
    (cfg : app_config.RuntimeConfig) (ready : bool) : M bool :=
  match left with
  | O => mret ready
  | S left' =>
      if ready then mret ready
      else
        ready' ← Runner.run runner (app_config.entry_file cfg)
                   (merge (app_config.env cfg) release_mode)
                   (app_config.cli_args cfg);
        emit (Startup_try self ready');;
        startup_loop left' self runner cfg ready'
  end.

(** [Service.run] *)
Definition run (self : nat) : M unit :=
  s ← service_of self;
  loaded ← Release.loaded_on_disk (_release s);
  when (negb loaded) (Release.load (_release s));;
  _ensure_log_file_exists (_log_file s);;
  running ← Runner.is_running (_runner s);
  if running : bool then mret tt
  else
    set_state self STARTING;;
    _write_to_log self "Starting service...";;
    ready ← startup_loop _startup_tries self (_runner s)
              (app_config.config (config s)) false;
    if negb ready then
      set_state self FAILED_TO_START;;
      code ← Runner.wait (_runner s);
      set_service self (service_set.set_exit_code (Some code));;
      _write_to_log self ("Failed to start process. exit-code: " +:+ string_of_Z code)
    else
      set_state self ACTIVE;;
      w ← get;
      set_service self (service_set.set_started_at (Some (clock w)));;
      ensure_future (Service_wait_task self);;
      ensure_future (Service_log_task self).

(** [Service.__init__] *)
Definition new (release : releases.Release) (name : string)
    (config : app_config.AppConfig) (runner : nat) : M nat :=
  Runner.set_working_dir runner (Release.root_path release);;
  let log_file := Release.root_path release ++ [name +:+ ".logs"] in
  let enabled_file := Release.root_path release ++ [name +:+ ".enabled"] in
  w ← get;
  let enabled := match fs w !! enabled_file with
                 | Some (File content) => json_bool content
                 | _ => false
                 end in
  self ← store_new set_services
    {| state := INACTIVE; exit_code := None; config := config; name := name;
       started_at := None; version := Release.id release;
       created_at := releases.time release;
       compound_id := (name, Release.id release);
       repository_id := repository.git_service_id (releases.repo release);
       owner_name := repository.owner_name (releases.repo release);
       enabled := enabled; _release := release; _runner := runner;
       _log_file := log_file; _enabled_file := enabled_file |};
  when enabled (ensure_future (Service_run self));;
  mret self.

(** [Service.terminate] *)
Definition terminate (self : nat) (timeout : Z) : M bool :=
  s ← service_of self;
  try_except
    (Runner.terminate (_runner s) (Some timeout);;
     _write_to_log self "Service has been terminated";;
     mret true)
    "TimeoutError" (mret false).

(** [Service.kill] *)
Definition kill (self : nat) : M unit :=
  s ← service_of self;
  Runner.kill (_runner s) None;;
  _write_to_log self "Service has been killed".

(** [Service.restart] *)
Definition restart (self : nat) : M unit :=
  s ← service_of self;
  running ← Runner.is_running (_runner s);
  if negb running then run self
  else
    _write_to_log self "Restarting service...";;
    terminate_result ← terminate self 10;
    when (negb terminate_result) (kill self);;
    run self.

(** [Service.set_enabled] *)
Definition set_enabled (self : nat) (enabled : bool) (auto_start : bool) : M unit :=
  set_service self (service_set.set_enabled enabled);;
  s ← service_of self;
  write_file (_enabled_file s) (txt (if enabled then "true" else "false"));;
  running ← Runner.is_running (_runner s);
  if enabled && auto_start then when (negb running) (run self)
  else if negb enabled && running then
    terminate_result ← terminate self 10;
    when (negb terminate_result) (kill self)
  else mret tt.

(** [Service._wait_task] *)
Definition _wait_task (self : nat) : M unit :=
  s ← service_of self;
  code ← Runner.wait (_runner s);
  set_service self (service_set.set_exit_code (Some code));;
  set_state self INACTIVE;;
  set_service self (service_set.set_started_at None);;
  _write_to_log self ("Process exited with code: " +:+ string_of_Z code);;
  s' ← service_of self;
  if enabled s' then run self else mret tt.

(** [Service.get_logs] *)
Definition get_logs (self : nat) (limit : Z) : M str :=
  s ← service_of self;
  w ← get;
  lift (ServiceLogs.get_logs
          match fs w !! _log_file s with
          | Some (File content) => Some content
          | _ => None
          end limit).

(** [Service.clone_to_shared] *)
Definition clone_to_shared (self : nat) (shared_owner_id : Z) : M nat :=
  s ← service_of self;
  cloned_release ← Release.clone_to_shared (_release s) shared_owner_id;
  cloned_runner ← Runner.clone (_runner s);
  Runner.set_working_dir cloned_runner (Release.root_path cloned_release);;
  new cloned_release (name s) (config s) cloned_runner.
End Service.

(** ** models/collections.py *)

(** The protocol [ReleaseObject]: what an index reads of an artifact. *)
Record ReleaseObject : Type := {
  ro_version : string;
  ro_name : string;
  ro_release : releases.Release
}.

Definition script_object (s : script.Script) : ReleaseObject :=
  {| ro_version := script.version s; ro_name := script.name s;
     ro_release := script._release s |}.

Definition service_object (s : service.Service) : ReleaseObject :=
  {| ro_version := service.version s; ro_name := service.name s;
     ro_release := service._release s |}.

Module ByNameCollection.
Definition t : Type := dict string (dict string nat).

(** [ByNameCollection.new_object] *)
Definition new_object (self : t) (o : ReleaseObject) (obj : nat) : t :=
  match Dict.get self (ro_name o) with
  | Some by_version =>
      Dict.set self (ro_name o) (Dict.set by_version (ro_version o) obj)
  | None => Dict.set self (ro_name o) [(ro_version o, obj)]
  end.

(** [ByNameCollection.delete_object] *)
Definition delete_object (self : t) (o : ReleaseObject) : t :=
  match Dict.get self (ro_name o) with
  | None => self
  | Some by_version =>
      if negb (Dict.contains by_version (ro_version o)) then self
      else
        let by_version' := Dict.del by_version (ro_version o) in
        match by_version' with
        | [] => Dict.del self (ro_name o)
        | _ => Dict.set self (ro_name o) by_version'
        end
  end.

(** [ByNameCollection.get_by_name], [get_object] *)
Definition get_by_name (self : t) (name : string) : dict string nat :=
  default [] (Dict.get self name).

Definition get_object (self : t) (name version : string) : option nat :=
  Dict.get (get_by_name self name) version.

(** [ByNameCollection.get_all_for_release] *)
Definition get_all_for_release (self : t) (release : releases.Release) : list nat :=
  concat (map (fun entry : string * dict string nat =>
                 map snd (List.filter (fun vo : string * nat =>
                                         String.eqb vo.1 (Release.id release))
                            entry.2))
            self).
End ByNameCollection.

Module ObjCollection.
Import collections.

Definition empty (types : list app_config.AppType) : ObjCollection :=
  {| _by_name := []; _by_owner_id := []; types := types |}.

(** [obj.release.shared_to_id if obj.release.shared_to_id else
    obj.release.owner_id] *)
Definition with_user_id (o : ReleaseObject) : Z :=
  match Release.shared_to_id (ro_release o) with
  | Some id => if id =? 0 then Release.owner_id (ro_release o) else id
  | None => Release.owner_id (ro_release o)
  end.

(** [ObjCollection.new_object] *)
Definition new_object (self : ObjCollection) (o : ReleaseObject) (obj : nat)
    : ObjCollection :=
  let with_user_id := with_user_id o in
  let by_name :=
    if with_user_id =? Release.owner_id (ro_release o)
    then ByNameCollection.new_object (_by_name self) o obj
    else _by_name self in
  let by_owner_id :=
    match Dict.get (_by_owner_id self) with_user_id with
    | Some c => Dict.set (_by_owner_id self) with_user_id
                  (ByNameCollection.new_object c o obj)
    | None => Dict.set (_by_owner_id self) with_user_id
                (ByNameCollection.new_object [] o obj)
    end in
  {| _by_name := by_name; _by_owner_id := by_owner_id; types := types self |}.

(** [ObjCollection.delete_object] *)
Definition delete_object (self : ObjCollection) (o : ReleaseObject)
    : result ObjCollection :=
  let with_user_id := with_user_id o in
  let by_name :=
    if with_user_id =? Release.owner_id (ro_release o)
    then ByNameCollection.delete_object (_by_name self) o
    else _by_name self in
  match Dict.get (_by_owner_id self) with_user_id with
  | Some c =>
      Returns {| _by_name := by_name;
                 _by_owner_id := Dict.set (_by_owner_id self) with_user_id
                                   (ByNameCollection.delete_object c o);
                 types := types self |}
  | None => Raises (KeyError (string_of_Z with_user_id))
  end.

(** [ObjCollection.get_objects_for_release] *)
Definition get_objects_for_release (self : ObjCollection)
    (release : releases.Release) : list nat :=
  concat (map (fun entry : Z * ByNameCollection.t =>
                 ByNameCollection.get_all_for_release entry.2 release)
            (_by_owner_id self)).

(** [ObjCollection.get_object_for_user], on the user's id *)
Definition get_object_for_user (self : ObjCollection) (user : Z)
    (name obj_id : string) : option nat :=
  match Dict.get (_by_owner_id self) user with
  | None => None
  | Some c => ByNameCollection.get_object c name obj_id
  end.

(** Whether a reference is anywhere in the indices. *)
Definition holds (self : ObjCollection) (obj : nat) : bool :=
  let inside (c : ByNameCollection.t) :=
    existsb (fun e : string * dict string nat =>
               existsb (fun vo : string * nat => Nat.eqb vo.2 obj) e.2) c in
  inside (_by_name self)
  || existsb (fun e : Z * ByNameCollection.t => inside e.2) (_by_owner_id self).
End ObjCollection.

Module RepositoryCollection.

(** [RepositoryCollection.new_release]; the runner factory is a
    [VEnvRunnerFactory] with the given activator. *)
Definition new_release (venv_activator : string) (repo : repository.Repository)
    (release : releases.Release) : M unit :=
  for_each (Release.apps release) (fun item : string * app_config.AppConfig =>
    let '(name, config) := item in
    match app_config.type config with
    | app_config.PYTHON =>
        runner ← RunnerFactory.create_python_runner venv_activator
                   (Release.root_path release);
        obj ← Script.new release name config runner;
        s ← script_of obj;
        modify (set_script_index (fun c =>
          ObjCollection.new_object c (script_object s) obj))
    | app_config.STREAMLIT =>
        runner ← RunnerFactory.create_streamlit_runner venv_activator
                   (Release.root_path release);
        obj ← Script.new release name config runner;
        s ← script_of obj;
        modify (set_script_index (fun c =>
          ObjCollection.new_object c (script_object s) obj))
    | app_config.SERVICE =>
        runner ← RunnerFactory.create_python_runner venv_activator
                   (Release.root_path release);
        obj ← Service.new release name config runner;
        s ← service_of obj;
        modify (set_service_index (fun c =>
          ObjCollection.new_object c (service_object s) obj))
    | app_config.UNKNOWN => mret tt
    end).

(** [RepositoryCollection.delete_release].  After the first loop the
    name [script] is bound to the last item of [scripts], or, when the
    loop had nothing to run over, to nothing; the second loop reads
    it. *)
Definition delete_release (repo : repository.Repository)
    (release : releases.Release) : M unit :=
  w ← get;
  let scripts := ObjCollection.get_objects_for_release (script_index w) release in
  let services := ObjCollection.get_objects_for_release (service_index w) release in
  for_each scripts (fun script =>
    s ← script_of script;
    if repository.git_service_id (releases.repo (script._release s))
       =? repository.git_service_id repo
    then
      running ← Runner.is_running (script._runner s);
      when running (ensure_future (Script_kill script));;
      w ← get;
      c ← lift (ObjCollection.delete_object (script_index w) (script_object s));
      modify (set_script_index (fun _ => c))
    else mret tt);;
  for_each services (fun service =>
    match last scripts with
    | None => raise (UnboundLocalError "script")
    | Some script =>
        s ← script_of script;
        if repository.git_service_id (releases.repo (script._release s))
           =? repository.git_service_id repo
        then
          sv ← service_of service;
          running ← Runner.is_running (service._runner sv);
          when running (ensure_future (Service_kill service));;
          w ← get;
          c ← lift (ObjCollection.delete_object (service_index w) (service_object sv));
          modify (set_service_index (fun _ => c))
        else mret tt
    end).
End RepositoryCollection.

(** ** handlers/script_handler.py *)

Record ScriptRunOverrides : Type := {
  o_entry_file : option string;
  o_env : option (dict string string);
  o_cli_args : option (list string)
}.

Module ScriptHandler.
(** [ScriptHandler.run_script], on the script that the request
    resolved. *)
Definition run_script (script : nat) (overrides : option ScriptRunOverrides) : M nat :=
  s ← script_of script;
  running ← Runner.is_running (script._runner s);
  if running : bool then raise (HTTPException 400 "Script is already running")
  else
    match overrides with
    | Some o => Script.run script (o_entry_file o) (o_env o) (o_cli_args o)
    | None => Script.run script None None None
    end;;
    mret script.
End ScriptHandler.

(** ** Running a queued task *)

Definition run_task (t : Task) : M unit :=
  match t with
  | Script_wait_task self => Script._wait_task self
  | Script_kill self => Script.kill self
  | Service_run self => Service.run self
  | Service_wait_task self => Service._wait_task self
  | Service_kill self => Service.kill self
  | Service_log_task _ => mret tt
      (* [_log_task] copies the output of the process to the log file; the
         processes here have no output, so nothing is written *)
  end.

(** A store with nothing in it. *)
Definition empty_world : World :=
  {| runners := ∅; scripts := ∅; services := ∅; next_id := 0;
     oracle := []; ports := []; fs := ∅;
     script_index := ObjCollection.empty [app_config.STREAMLIT; app_config.PYTHON];
     service_index := ObjCollection.empty [app_config.SERVICE];
     tasks := []; clock := 0; utcnow := "2023/01/01, 00:00:00"; history := [] |}.

(** ** A small installation

    One repository of user 7 with the tag v1, registered the way
    [RepositoryCollection.new_repo] and [Repository.new_release] do it:
    the release set carries the two hooks of the repository index. *)

Definition sample_config (t : app_config.AppType) : app_config.AppConfig :=
  {| app_config.app_icon := None; app_config.type := t;
     app_config.config :=
       {| app_config.entry_file := "main.py"; app_config.env := [];
          app_config.cli_args := [] |} |}.

Definition sample_repo : repository.Repository :=
  {| repository.git_service_id := 1; repository.name := "myapp";
     repository.owner_id := 7; repository.owner_name := "alice";
     repository.tagged :=
       [("v1"%string, [(["appconfig.yml"%string], txt "apps:");
                       (["main.py"%string], txt "print(1)")])] |}.

Definition sample_release (apps : list (string * app_config.AppConfig))
    : releases.Release :=
  {| releases.repo := sample_repo; releases.tag_name := "v1";
     releases._apps := apps; releases.time := Some 100;
     releases._shared_owner_id := None |}.

Definition sample_releases : Releases :=
  {| _releases := []; _repo := sample_repo;
     _new_hooks := [RepositoryCollection.new_release "/venv/bin/activate"];
     _delete_hooks := [RepositoryCollection.delete_release] |}.

(** The tag v1 with the given apps is published: the release is built
    (and materialized) and registered in the release set. *)
Definition publish (apps : list (string * app_config.AppConfig))
    : M (Releases * releases.Release) :=
  rel ← Release.new sample_repo "v1" apps (Some 100) None;
  set ← Releases.new_release sample_releases rel;
  mret (set, rel).



(** A store in which the script [app] of v1 (reference 1, with the runner
    0) has been run and its process (pid 2) is running. *)
Definition running_script_world : World :=
  world_of ((publish [("app"%string, sample_config app_config.PYTHON)];;
             Script.run 1 None None None) empty_world).

(** A store with the service [svc] of v1 (reference 1, with the runner
    0), which has not been run. *)
Definition service_world : World :=
  world_of (publish [("svc"%string, sample_config app_config.SERVICE)] empty_world).

(** A process that exits by itself, with the code 1. *)
Definition crashing : Behaviour :=
  {| alone := ExitsAfter 5 1; on_terminate := ExitsAfter 0 (-15);
     on_kill := ExitsAfter 0 (-9) |}.


(** A store with the streamlit script [dash] of v1 (reference 1, with
    the runner 0), which has not been run; the pool has the given ports
    and the next process exits by itself. *)
Definition streamlit_world (pool : list Z) : World :=
  world_of (publish [("dash"%string, sample_config app_config.STREAMLIT)]
              (set_ports (fun _ => PortService.init pool)
                 (set_oracle (fun _ => [crashing]) empty_world))).

(** ** What an operation leaves alone *)

(** The events of one runner. *)
Definition runner_event (self : nat) (ev : Event) : bool :=
  match ev with
  | Spawned r _ => Nat.eqb r self
  | Signalled r _ _ => Nat.eqb r self
  | Exited r _ _ => Nat.eqb r self
  | _ => false
  end.

(** The history grew by events that all pass [ok]. *)
Definition grew (ok : Event -> bool) (w w' : World) : Prop :=
  exists evs, history w' = history w ++ evs /\ forallb ok evs = true.

(** A method of the runner [self]: the other runners, the artifacts, the
    indices, the file system and the queue are as before. *)
Record runner_frame (self : nat) (w w' : World) : Prop := {
  rf_runners : forall r, r <> self -> runners w' !! r = runners w !! r;
  rf_there : is_Some (runners w !! self) <-> is_Some (runners w' !! self);
  rf_scripts : scripts w' = scripts w;
  rf_services : services w' = services w;
  rf_fs : fs w' = fs w;
  rf_script_index : script_index w' = script_index w;
  rf_service_index : service_index w' = service_index w;
  rf_tasks : tasks w' = tasks w;
  rf_clock : clock w' = clock w;
  rf_utcnow : utcnow w' = utcnow w;
  rf_next_id : (next_id w <= next_id w')%nat;
  rf_history : grew (runner_event self) w w'
}.

(** The events of a checkout. *)
Definition checkout_event (ev : Event) : bool :=
  match ev with
  | Checkout _ _ => true
  | _ => false
  end.

(** An operation on the file system: the objects of the store are as
    before. *)
Record fs_frame (w w' : World) : Prop := {
  ff_runners : runners w' = runners w;
  ff_scripts : scripts w' = scripts w;
  ff_services : services w' = services w;
  ff_next_id : next_id w' = next_id w;
  ff_oracle : oracle w' = oracle w;
  ff_ports : ports w' = ports w;
  ff_script_index : script_index w' = script_index w;
  ff_service_index : service_index w' = service_index w;
  ff_tasks : tasks w' = tasks w;
  ff_clock : clock w' = clock w;
  ff_utcnow : utcnow w' = utcnow w;
  ff_history : grew checkout_event w w'
}.

(** The process of a runner has exited with the code. *)
Definition exited (self : nat) (code : Z) (w : World) : Prop :=
  exists r p, runners w !! self = Some r /\ _proc r = Some p
              /\ returncode p = Some code.

(** A process that has exited with the code, or runs and will exit with
    it. *)
Definition leaving (p : Process) (code : Z) : Prop :=
  returncode p = Some code
  \/ (returncode p = None /\ exists delay, fate p = ExitsAfter delay code).

(** What the startup tries of a service reported, in order. *)
Definition tries_of (self : nat) (evs : list Event) : list bool :=
  omap (fun ev => match ev with
                  | Startup_try s ready => if Nat.eqb s self then Some ready else None
                  | _ => None
                  end) evs.

(** The states that a service was given, in order. *)
Definition service_states_of (self : nat) (evs : list Event) : list service.State :=
  omap (fun ev => match ev with
                  | Service_state s st => if Nat.eqb s self then Some st else None
                  | _ => None
                  end) evs.

(** The processes that were spawned, in order. *)
Definition spawned_of (evs : list Event) : list nat :=
  omap (fun ev => match ev with
                  | Spawned _ pid => Some pid
                  | _ => None
                  end) evs.

(** ** Artifacts and the calls on them *)

(** The invariant of the store: every reference is below the next one,
    and the version of an artifact is the id of its release, as the
    constructors set it. *)
Definition wf (w : World) : Prop :=
  map_Forall (fun r (_ : Runner) => (r < next_id w)%nat) (runners w)
  /\ map_Forall (fun x (s : script.Script) =>
                   (x < next_id w)%nat
                   /\ script.version s = Release.id (script._release s))
       (scripts w)
  /\ map_Forall (fun x (s : service.Service) =>
                   (x < next_id w)%nat
                   /\ service.version s = Release.id (service._release s))
       (services w).

Inductive Kind : Type := ScriptKind | ServiceKind.

Definition Artifact : Type := (script.Script + service.Service)%type.

(** The artifact of a kind under a reference, with all its fields. *)
Definition artifact_of (k : Kind) (w : World) (x : nat) : option Artifact :=
  match k with
  | ScriptKind => inl <$> scripts w !! x
  | ServiceKind => inr <$> services w !! x
  end.

Definition art_name (a : Artifact) : string :=
  match a with
  | inl s => script.name s
  | inr s => service.name s
  end.

Definition art_version (a : Artifact) : string :=
  match a with
  | inl s => script.version s
  | inr s => service.version s
  end.

Definition art_runner (a : Artifact) : nat :=
  match a with
  | inl s => script._runner s
  | inr s => service._runner s
  end.

(** [clone_to_shared] of the two classes. *)
Definition clone_to_shared (k : Kind) (self : nat) (shared_owner_id : Z) : M nat :=
  match k with
  | ScriptKind => Script.clone_to_shared self shared_owner_id
  | ServiceKind => Service.clone_to_shared self shared_owner_id
  end.

(** The calls that start and stop the process of an artifact, and the
    exit watcher that [run] queues. *)
Inductive Call : Type :=
| Call_run (entry_file : option string) (env : option (dict string string))
    (cli_args : option (list string))
| Call_terminate (timeout : Z)
| Call_kill
| Call_wait_task.

Definition call (k : Kind) (self : nat) (c : Call) : M unit :=
  match k, c with
  | ScriptKind, Call_run entry_file env cli_args => Script.run self entry_file env cli_args
  | ScriptKind, Call_terminate timeout => Script.terminate self timeout;; mret tt
  | ScriptKind, Call_kill => Script.kill self
  | ScriptKind, Call_wait_task => Script._wait_task self
  | ServiceKind, Call_run _ _ _ => Service.run self
  | ServiceKind, Call_terminate timeout => Service.terminate self timeout;; mret tt
  | ServiceKind, Call_kill => Service.kill self
  | ServiceKind, Call_wait_task => Service._wait_task self
  end.

(** The store after a sequence of calls on one artifact, whatever each
    of them came to. *)
Definition after_calls (k : Kind) (self : nat) (cs : list Call) (w : World) : World :=
  fold_left (fun w c => world_of (call k self c w)) cs w.

(** A call on the artifact [self] of kind [k], whose runner is
    [runner]: the other runners and the other artifacts are as before,
    and every artifact keeps its runner. *)
Record artifact_frame (k : Kind) (self runner : nat) (w w' : World) : Prop := {
  af_runners : forall r, r <> runner -> runners w' !! r = runners w !! r;
  af_scripts : forall x, (k = ScriptKind -> x <> self) ->
                         scripts w' !! x = scripts w !! x;
  af_services : forall x, (k = ServiceKind -> x <> self) ->
                          services w' !! x = services w !! x;
  af_script_runner : forall x s, scripts w !! x = Some s ->
    exists s', scripts w' !! x = Some s' /\ script._runner s' = script._runner s;
  af_service_runner : forall x s, services w !! x = Some s ->
    exists s', services w' !! x = Some s' /\ service._runner s' = service._runner s
}.

(** The same, for the stores in which [self] is an artifact of kind [k]
    with the runner [runner]. *)
Definition artifact_frame_from (k : Kind) (self runner : nat) (w w' : World) : Prop :=
  (exists a, artifact_of k w self = Some a /\ art_runner a = runner) ->
  artifact_frame k self runner w w'.

(** ** What the further properties are stated with *)

(** What [self._streams] is after a start that reported readiness. *)
Definition streams_for (strategy : StreamStrategy) (pid : nat) : option RunnerStream :=
  match strategy with
  | PSEUDO_TERMINAL => Some (FileDescriptorStream pid)
  | SUBPROCESS_PIPE => Some (SubProcessStream pid)
  | DEVNULL => None
  end.

(** The command line that a runner of the class builds from the
    arguments of [run]: the shell runner ignores them. *)
Definition launched_with (r : Runner) (e : string) (v : list (string * string))
    (c : list string) (port : option Z) (l : Launch) : Prop :=
  l_activator l = _venv_activator r
  /\ l_work_dir l = _work_dir r
  /\ l_entry_file l
     = match runner_class r with PythonShellRunner => None | _ => Some e end
  /\ l_env l = match runner_class r with PythonShellRunner => [] | _ => v end
  /\ l_cli_args l = match runner_class r with PythonShellRunner => [] | _ => c end
  /\ l_port l = match runner_class r with StreamlitVenvRunner => port | _ => None end.

(** Opening the pseudo terminal, when the strategy asks for one. *)
Definition with_pty (r : Runner) : Runner :=
  match _stream_strategy r with
  | PSEUDO_TERMINAL => with_slave_fd true (with_master_fd true r)
  | _ => r
  end.

(** What [wait] does with the port of the runner. *)
Definition port_after_wait (r : Runner) : option Z :=
  match runner_class r, _port r with
  | StreamlitVenvRunner, Some q => if q =? 0 then Some q else None
  | _, _ => _port r
  end.

Definition pool_after_wait (r : Runner) (pool : list Z) : list Z :=
  match runner_class r, _port r with
  | StreamlitVenvRunner, Some q =>
      if q =? 0 then pool else PortService.release_port q pool
  | _, _ => pool
  end.

(** [terminate] and [kill], by the signal they send. *)
Definition stop (sig : Signal) : nat -> option Z -> M Z :=
  match sig with
  | SIGTERM => Runner.terminate
  | SIGKILL => Runner.kill
  end.

Definition stop_method (sig : Signal) : string :=
  match sig with
  | SIGTERM => "terminate"
  | SIGKILL => "kill"
  end.

(** How the process takes the signal. *)
Definition reaction (sig : Signal) (b : Behaviour) : Fate :=
  match sig with
  | SIGTERM => on_terminate b
  | SIGKILL => on_kill b
  end.

(** The exit code, when the process exits before the timeout. *)
Definition in_time (f : Fate) (timeout : Z) : option Z :=
  match f with
  | ExitsAfter d code => if d <? timeout then Some code else None
  | Never => None
  end.


(** The kind of artifact that [RepositoryCollection.new_release] makes
    of an app, by the type of its configuration. *)
Definition kind_of_type (t : app_config.AppType) : option Kind :=
  match t with
  | app_config.PYTHON | app_config.STREAMLIT => Some ScriptKind
  | app_config.SERVICE => Some ServiceKind
  | app_config.UNKNOWN => None
  end.

(** The index of the artifacts of a kind. *)
Definition index_of (k : Kind) (w : World) : collections.ObjCollection :=
  match k with
  | ScriptKind => script_index w
  | ServiceKind => service_index w
  end.

(** What the indices read of an artifact. *)
Definition art_object (a : Artifact) : ReleaseObject :=
  match a with
  | inl s => script_object s
  | inr s => service_object s
  end.

Definition art_config (a : Artifact) : app_config.AppConfig :=
  match a with
  | inl s => script.config s
  | inr s => service.config s
  end.

(** The runner class that the factory is asked for. *)
Definition runner_class_of_type (t : app_config.AppType) : RunnerClass :=
  match t with
  | app_config.STREAMLIT => StreamlitVenvRunner
  | _ => PythonVEnvRunner
  end.

(** The body of the loop of [RepositoryCollection.new_release]. *)
Definition new_release_body (venv_activator : string) (release : releases.Release)
    (item : string * app_config.AppConfig) : M unit :=
  let '(name, config) := item in
  match app_config.type config with
  | app_config.PYTHON =>
      runner ← RunnerFactory.create_python_runner venv_activator
                 (Release.root_path release);
      obj ← Script.new release name config runner;
      s ← script_of obj;
      modify (set_script_index (fun c =>
        ObjCollection.new_object c (script_object s) obj))
  | app_config.STREAMLIT =>
      runner ← RunnerFactory.create_streamlit_runner venv_activator
                 (Release.root_path release);
      obj ← Script.new release name config runner;
      s ← script_of obj;
      modify (set_script_index (fun c =>
        ObjCollection.new_object c (script_object s) obj))
  | app_config.SERVICE =>
      runner ← RunnerFactory.create_python_runner venv_activator
                 (Release.root_path release);
      obj ← Service.new release name config runner;
      s ← service_of obj;
      modify (set_service_index (fun c =>
        ObjCollection.new_object c (service_object s) obj))
  | app_config.UNKNOWN => mret tt
  end.

(** * Properties *)

(** ** The port pool *)

Lemma add_In (x y : Z) (s : list Z) :
  In y (PortService.add x s) <-> y = x \/ In y s.
Proof.
  induction s as [|z s IH]; simpl.
  - intuition.
  - destruct (Z.ltb_spec x z); [simpl; intuition|].
    destruct (Z.eqb_spec x z); simpl; [subst; intuition|].
    rewrite IH. intuition.
Qed.

Lemma add_sorted (x : Z) (s : list Z) :
  PortService.sorted s -> PortService.sorted (PortService.add x s).
Proof.
  unfold PortService.sorted.
  induction 1 as [|z s Hs IH Hz]; simpl.
  - repeat constructor.
  - destruct (Z.ltb_spec x z).
    + constructor; [by constructor|].
      constructor; [done|].
      eapply List.Forall_impl; [|exact Hz]. simpl. lia.
    + destruct (Z.eqb_spec x z); [by constructor|].
      constructor; [done|].
      apply List.Forall_forall. intros y Hy.
      apply add_In in Hy as [->|Hy]; [lia|].
      eapply List.Forall_forall in Hz; eauto.
Qed.

Lemma SortedSet_sorted (ports : list Z) : PortService.sorted (PortService.SortedSet ports).
Proof.
  unfold PortService.SortedSet.
  assert (H : PortService.sorted []) by constructor.
  revert H. generalize (@nil Z).
  induction ports as [|p ports IH]; simpl; [done|].
  intros s Hs. apply IH. by apply add_sorted.
Qed.

Lemma step_sorted (s : list Z) (o : PortService.op) :
  PortService.sorted s -> PortService.sorted (PortService.step s o).
Proof.
  intros Hs. destruct o as [|p]; simpl.
  - destruct s as [|q s]; simpl; [done|]. by inversion Hs.
  - by apply add_sorted.
Qed.

(** Whatever was acquired and released, the pool is a sorted set. *)
Lemma after_sorted (ports : list Z) (ops : list PortService.op) :
  PortService.sorted (PortService.after ports ops).
Proof.
  unfold PortService.after, PortService.init.
  pose proof (SortedSet_sorted ports) as H. revert H.
  generalize (PortService.SortedSet ports).
  induction ops as [|o ops IH]; simpl; [done|].
  intros s Hs. apply IH. by apply step_sorted.
Qed.

(** C3, as the specification states it, fails on the empty pool: the
    exception that [acquire_port] raises there is Python's [IndexError],
    from [SortedSet.pop]; no [ExhaustedError] is raised. *)
Lemma acquire_port_empty_not_ExhaustedError :
  ~ (exists e, PortService.acquire_port (PortService.init []) = Raises e
               /\ exn_class e = "ExhaustedError"%string).
Proof.
  intros [e [H Hc]]. vm_compute in H. inversion H; subst. discriminate Hc.
Qed.

(** C3, amended: on a pool reached from any initial ports by any calls,
    [acquire_port] removes and returns the smallest available port when
    there is one, and raises [IndexError] when there is none. *)
Theorem acquire_port_smallest_or_IndexError (ports : list Z) (ops : list PortService.op) :
  let pool := PortService.after ports ops in
  match PortService.acquire_port pool with
  | Returns (p, pool') =>
      In p pool /\ (forall q, In q pool -> p <= q)
      /\ (forall q, In q pool' <-> In q pool /\ q <> p)
  | Raises e => pool = [] /\ exn_class e = "IndexError"%string
  end.
Proof.
  intros pool. pose proof (after_sorted ports ops) as Hs. fold pool in Hs.
  destruct pool as [|p s]; simpl; [done|].
  inversion Hs as [|? ? Hs' Hp]; subst.
  rewrite List.Forall_forall in Hp.
  split; [by left|]. split.
  - intros q [->|Hq]; [lia|]. apply Hp in Hq. lia.
  - intros q. split.
    + intros Hq. split; [by right|]. apply Hp in Hq. lia.
    + intros [[->|Hq] Hne]; done.
Qed.

(** ** Reasoning about coroutines *)

Lemma bind_unfold {A B} (m : M A) (f : A -> M B) (w : World) :
  (m ≫= f) w = match m w with
               | Ok a w' => f a w'
               | Err e w' => Err e w'
               | Hang w' => Hang w'
               end.
Proof. reflexivity. Qed.

Lemma bind_Ok {A B} (m : M A) (f : A -> M B) (w w' : World) (a : A) :
  m w = Ok a w' -> (m ≫= f) w = f a w'.
Proof. intros H. by rewrite bind_unfold, H. Qed.

Lemma deref_Ok {A} (heap : World -> gmap nat A) (ref : nat) (w : World) (x : A) :
  heap w !! ref = Some x -> deref heap ref w = Ok x w.
Proof. intros H. unfold deref. by rewrite H. Qed.

(** The exceptions a coroutine can raise all satisfy [P]. *)
Definition raises_only (P : exn -> Prop) {A} (m : M A) : Prop :=
  forall w e w', m w = Err e w' -> P e.

Section raises_only.
Context (P : exn -> Prop).

Lemma raises_only_ret {A} (a : A) : raises_only P (mret a : M A).
Proof. intros w e w' H. discriminate H. Qed.

Lemma raises_only_raise {A} (e : exn) : P e -> raises_only P (raise e : M A).
Proof. intros HP w e' w' H. by inversion H; subst. Qed.

Lemma raises_only_hang {A} : raises_only P (hang : M A).
Proof. intros w e w' H. discriminate H. Qed.

Lemma raises_only_get : raises_only P get.
Proof. intros w e w' H. discriminate H. Qed.

Lemma raises_only_modify (f : World -> World) : raises_only P (modify f).
Proof. intros w e w' H. discriminate H. Qed.

Lemma raises_only_bind {A B} (m : M A) (f : A -> M B) :
  raises_only P m -> (forall a, raises_only P (f a)) -> raises_only P (m ≫= f).
Proof.
  intros Hm Hf w e w' H. rewrite bind_unfold in H.
  destruct (m w) as [a w1|e1 w1|w1] eqn:Em.
  - by eapply Hf.
  - inversion H; subst. by eapply Hm.
  - discriminate H.
Qed.

Lemma raises_only_deref {A} (heap : World -> gmap nat A) (ref : nat) :
  P NoSuchObject -> raises_only P (deref heap ref).
Proof.
  intros HP w e w' H. unfold deref in H.
  destruct (heap w !! ref); inversion H; by subst.
Qed.

Lemma raises_only_when (b : bool) (m : M unit) :
  raises_only P m -> raises_only P (when b m).
Proof. destruct b; [done|]. intros _. apply raises_only_ret. Qed.

Lemma raises_only_alloc : raises_only P alloc.
Proof. intros w e w' H. discriminate H. Qed.

Lemma raises_only_lift {A} (r : result A) :
  (forall e, r = Raises e -> P e) -> raises_only P (lift r).
Proof.
  intros H. destruct r; [apply raises_only_ret|]. apply raises_only_raise. eauto.
Qed.

Lemma raises_only_try_except {A} (body handler : M A) (cls : string) :
  raises_only (fun e => exn_class e <> cls -> P e) body ->
  raises_only P handler ->
  raises_only P (try_except body cls handler).
Proof.
  intros Hb Hh w e w' H. unfold try_except in H.
  destruct (body w) as [a w1|e1 w1|w1] eqn:E; [done| |done].
  destruct (String.eqb_spec (exn_class e1) cls) as [Heq|Hne].
  - by eapply Hh.
  - inversion H; subst. by eapply Hb.
Qed.

Lemma raises_only_for_each {A} (xs : list A) (body : A -> M unit) :
  (forall x, raises_only P (body x)) -> raises_only P (for_each xs body).
Proof.
  intros H. induction xs as [|x xs IH]; simpl.
  - apply raises_only_ret.
  - apply raises_only_bind; [apply H|]. intros _. apply IH.
Qed.

Lemma raises_only_weaken {A} (Q : exn -> Prop) (m : M A) :
  (forall e, Q e -> P e) -> raises_only Q m -> raises_only P m.
Proof. intros HQ Hm w e w' H. eauto. Qed.
End raises_only.

Ltac raises_only_step :=
  first
    [ apply raises_only_ret
    | apply raises_only_hang
    | apply raises_only_get
    | apply raises_only_modify
    | apply raises_only_raise; try done
    | apply raises_only_deref; try done
    | apply raises_only_when
    | apply raises_only_alloc
    | apply raises_only_for_each; intros ?
    | apply raises_only_try_except
    | apply raises_only_bind; [|intros ?] ].

Ltac raises_only_auto :=
  repeat (raises_only_step
          || match goal with
             | |- raises_only _ (match ?x with _ => _ end) => destruct x
             | |- raises_only _ (if ?x then _ else _) => destruct x
             end).


(** Whatever the outcome, the store that a coroutine leaves is related to
    the store it started on. *)
Definition steps (R : relation World) {A} (m : M A) : Prop :=
  forall w, R w (world_of (m w)).

Section steps.
Context (R : relation World) `{!PreOrder R}.

Lemma steps_ret {A} (a : A) : steps R (mret a : M A).
Proof. intros w. simpl. reflexivity. Qed.

Lemma steps_raise {A} (e : exn) : steps R (raise e : M A).
Proof. intros w. simpl. reflexivity. Qed.

Lemma steps_hang {A} : steps R (hang : M A).
Proof. intros w. simpl. reflexivity. Qed.

Lemma steps_get : steps R get.
Proof. intros w. simpl. reflexivity. Qed.

Lemma steps_lift {A} (r : result A) : steps R (lift r).
Proof. destruct r; [apply steps_ret|apply steps_raise]. Qed.

Lemma steps_deref {A} (heap : World -> gmap nat A) (ref : nat) :
  steps R (deref heap ref).
Proof. intros w. unfold deref. destruct (heap w !! ref); simpl; reflexivity. Qed.

Lemma steps_modify (f : World -> World) :
  (forall w, R w (f w)) -> steps R (modify f).
Proof. intros H w. apply H. Qed.

(** The rule for a sequence, at one store: what follows may use what
    the first part returned there. *)
Lemma step_bind {A B} (m : M A) (f : A -> M B) (w : World) :
  R w (world_of (m w)) ->
  (forall a w1, m w = Ok a w1 -> R w1 (world_of (f a w1))) ->
  R w (world_of ((m ≫= f) w)).
Proof.
  intros Hm Hf. rewrite bind_unfold.
  destruct (m w) as [a w1|e w1|w1] eqn:E; simpl in *; [|done..].
  etrans; [exact Hm|]. by apply Hf.
Qed.

Lemma steps_bind {A B} (m : M A) (f : A -> M B) :
  steps R m -> (forall a, steps R (f a)) -> steps R (m ≫= f).
Proof. intros Hm Hf w. apply step_bind; [apply Hm|]. intros a w1 _. apply Hf. Qed.

Lemma steps_when (b : bool) (m : M unit) : steps R m -> steps R (when b m).
Proof. destruct b; [done|]. intros _. apply steps_ret. Qed.

Lemma steps_try_except {A} (body handler : M A) (cls : string) :
  steps R body -> steps R handler -> steps R (try_except body cls handler).
Proof.
  intros Hb Hh w. unfold try_except.
  specialize (Hb w). destruct (body w) as [a w1|e w1|w1]; simpl in *; [done| |done].
  destruct (String.eqb _ _); [|done]. etrans; [exact Hb|apply Hh].
Qed.

Lemma steps_for_each {A} (xs : list A) (body : A -> M unit) :
  (forall x, steps R (body x)) -> steps R (for_each xs body).
Proof.
  intros H. induction xs as [|x xs IH]; simpl.
  - apply steps_ret.
  - apply steps_bind; [apply H|]. intros _. apply IH.
Qed.
End steps.

Ltac steps_step :=
  first
    [ apply steps_ret; apply _
    | apply steps_raise; apply _
    | apply steps_hang; apply _
    | apply steps_get; apply _
    | apply steps_lift; apply _
    | apply steps_deref; apply _
    | apply steps_when; [apply _|]
    | apply steps_try_except; [apply _| |]
    | apply steps_for_each; [apply _|intros ?]
    | apply steps_bind; [apply _| |intros ?] ].

Ltac steps_auto :=
  repeat (steps_step
          || match goal with
             | |- steps _ (match ?x with _ => _ end) => destruct x
             | |- steps _ (if ?x then _ else _) => destruct x
             | |- steps _ (let '(_, _) := ?x in _) => destruct x
             end).

(** Inversion of what a coroutine came to. *)
Lemma bind_inv {A B} (m : M A) (f : A -> M B) (w : World) (o : outcome B) :
  (m ≫= f) w = o ->
  (exists a w1, m w = Ok a w1 /\ f a w1 = o)
  \/ (exists e w1, m w = Err e w1 /\ o = Err e w1)
  \/ (exists w1, m w = Hang w1 /\ o = Hang w1).
Proof.
  rewrite bind_unfold. destruct (m w) as [a w1|e w1|w1]; intros <-; eauto 8.
Qed.

Lemma deref_inv {A} (heap : World -> gmap nat A) (ref : nat) (w : World)
    (o : outcome A) :
  deref heap ref w = o ->
  (exists x, heap w !! ref = Some x /\ o = Ok x w)
  \/ (heap w !! ref = None /\ o = Err NoSuchObject w).
Proof. unfold deref. destruct (heap w !! ref); intros <-; eauto. Qed.

Ltac minv H :=
  lazymatch type of H with
  | (?m ≫= ?f) ?w = ?o =>
      apply bind_inv in H;
      let a := fresh "a" in let w1 := fresh "w" in
      let H1 := fresh "H" in let H2 := fresh "H" in
      destruct H as [(a & w1 & H1 & H2)|[(a & w1 & H1 & H2)|(w1 & H1 & H2)]];
      [ minv H1; minv H2
      | try discriminate H2; minv H1
      | try discriminate H2; minv H1 ]
  | deref ?h ?r ?w = ?o =>
      apply deref_inv in H;
      let x := fresh "x" in let H1 := fresh "H" in let H2 := fresh "H" in
      destruct H as [(x & H1 & H2)|(H1 & H2)]; simplify_eq
  | mret _ _ = _ => unfold mret, M_ret in H; simplify_eq
  | Ok _ _ = _ => simplify_eq
  | Err _ _ = _ => simplify_eq
  | Hang _ = _ => simplify_eq
  | raise _ _ = _ => unfold raise in H; simplify_eq
  | hang _ = _ => unfold hang in H; simplify_eq
  | get _ = _ => unfold get in H; simplify_eq
  | modify _ _ = _ => unfold modify in H; simplify_eq
  | lift ?r _ = _ => destruct r eqn:?; simpl in H; minv H
  | when ?b _ _ = _ => destruct b eqn:?; simpl in H; minv H
  | (match ?x with _ => _ end) _ = _ => destruct x eqn:?; minv H
  | (if ?x then _ else _) _ = _ => destruct x eqn:?; minv H
  | (let '(_, _) := ?x in _) _ = _ => destruct x eqn:?; minv H
  | _ =>
      first [ progress unfold runner_of, script_of, service_of, set_runner,
                set_proc, set_script, set_service, emit, ensure_future, alloc,
                store_new, exists_, write_file, append_file, makedirs in H;
              minv H
            | idtac ]
  end.

(** Lookups in the store after updates. *)
Ltac lookups :=
  repeat match goal with
         | H : context [alter _ ?i _ !! ?i] |- _ => rewrite lookup_alter_eq in H
         | |- context [alter _ ?i _ !! ?i] => rewrite lookup_alter_eq
         | H : context [<[?i := _]> _ !! ?i] |- _ => rewrite lookup_insert_eq in H
         | |- context [<[?i := _]> _ !! ?i] => rewrite lookup_insert_eq
         | H : ?m !! ?i = Some _ |- context [?m !! ?i] => rewrite H
         | H : ?m !! ?i = Some _, H' : context [?m !! ?i] |- _ =>
             lazymatch type of H' with
             | m !! i = Some _ => fail
             | _ => rewrite H in H'
             end
         | _ => progress simpl in *
         end.
(** ** Stopping a runner *)






(** ** Materializing a release *)

Lemma mk_dirs_keeps (ds : list path) (m : gmap path Node) (q : path) :
  is_Some (m !! q) ->
  is_Some (fold_left (fun m d => match m !! d with
                                 | Some _ => m
                                 | None => <[d := Dir]> m
                                 end) ds m !! q).
Proof.
  revert m. induction ds as [|d ds IH]; simpl; [done|].
  intros m Hq. apply IH. destruct (m !! d) eqn:Ed; [done|].
  destruct (decide (d = q)) as [->|Hne].
  - rewrite lookup_insert_eq. eauto.
  - by rewrite lookup_insert_ne.
Qed.

Lemma mk_dirs_creates (ds : list path) (m : gmap path Node) (q : path) :
  In q ds ->
  is_Some (fold_left (fun m d => match m !! d with
                                 | Some _ => m
                                 | None => <[d := Dir]> m
                                 end) ds m !! q).
Proof.
  revert m. induction ds as [|d ds IH]; simpl; [done|].
  intros m [->|Hq]; [|by apply IH].
  apply mk_dirs_keeps. destruct (m !! q) eqn:Eq; [by rewrite Eq|].
  rewrite lookup_insert_eq. eauto.
Qed.

Lemma upto_prefix (root rest : path) :
  root <> [] -> In root (upto (root ++ rest)).
Proof.
  intros Hne. unfold upto. apply in_map_iff.
  exists (length root). split.
  - by rewrite take_app_length.
  - apply in_seq. rewrite length_app.
    destruct root; [done|]. simpl. lia.
Qed.

Lemma dirname_app (root p : path) :
  p <> [] -> dirname (root ++ p) = root ++ dirname p.
Proof. intros Hp. unfold dirname. by apply removelast_app. Qed.

(** Writing the files of a tree below [root]: nothing that exists
    disappears, and with one file or more [root] exists afterwards. *)
Lemma write_tree (root : path) (tree : list (path * str)) (w : World) :
  root <> [] ->
  exists w',
    for_each tree (fun entry : path * str =>
        let file_path := root ++ entry.1 in
        makedirs (dirname file_path);; write_file file_path entry.2) w
    = Ok tt w'
    /\ history w' = history w
    /\ (forall q, is_Some (fs w !! q) -> is_Some (fs w' !! q))
    /\ (tree <> [] -> is_Some (fs w' !! root)).
Proof.
  intros Hroot. revert w.
  induction tree as [|[p c] tree IH]; intros w.
  - exists w. simpl. repeat split; done.
  - simpl for_each. rewrite bind_unfold. simpl.
    match goal with |- context [for_each tree ?body ?w1] =>
      destruct (IH w1) as (w' & Hrun & Hh & Hkeep & _) end.
    exists w'. split; [exact Hrun|]. split; [by rewrite Hh|].
    assert (Hstep : forall q, is_Some (fs w !! q) \/ q = root ->
                              is_Some (fs w' !! q)).
    { intros q Hq. apply Hkeep. simpl.
      destruct (decide (root ++ p = q)) as [->|Hne].
      - rewrite lookup_insert_eq. eauto.
      - rewrite lookup_insert_ne by done.
        destruct Hq as [Hq| ->]; [by apply mk_dirs_keeps|].
        destruct p as [|x p]; [by rewrite app_nil_r in Hne|].
        apply mk_dirs_creates.
        rewrite dirname_app by done. by apply upto_prefix. }
    split; [intros q Hq; apply Hstep; by left|].
    intros _. apply Hstep. by right.
Qed.

Lemma root_path_not_nil (self : releases.Release) : Release.root_path self <> [].
Proof. done. Qed.

Lemma exists_unfold (p : path) (w : World) :
  exists_ p w = Ok (bool_decide (is_Some (fs w !! p))) w.
Proof. reflexivity. Qed.

Lemma load_when_loaded (self : releases.Release) (w : World) :
  is_Some (fs w !! Release.root_path self) -> Release.load self w = Ok tt w.
Proof.
  intros H. unfold Release.load, Release.loaded_on_disk.
  rewrite bind_unfold, exists_unfold. by rewrite bool_decide_eq_true_2.
Qed.

Lemma checkouts_app (self : releases.Release) (w : World) (evs : list Event) :
  Release.checkouts self (set_history (fun h => h ++ evs) w)
  = (Release.checkouts self w
     + length (List.filter (fun ev => match ev with
                                      | Checkout tag folder =>
                                          bool_decide (tag = releases.tag_name self
                                                       /\ folder = Release.root_path self)
                                      | _ => false
                                      end) evs))%nat.
Proof. unfold Release.checkouts. simpl. by rewrite List.filter_app, length_app. Qed.

(** A load of a release that is not on disk: one checkout is started; when
    it comes to its end, the release is on disk. *)
Lemma load_when_missing (self : releases.Release) (w : World) :
  fs w !! Release.root_path self = None ->
  Release.tagged_files self <> [] ->
  exists w',
    Release.load self w = Ok tt w'
    /\ Release.checkouts self w' = S (Release.checkouts self w)
    /\ is_Some (fs w' !! Release.root_path self).
Proof.
  intros Hmiss Htree. unfold Release.load, Release.loaded_on_disk.
  rewrite bind_unfold, exists_unfold.
  rewrite bool_decide_eq_false_2 by (rewrite Hmiss; by intros [? ?]).
  unfold Release.git_copy_tagged_version, Release.tagged_files in *.
  rewrite bind_unfold. simpl.
  destruct (List.find _ _) as [[tag tree]|]; [|done].
  match goal with |- context [for_each tree ?body ?w1] =>
    destruct (write_tree (Release.root_path self) tree w1
                (root_path_not_nil self)) as (w' & Hrun & Hh & _ & Hroot) end.
  exists w'. split; [exact Hrun|]. split; [|by apply Hroot].
  unfold Release.checkouts. rewrite Hh. simpl.
  rewrite List.filter_app, length_app. simpl.
  rewrite bool_decide_eq_true_2 by done. simpl. lia.
Qed.

(** C6: materializing is idempotent.  A load of a release whose path is on
    disk changes nothing; and two loads in a row are one load, with at
    most one checkout started.  The tagged tree holds a file: the
    manifest, which [Repository.new_release] reads from the tag before it
    builds the [Release]. *)
Theorem release_load_idempotent (self : releases.Release) (w : World) :
  Release.tagged_files self <> [] ->
  (is_Some (fs w !! Release.root_path self) -> Release.load self w = Ok tt w)
  /\ (Release.load self;; Release.load self) w = Release.load self w
  /\ (Release.checkouts self (world_of ((Release.load self;; Release.load self) w))
      <= S (Release.checkouts self w))%nat.
Proof.
  intros Htree. split; [apply load_when_loaded|].
  destruct (fs w !! Release.root_path self) eqn:E.
  - assert (H : Release.load self w = Ok tt w) by (apply load_when_loaded; eauto).
    rewrite bind_unfold, !H. simpl. split; [done|lia].
  - destruct (load_when_missing self w E Htree) as (w' & H & Hc & Hroot).
    rewrite bind_unfold, H, (load_when_loaded self w' Hroot). simpl.
    split; [done|lia].
Qed.

Lemma release_load_idempotent_witness :
  Release.tagged_files (sample_release []) <> []
  /\ (is_Some (fs empty_world !! Release.root_path (sample_release [])) ->
      Release.load (sample_release []) empty_world = Ok tt empty_world)
  /\ (Release.load (sample_release []);; Release.load (sample_release [])) empty_world
     = Release.load (sample_release []) empty_world
  /\ (Release.checkouts (sample_release [])
        (world_of ((Release.load (sample_release []);;
                    Release.load (sample_release [])) empty_world))
      <= S (Release.checkouts (sample_release []) empty_world))%nat.
Proof.
  split; [by vm_compute|].
  apply (release_load_idempotent (sample_release []) empty_world).
  by vm_compute.
Defined.

(** ** Deleting a release from the release set *)



Lemma Dict_get_del {K V} `{EqDecision K} (d : dict K V) (k : K) :
  Dict.get (Dict.del d k) k = None.
Proof.
  induction d as [|[k' v] d IH]; simpl; [done|].
  destruct (decide (k' = k)) as [->|Hne]; [done|].
  simpl. by rewrite decide_False.
Qed.



(** When every hook returns, the snapshot is evicted after the last one. *)
Lemma delete_release_evicts_after_hooks
    (self : Releases) (rel : releases.Release) (w w1 : World) :
  Dict.contains (_releases self) (releases.tag_name rel) = true ->
  for_each (_delete_hooks self) (fun h => h (_repo self) rel) w = Ok tt w1 ->
  Releases.delete_release self rel w
  = (Release.unload rel;; mret (Releases.removed self rel)) w1.
Proof.
  intros Hin Hhooks. unfold Releases.delete_release. rewrite Hin. simpl.
  by rewrite bind_unfold, Hhooks.
Qed.

(** ** Purging the artifacts of a deleted release *)

(** C5 fails on a release that declares a service and no script: the
    guard in the loop over the services reads [script], the variable of
    the loop over the scripts, which is unbound.  The call raises
    [UnboundLocalError]; the service stays in the index of services; and
    [Releases.delete_release], whose hook this is, does not get to evict
    the snapshot. *)
Lemma delete_release_service_only :
  match publish [("svc"%string, sample_config app_config.SERVICE)] empty_world with
  | Ok (set, rel) w =>
      exists svc,
        ObjCollection.get_object_for_user (service_index w) 7 "svc" "v1" = Some svc
        /\ (exists w', RepositoryCollection.delete_release sample_repo rel w
                       = Err (UnboundLocalError "script") w'
                       /\ ObjCollection.holds (service_index w') svc = true)
        /\ (exists w', Releases.delete_release set rel w
                       = Err (UnboundLocalError "script") w'
                       /\ ObjCollection.holds (service_index w') svc = true
                       /\ is_Some (fs w' !! Release.root_path rel))
  | _ => False
  end.
Proof.
  vm_compute. eexists. split; [reflexivity|].
  split; eexists; (split; [reflexivity|]); eauto.
Qed.

(** ** The footprint of the runner methods *)

#[global] Instance grew_preorder (ok : Event -> bool) : PreOrder (grew ok).
Proof.
  split.
  - intros w. exists []. by rewrite app_nil_r.
  - intros w1 w2 w3 (e1 & H1 & F1) (e2 & H2 & F2). exists (e1 ++ e2).
    rewrite H2, H1, <- app_assoc. split; [done|].
    rewrite forallb_app. by rewrite F1, F2.
Qed.

Lemma grew_same (ok : Event -> bool) (w w' : World) :
  history w' = history w -> grew ok w w'.
Proof. intros H. exists []. by rewrite app_nil_r. Qed.

Lemma grew_emit (ok : Event -> bool) (ev : Event) (w : World) :
  ok ev = true -> grew ok w (set_history (fun h => h ++ [ev]) w).
Proof. intros H. exists [ev]. simpl. by rewrite H. Qed.

#[global] Instance runner_frame_preorder (self : nat) : PreOrder (runner_frame self).
Proof.
  split.
  - intros w. constructor; try done; reflexivity.
  - intros w1 w2 w3 [] []. constructor; try congruence; try lia.
    + intros r Hr. rewrite rf_runners1, rf_runners0; done.
    + by etrans.
    + by etrans.
Qed.

Lemma alter_there {A} (f : A -> A) (i : nat) (m : gmap nat A) :
  is_Some (m !! i) <-> is_Some (alter f i m !! i).
Proof. rewrite lookup_alter_eq. by rewrite fmap_is_Some. Qed.

Ltac frame_fields :=
  intros; constructor; simpl;
  try done; try lia;
  try (intros; by rewrite ?lookup_alter_ne, ?lookup_insert_ne by done);
  try apply alter_there;
  try (apply grew_same; done);
  try (apply grew_emit; simpl; by rewrite ?Nat.eqb_refl).

Lemma runner_frame_set_runner (self : nat) (f : Runner -> Runner) :
  steps (runner_frame self) (set_runner self f).
Proof. intros w. simpl. frame_fields. Qed.

Lemma runner_frame_alloc (self : nat) : steps (runner_frame self) alloc.
Proof. intros w. simpl. frame_fields. Qed.

Lemma runner_frame_emit (self : nat) (ev : Event) :
  runner_event self ev = true -> steps (runner_frame self) (emit ev).
Proof. intros H w. simpl. frame_fields. Qed.

Lemma runner_frame_set_ports (self : nat) (f : list Z -> list Z) :
  steps (runner_frame self) (modify (set_ports f)).
Proof. intros w. simpl. frame_fields. Qed.

Lemma runner_frame_set_oracle (self : nat) (f : list Behaviour -> list Behaviour) :
  steps (runner_frame self) (modify (set_oracle f)).
Proof. intros w. simpl. frame_fields. Qed.

Ltac runner_frame_auto :=
  repeat (steps_step
          || apply runner_frame_set_runner
          || apply runner_frame_alloc
          || apply runner_frame_set_ports
          || apply runner_frame_set_oracle
          || (apply runner_frame_emit; simpl; by rewrite ?Nat.eqb_refl)
          || match goal with
             | |- steps _ (match ?x with _ => _ end) => destruct x
             | |- steps _ (if ?x then _ else _) => destruct x
             | |- steps _ (let '(_, _) := ?x in _) => destruct x
             end).

Lemma runner_frame_is_running (self : nat) :
  steps (runner_frame self) (Runner.is_running self).
Proof. unfold Runner.is_running. runner_frame_auto. Qed.

Lemma runner_frame_wait (self : nat) :
  steps (runner_frame self) (Runner.wait self).
Proof.
  unfold Runner.wait, Runner.SubProcessRunner_wait, Runner.proc_wait,
    Runner._release_port, Runner.the_proc, set_proc.
  runner_frame_auto.
Qed.

Lemma runner_frame_send_signal (self : nat) (method : string) (sig : Signal) :
  steps (runner_frame self) (Runner.send_signal self method sig).
Proof.
  unfold Runner.send_signal, Runner.the_proc, set_proc. runner_frame_auto.
Qed.

Lemma runner_frame_wait_for (self : nat) (timeout : Z) :
  steps (runner_frame self) (Runner.wait_for self timeout).
Proof.
  unfold Runner.wait_for, Runner.the_proc, set_proc.
  runner_frame_auto; apply runner_frame_wait.
Qed.

Lemma runner_frame_terminate (self : nat) (timeout : option Z) :
  steps (runner_frame self) (Runner.terminate self timeout).
Proof.
  unfold Runner.terminate, Runner._terminate_impl.
  destruct (Runner.truthy timeout); apply steps_bind;
    first [apply runner_frame_send_signal | apply _ | intros _];
    first [apply runner_frame_wait_for | apply runner_frame_wait].
Qed.

Lemma runner_frame_kill (self : nat) (timeout : option Z) :
  steps (runner_frame self) (Runner.kill self timeout).
Proof.
  unfold Runner.kill, Runner._kill_impl.
  destruct (Runner.truthy timeout); apply steps_bind;
    first [apply runner_frame_send_signal | apply _ | intros _];
    first [apply runner_frame_wait_for | apply runner_frame_wait].
Qed.

Lemma runner_frame_create_subprocess (self : nat) (l : Launch) :
  steps (runner_frame self) (Runner.create_subprocess self l).
Proof. unfold Runner.create_subprocess. runner_frame_auto. Qed.

Lemma runner_frame_run_impl (self : nat) (entry_file : string)
    (env : list (string * string)) (cli_args : list string) :
  steps (runner_frame self) (Runner._run_impl self entry_file env cli_args).
Proof.
  unfold Runner._run_impl, Runner.sleep, Runner.the_proc, set_proc.
  runner_frame_auto; apply runner_frame_create_subprocess.
Qed.

Lemma runner_frame_run (self : nat) (entry_file : string)
    (env : list (string * string)) (cli_args : list string) :
  steps (runner_frame self) (Runner.run self entry_file env cli_args).
Proof.
  unfold Runner.run.
  apply steps_bind; [apply _|apply runner_frame_is_running|intros running].
  apply steps_bind; [apply _| |intros _].
  { apply steps_when; [apply _|]. apply steps_try_except; [apply _|..];
      (apply steps_bind; [apply _| |intros _; apply steps_ret; apply _]).
    - apply runner_frame_terminate.
    - apply runner_frame_kill. }
  apply steps_bind; [apply _|apply steps_deref; apply _|intros r].
  apply steps_bind; [apply _| |intros _].
  { destruct (_stream_strategy r); runner_frame_auto. }
  apply steps_bind; [apply _|apply runner_frame_run_impl|intros ok].
  destruct ok; runner_frame_auto.
Qed.

Lemma runner_frame_set_working_dir (self : nat) (dir : path) :
  steps (runner_frame self) (Runner.set_working_dir self dir).
Proof.
  unfold Runner.set_working_dir.
  apply steps_bind; [apply _|apply runner_frame_is_running|intros running].
  destruct running; runner_frame_auto.
Qed.

Lemma runner_frame_port (self : nat) :
  steps (runner_frame self) (Runner.port self).
Proof. unfold Runner.port. runner_frame_auto. Qed.

(** ** What the runner methods come to *)

Lemma the_proc_inv (self : nat) (method : string) (w w' : World) (p : Process) :
  Runner.the_proc self method w = Ok p w' ->
  w' = w /\ exists r, runners w !! self = Some r /\ _proc r = Some p.
Proof. intros H. unfold Runner.the_proc in H. minv H. eauto. Qed.

Lemma the_proc_eq (self : nat) (method : string) (w : World) (r : Runner) (p : Process) :
  runners w !! self = Some r -> _proc r = Some p ->
  Runner.the_proc self method w = Ok p w.
Proof.
  intros Hr Hp. unfold Runner.the_proc, runner_of.
  by rewrite bind_unfold, (deref_Ok _ _ _ _ Hr), Hp.
Qed.

Lemma is_running_eq (self : nat) (w : World) (r : Runner) :
  runners w !! self = Some r ->
  Runner.is_running self w = Ok (Runner.alive r) w.
Proof.
  intros Hr. unfold Runner.is_running, runner_of.
  by rewrite bind_unfold, (deref_Ok _ _ _ _ Hr).
Qed.

Lemma is_running_inv (self : nat) (w w' : World) (b : bool) :
  Runner.is_running self w = Ok b w' ->
  w' = w /\ exists r, runners w !! self = Some r /\ b = Runner.alive r.
Proof. intros H. unfold Runner.is_running in H. minv H. eauto. Qed.

Lemma exited_not_alive (self : nat) (code : Z) (w : World) :
  exited self code w -> Runner.is_running self w = Ok false w.
Proof.
  intros (r & p & Hr & Hp & Hc). rewrite (is_running_eq _ _ _ Hr).
  unfold Runner.alive. by rewrite Hp, Hc.
Qed.

(** A launch that reports no readiness leaves a process that has exited. *)
Lemma run_impl_false (self : nat) (e : string) (v : list (string * string))
    (c : list string) (w w' : World) :
  Runner._run_impl self e v c w = Ok false w' ->
  exists code, exited self code w'.
Proof.
  intros H. unfold Runner._run_impl in H. minv H.
  apply the_proc_inv in H2 as [-> (r & Hr & Hp)].
  apply bool_decide_eq_false in H4.
  destruct (returncode a1) as [code|] eqn:Hc; [|done].
  exists code, r, a1. eauto.
Qed.

Lemma run_false (self : nat) (e : string) (v : list (string * string))
    (c : list string) (w w' : World) :
  Runner.run self e v c w = Ok false w' ->
  exists code, exited self code w'.
Proof.
  intros H. unfold Runner.run in H.
  apply bind_inv in H as [(running & w1 & _ & H)|[(? & ? & _ & ?)|(? & _ & ?)]];
    [|done..].
  apply bind_inv in H as [(? & w2 & _ & H)|[(? & ? & _ & ?)|(? & _ & ?)]];
    [|done..].
  apply bind_inv in H as [(r & w3 & _ & H)|[(? & ? & _ & ?)|(? & _ & ?)]];
    [|done..].
  apply bind_inv in H as [(? & w4 & _ & H)|[(? & ? & _ & ?)|(? & _ & ?)]];
    [|done..].
  apply bind_inv in H as [(ok & w5 & Himpl & H)|[(? & ? & _ & ?)|(? & _ & ?)]];
    [|done..].
  destruct ok; [minv H|].
  minv H. by eapply run_impl_false.
Qed.

(** A runner without a running process starts the next one without a
    wait: the call comes back. *)
Lemma create_subprocess_no_hang (self : nat) (l : Launch) (w w' : World) :
  Runner.create_subprocess self l w <> Hang w'.
Proof. intros H. unfold Runner.create_subprocess in H. minv H. Qed.

Lemma sleep_no_hang (self : nat) (t : Z) (w w' : World) :
  Runner.sleep self t w <> Hang w'.
Proof. intros H. unfold Runner.sleep in H. minv H. Qed.

Lemma the_proc_no_hang (self : nat) (m : string) (w w' : World) :
  Runner.the_proc self m w <> Hang w'.
Proof. intros H. unfold Runner.the_proc in H. minv H. Qed.

Lemma run_impl_no_hang (self : nat) (e : string) (v : list (string * string))
    (c : list string) (w w' : World) :
  Runner._run_impl self e v c w <> Hang w'.
Proof.
  intros H. unfold Runner._run_impl in H. minv H;
    first [ by eapply create_subprocess_no_hang
          | by eapply sleep_no_hang
          | by eapply the_proc_no_hang ].
Qed.

Lemma run_idle_no_hang (self : nat) (e : string) (v : list (string * string))
    (c : list string) (w w' : World) :
  Runner.is_running self w = Ok false w ->
  Runner.run self e v c w <> Hang w'.
Proof.
  intros Hidle H. unfold Runner.run in H.
  rewrite (bind_Ok _ _ _ _ _ Hidle) in H. simpl when in H.
  minv H; by eapply run_impl_no_hang.
Qed.


Ltac same_lhs :=
  repeat match goal with
         | H1 : ?x = _, H2 : ?x = _ |- _ => rewrite H1 in H2; simplify_eq
         end.

Ltac the_procs :=
  repeat match goal with
         | H : Runner.the_proc _ _ _ = Ok _ _ |- _ =>
             apply the_proc_inv in H as [-> (? & ? & ?)]
         end.


Ltac known_matches :=
  repeat match goal with
         | H : ?x = _ |- context [match ?x with _ => _ end] => rewrite H
         | H : ?x = _ |- context [if ?x then _ else _] => rewrite H
         | H : _proc ?x = _ |- context [_proc ?x] => rewrite H
         end.

Ltac tidy :=
  repeat (progress (the_procs; simplify_eq; same_lhs; lookups; known_matches)).

Lemma wait_leaving (self : nat) (r : Runner) (p : Process) (code : Z) (w : World) :
  runners w !! self = Some r -> _proc r = Some p -> leaving p code ->
  exists w', Runner.wait self w = Ok code w' /\ exited self code w'
    /\ next_id w' = next_id w
    /\ history w' = history w ++
         match returncode p with
         | Some _ => []
         | None => [Exited self (pid p) code]
         end.
Proof.
  intros Hr Hp Hl.
  destruct (Runner.wait self w) as [c w'|e w'|w'] eqn:H.
  - exists w'.
    unfold Runner.wait, Runner.SubProcessRunner_wait, Runner.proc_wait,
      Runner._release_port in H.
    minv H; (destruct Hl as [Hl|[Hl [d Hf]]]); tidy.
    all: (split; [done|]); unfold exited; tidy; rewrite ?app_nil_r.
    all: (split; [|done]); eexists _, _; (split; [reflexivity|]); tidy; by eauto.
  - exfalso.
    unfold Runner.wait, Runner.SubProcessRunner_wait, Runner.proc_wait,
      Runner._release_port, Runner.the_proc in H.
    minv H; (destruct Hl as [Hl|[Hl [d Hf]]]); tidy.
  - exfalso.
    unfold Runner.wait, Runner.SubProcessRunner_wait, Runner.proc_wait,
      Runner._release_port, Runner.the_proc in H.
    minv H; (destruct Hl as [Hl|[Hl [d Hf]]]); tidy.
Qed.

Lemma try_except_inv {A} (body handler : M A) (cls : string) (w : World) (o : outcome A) :
  try_except body cls handler w = o ->
  (body w = o /\ forall e w1, o = Err e w1 -> exn_class e <> cls)
  \/ (exists e w1, body w = Err e w1 /\ exn_class e = cls /\ handler w1 = o).
Proof.
  unfold try_except. destruct (body w) as [a w1|e w1|w1] eqn:E; intros <-.
  - left. split; [done|]. intros ? ? [=].
  - destruct (String.eqb_spec (exn_class e) cls) as [Heq|Hne].
    + right. eauto.
    + left. split; [done|]. intros ? ? [= <- <-]. done.
  - left. split; [done|]. intros ? ? [=].
Qed.

Lemma send_signal_alive (self : nat) (method : string) (sig : Signal) (r : Runner)
    (p : Process) (w : World) :
  runners w !! self = Some r -> _proc r = Some p -> returncode p = None ->
  Runner.send_signal self method sig w
  = Ok tt (set_runners (alter (fun r => with_proc (with_fate
                  match sig with
                  | SIGTERM => on_terminate (behaviour p)
                  | SIGKILL => on_kill (behaviour p)
                  end <$> _proc r) r) self)
            (set_history (fun h => h ++ [Signalled self (pid p) sig]) w)).
Proof.
  intros Hr Hp Hc. unfold Runner.send_signal.
  rewrite bind_unfold, (the_proc_eq _ _ _ _ _ Hr Hp), Hc. reflexivity.
Qed.

Lemma wait_never (self : nat) (r : Runner) (p : Process) (w w' : World) (c : Z) :
  runners w !! self = Some r -> _proc r = Some p ->
  returncode p = None -> fate p = Never ->
  Runner.wait self w <> Ok c w'.
Proof.
  intros Hr Hp Hc Hf H.
  unfold Runner.wait, Runner.SubProcessRunner_wait, Runner.proc_wait,
    Runner._release_port, Runner.the_proc in H.
  minv H; tidy.
Qed.

(** A signal to a running process and the wait for its exit. *)
Lemma signal_wait (self : nat) (method : string) (sig : Signal) (r : Runner)
    (p : Process) (c : Z) (w w' : World) :
  runners w !! self = Some r -> _proc r = Some p -> returncode p = None ->
  (Runner.send_signal self method sig;; Runner.wait self) w = Ok c w' ->
  history w' = history w ++ [Signalled self (pid p) sig; Exited self (pid p) c]
  /\ next_id w' = next_id w
  /\ exited self c w'.
Proof.
  intros Hr Hp Hc H.
  rewrite bind_unfold, (send_signal_alive _ _ _ _ _ _ Hr Hp Hc) in H.
  match type of H with Runner.wait _ ?w1 = _ => set (wa := w1) in * end.
  match type of wa with _ => idtac end.
  set (f := match sig with
            | SIGTERM => on_terminate (behaviour p)
            | SIGKILL => on_kill (behaviour p)
            end) in *.
  assert (Hra : runners wa !! self = Some (with_proc (Some (with_fate f p)) r))
    by (subst wa; simpl; lookups; by rewrite Hp).
  destruct f as [d code|] eqn:Hf.
  - destruct (wait_leaving self _ _ code wa Hra eq_refl)
      as (w3 & Hw3 & Hex & Hn & Hh); [right; simpl; eauto|].
    rewrite Hw3 in H. simplify_eq. split; [|done].
    rewrite Hh. subst wa. simpl. rewrite Hc. by rewrite <- app_assoc.
  - by eapply wait_never in H.
Qed.

(** Stopping a running process the way [run] does: a SIGTERM, the exit
    awaited for 10, a SIGKILL when that takes longer.  When it comes back
    the process has exited. *)
Lemma stop_running (self : nat) (r : Runner) (p : Process) (w w' : World) :
  runners w !! self = Some r -> _proc r = Some p -> returncode p = None ->
  try_except (Runner.terminate self (Some 10);; mret tt) "TimeoutError"
    (Runner.kill self None;; mret tt) w = Ok tt w' ->
  exists evs code,
    history w' = history w ++ Signalled self (pid p) SIGTERM :: evs
                 ++ [Exited self (pid p) code]
    /\ spawned_of evs = []
    /\ next_id w' = next_id w
    /\ exited self code w'.
Proof.
  intros Hr Hp Hc H.
  apply try_except_inv in H as [[H _]|(e & w1 & H & Hcls & Hk)];
    unfold Runner.terminate, Runner._terminate_impl in H; simpl in H;
    rewrite bind_unfold, bind_unfold, (send_signal_alive _ _ _ _ _ _ Hr Hp Hc) in H;
    match type of H with context [Runner.wait_for _ _ ?w1] => set (wa := w1) in * end;
    assert (Hra : runners wa !! self
                  = Some (with_proc (Some (with_fate (on_terminate (behaviour p)) p)) r))
      by (subst wa; simpl; lookups; by rewrite Hp);
    destruct (Runner.wait_for self 10 wa) as [c w2|e' w2|w2] eqn:Hw; simplify_eq;
    unfold Runner.wait_for in Hw; rewrite bind_unfold in Hw;
    rewrite (the_proc_eq _ _ _ _ _ Hra eq_refl) in Hw;
    simpl in Hw; rewrite Hc in Hw;
    destruct (on_terminate (behaviour p)) as [d code|] eqn:Hf.
  - destruct (d <? 10); [|minv Hw].
    destruct (wait_leaving self _ _ code wa Hra eq_refl)
      as (w3 & Hw3 & Hex & Hn & Hh); [right; simpl; eauto|].
    rewrite Hw3 in Hw. simplify_eq. minv H. eexists [], _.
    split; [|split; [done|split; [exact Hn|eassumption]]].
    rewrite Hh. subst wa. simpl. rewrite Hc. by rewrite <- app_assoc.
  - minv Hw.
  - destruct (d <? 10).
    { destruct (wait_leaving self _ _ code wa Hra eq_refl)
        as (w3 & Hw3 & Hex & Hn & Hh); [right; simpl; eauto|].
      by rewrite Hw3 in Hw. }
    minv Hw. clear Hcls.
    apply bind_inv in Hk as [(c & w2 & Hk & Hret)|[(? & ? & _ & ?)|(? & _ & ?)]];
      [|done..].
    minv Hret.
    eapply signal_wait in Hk as (Hh & Hn & Hex);
      [|subst wa; simpl; lookups; rewrite Hp; simpl; reflexivity|reflexivity|exact Hc].
    eexists [_], _. split.
    { rewrite Hh. subst wa. simpl. by rewrite <- app_assoc. }
    split; [done|split; [exact Hn|exact Hex]].
  - minv Hw. clear Hcls.
    apply bind_inv in Hk as [(c & w2 & Hk & Hret)|[(? & ? & _ & ?)|(? & _ & ?)]];
      [|done..].
    minv Hret.
    eapply signal_wait in Hk as (Hh & Hn & Hex); [|exact Hra|reflexivity|exact Hc].
    eexists [_], _. split.
    { rewrite Hh. simpl. by rewrite <- app_assoc. }
    split; [done|split; [exact Hn|exact Hex]].
Qed.

(** A launch spawns one process, under the next pid; what else it adds to
    the history is the exit of that process. *)
Lemma run_impl_spawns (self : nat) (e : string) (v : list (string * string))
    (c : list string) (w w' : World) (ok : bool) :
  Runner._run_impl self e v c w = Ok ok w' ->
  exists evs r p,
    history w' = history w ++ Spawned self (next_id w) :: evs
    /\ spawned_of evs = []
    /\ runners w' !! self = Some r /\ _proc r = Some p /\ pid p = next_id w.
Proof.
  intros H. unfold Runner._run_impl, Runner.create_subprocess, Runner.sleep in H.
  minv H; tidy; rewrite <- ?app_assoc; simpl;
    eexists _, _, _; (split; [reflexivity|]); (split; [reflexivity|]);
    (split; [reflexivity|]); split; reflexivity.
Qed.

(** [run] on a runner whose process is running: the process is stopped
    and has exited before the next one is spawned. *)
Lemma run_restarts (self : nat) (r : Runner) (p : Process) (e : string)
    (v : list (string * string)) (c : list string) (w w' : World) (ok : bool) :
  runners w !! self = Some r -> _proc r = Some p -> returncode p = None ->
  Runner.run self e v c w = Ok ok w' ->
  exists evs1 code evs2 r' p',
    history w' = history w ++ Signalled self (pid p) SIGTERM :: evs1
                 ++ Exited self (pid p) code :: Spawned self (next_id w) :: evs2
    /\ spawned_of evs1 = [] /\ spawned_of evs2 = []
    /\ runners w' !! self = Some r' /\ _proc r' = Some p' /\ pid p' = next_id w.
Proof.
  intros Hr Hp Hc H. unfold Runner.run in H.
  rewrite bind_unfold, (is_running_eq _ _ _ Hr) in H.
  unfold Runner.alive in H. rewrite Hp, Hc in H. simpl in H.
  apply bind_inv in H as [([] & w1 & Hstop & H)|[(? & ? & _ & ?)|(? & _ & ?)]];
    [|done..].
  apply (stop_running _ _ _ _ _ Hr Hp Hc) in Hstop
    as (evs1 & code & Hh1 & Hs1 & Hn1 & Hex).
  minv H;
    match goal with
    | Hi : Runner._run_impl _ _ _ _ _ = Ok _ _ |- _ =>
        apply run_impl_spawns in Hi as (evs2 & r2 & p2 & Hh2 & Hs2 & Hr2 & Hp2 & Hpid)
    end;
    simpl in *; exists evs1, code, evs2; tidy;
    eexists _, _; rewrite ?Hh2, ?Hh1, ?Hn1 in *;
    (split; [by rewrite <- !app_assoc; simpl; rewrite <- !app_assoc|]);
    (split; [done|]); (split; [done|]);
    (split; [reflexivity|]); simpl; eauto.
Qed.

(** ** The footprint of the file operations *)

#[global] Instance fs_frame_preorder : PreOrder fs_frame.
Proof.
  split.
  - intros w. constructor; try done; reflexivity.
  - intros w1 w2 w3 [] []. constructor; try congruence. by etrans.
Qed.

Lemma fs_frame_set_fs (f : gmap path Node -> gmap path Node) :
  steps fs_frame (modify (set_fs f)).
Proof. intros w. simpl. constructor; simpl; try done. by apply grew_same. Qed.

Lemma fs_frame_emit (ev : Event) :
  checkout_event ev = true -> steps fs_frame (emit ev).
Proof. intros H w. simpl. constructor; simpl; try done. by apply grew_emit. Qed.

Ltac fs_frame_auto :=
  repeat (steps_step
          || apply fs_frame_set_fs
          || (apply fs_frame_emit; reflexivity)
          || match goal with
             | |- steps _ (match ?x with _ => _ end) => destruct x
             | |- steps _ (if ?x then _ else _) => destruct x
             | |- steps _ (let '(_, _) := ?x in _) => destruct x
             end).

Lemma fs_frame_exists (p : path) : steps fs_frame (exists_ p).
Proof. unfold exists_. fs_frame_auto. Qed.

Lemma fs_frame_load (self : releases.Release) : steps fs_frame (Release.load self).
Proof.
  unfold Release.load, Release.loaded_on_disk, Release.git_copy_tagged_version,
    exists_, makedirs, write_file.
  fs_frame_auto.
Qed.

Lemma fs_frame_ensure_log (file : path) :
  steps fs_frame (Service._ensure_log_file_exists file).
Proof.
  unfold Service._ensure_log_file_exists, exists_, makedirs, append_file.
  fs_frame_auto.
Qed.

Lemma fs_frame_write_to_log (self : nat) (data : string) :
  steps fs_frame (Service._write_to_log self data).
Proof.
  unfold Service._write_to_log, exists_, append_file, service_of.
  fs_frame_auto.
Qed.


(** ** Running a script that is running *)

Lemma acquire_port_raises (P : exn -> Prop) (pool : list Z) :
  P (IndexError "pop index out of range") ->
  raises_only P (lift (PortService.acquire_port pool)).
Proof.
  intros HP. apply raises_only_lift. intros e He.
  destruct pool; simpl in He; by simplify_eq.
Qed.

Lemma script_run_raises (self : nat) (ef : option string)
    (env : option (dict string string)) (ca : option (list string)) :
  raises_only (fun e => exn_class e <> "AlreadyRunningError"%string)
    (Script.run self ef env ca).
Proof.
  unfold Script.run. raises_only_auto. by apply acquire_port_raises.
Qed.

Lemma port_inv (self : nat) (w w' : World) (p : option Z) :
  Runner.port self w = Ok p w' -> w' = w.
Proof. intros H. unfold Runner.port in H. by minv H. Qed.

Lemma run_script_rejects (script : nat) (o : option ScriptRunOverrides)
    (s : script.Script) (r : Runner) (p : Process) (w : World) :
  scripts w !! script = Some s ->
  runners w !! script._runner s = Some r ->
  _proc r = Some p -> returncode p = None ->
  ScriptHandler.run_script script o w
  = Err (HTTPException 400 "Script is already running") w.
Proof.
  intros Hs Hr Hp Hc. unfold ScriptHandler.run_script, script_of.
  rewrite bind_unfold, (deref_Ok _ _ _ _ Hs), bind_unfold, (is_running_eq _ _ _ Hr).
  unfold Runner.alive. by rewrite Hp, Hc.
Qed.

Lemma script_run_restarts (self : nat) (ef : option string)
    (env : option (dict string string)) (ca : option (list string))
    (s : script.Script) (r : Runner) (p : Process) (w w' : World) :
  scripts w !! self = Some s ->
  runners w !! script._runner s = Some r ->
  _proc r = Some p -> returncode p = None ->
  Script.run self ef env ca w = Ok tt w' ->
  exists pre evs1 code evs2 r' p',
    history w' = history w ++ pre
                 ++ Signalled (script._runner s) (pid p) SIGTERM :: evs1
                 ++ Exited (script._runner s) (pid p) code
                 :: Spawned (script._runner s) (next_id w) :: evs2
    /\ spawned_of pre = [] /\ spawned_of evs1 = [] /\ spawned_of evs2 = []
    /\ runners w' !! script._runner s = Some r' /\ _proc r' = Some p'
    /\ pid p' = next_id w.
Proof.
  intros Hs Hr Hp Hc H. unfold Script.run, Script.set_state, script_of in H.
  rewrite bind_unfold, (deref_Ok _ _ _ _ Hs) in H.
  apply bind_inv in H as [(loaded & w1 & Hl & H)|[(? & ? & _ & ?)|(? & _ & ?)]];
    [|done..].
  unfold Release.loaded_on_disk in Hl. rewrite exists_unfold in Hl.
  injection Hl as <- <-.
  apply bind_inv in H as [([] & w2 & Hld & H)|[(? & ? & _ & ?)|(? & _ & ?)]];
    [|done..].
  assert (F : fs_frame w w2).
  { match type of Hld with
    | when ?b ?m _ = _ =>
        pose proof (steps_when fs_frame b m (fs_frame_load _) w) as F
    end.
    by rewrite Hld in F. }
  destruct F as [Fr _ _ Fn _ _ _ _ _ _ _ (pre & Fh & Fpre)].
  minv H.
  match goal with
  | Hrun : Runner.run _ _ _ _ _ = Ok _ _ |- _ =>
      eapply run_restarts in Hrun
        as (evs1 & code & evs2 & r' & p' & Hh & Hs1 & Hs2 & Hr' & Hp' & Hpid);
        [|simpl; rewrite Fr; exact Hr|exact Hp|exact Hc]
  end.
  match goal with
  | Hport : Runner.port _ _ = Ok _ _ |- _ => apply port_inv in Hport; subst
  end.
  simpl in *.
  eexists (pre ++ [Script_state self script.STARTING]), evs1, code,
    (evs2 ++ [Script_state self _]), r', p'.
  rewrite Hh, Fh, Fn in *.
  split; [by rewrite <- !app_assoc; simpl; rewrite <- !app_assoc|].
  assert (Hpre : spawned_of pre = []).
  { clear -Fpre. induction pre as [|[] pre IH]; simpl in *; try done; auto. }
  unfold spawned_of in *. rewrite !omap_app, Hpre, Hs2. simpl. eauto 10.
Qed.

(** C4, as the specification states it, fails: [Script.run] on a script
    whose process is running raises nothing; it returns, and a second
    process has been spawned. *)
Lemma script_run_again_starts_second_process :
  let w := running_script_world in
  (exists s r p, scripts w !! 1%nat = Some s
                 /\ runners w !! script._runner s = Some r
                 /\ _proc r = Some p /\ returncode p = None)
  /\ exists w', Script.run 1 None None None w = Ok tt w'
                /\ spawned_of (history w) = [2%nat]
                /\ spawned_of (history w') = [2%nat; 3%nat].
Proof.
  split.
  - vm_compute. eexists _, _, _. repeat split; reflexivity.
  - vm_compute. eexists. repeat split; reflexivity.
Qed.

(** C4, amended: for a script whose process is running, the handler
    [run_script] refuses with HTTP status 400 and changes nothing;
    [Script.run] itself raises no [AlreadyRunningError]: when it returns,
    its runner has stopped the running process with a SIGTERM (and
    whatever it took after that), the process has exited, and only then one
    new process has been spawned, which the runner now holds. *)
Theorem run_on_running_script (self : nat) (o : option ScriptRunOverrides)
    (ef : option string) (env : option (dict string string))
    (ca : option (list string))
    (s : script.Script) (r : Runner) (p : Process) (w : World) :
  scripts w !! self = Some s ->
  runners w !! script._runner s = Some r ->
  _proc r = Some p -> returncode p = None ->
  (pid p < next_id w)%nat ->
  ScriptHandler.run_script self o w
  = Err (HTTPException 400 "Script is already running") w
  /\ (forall e w', Script.run self ef env ca w = Err e w' ->
                   exn_class e <> "AlreadyRunningError"%string)
  /\ (forall w', Script.run self ef env ca w = Ok tt w' ->
       exists pre evs1 code evs2 r' p',
         history w' = history w ++ pre
                      ++ Signalled (script._runner s) (pid p) SIGTERM :: evs1
                      ++ Exited (script._runner s) (pid p) code
                      :: Spawned (script._runner s) (pid p') :: evs2
         /\ spawned_of pre = [] /\ spawned_of evs1 = [] /\ spawned_of evs2 = []
         /\ runners w' !! script._runner s = Some r' /\ _proc r' = Some p'
         /\ pid p' <> pid p).
Proof.
  intros Hs Hr Hp Hc Hpid. split; [by eapply run_script_rejects|].
  split; [intros e w'; apply script_run_raises|].
  intros w' H.
  destruct (script_run_restarts _ _ _ _ _ _ _ _ _ Hs Hr Hp Hc H)
    as (pre & evs1 & code & evs2 & r' & p' & Hh & H1 & H2 & H3 & Hr' & Hp' & Hn).
  exists pre, evs1, code, evs2, r', p'. rewrite Hn. repeat split; try done. lia.
Qed.

Lemma run_on_running_script_witness :
  exists s r p,
    scripts running_script_world !! 1%nat = Some s
    /\ runners running_script_world !! script._runner s = Some r
    /\ _proc r = Some p /\ returncode p = None
    /\ ScriptHandler.run_script 1 None running_script_world
        = Err (HTTPException 400 "Script is already running") running_script_world.
Proof.
  destruct (scripts running_script_world !! 1%nat) as [s|] eqn:Hs;
    [|vm_compute in Hs; discriminate Hs].
  destruct (runners running_script_world !! script._runner s) as [r|] eqn:Hr;
    [|vm_compute in Hs; injection Hs as <-; vm_compute in Hr; discriminate Hr].
  destruct (_proc r) as [p|] eqn:Hp;
    [|vm_compute in Hs; injection Hs as <-; vm_compute in Hr; injection Hr as <-;
      vm_compute in Hp; discriminate Hp].
  exists s, r, p. split; [done|]. split; [done|]. split; [done|].
  assert (Hc : returncode p = None).
  { vm_compute in Hs; injection Hs as <-; vm_compute in Hr; injection Hr as <-;
      vm_compute in Hp; injection Hp as <-. reflexivity. }
  split; [done|].
  apply (run_on_running_script 1 None None None None s r p running_script_world
           Hs Hr Hp Hc).
  vm_compute in Hs; injection Hs as <-; vm_compute in Hr; injection Hr as <-;
    vm_compute in Hp; injection Hp as <-. vm_compute. lia.
Defined.

(** ** Launches that raise *)

Lemma create_subprocess_returns (self : nat) (l : Launch) (r : Runner) (w : World) :
  runners w !! self = Some r ->
  exists w' r' p, Runner.create_subprocess self l w = Ok tt w'
    /\ runners w' !! self = Some r' /\ _proc r' = Some p.
Proof.
  intros Hr. eexists _, _, _.
  split; [cbv [Runner.create_subprocess alloc get modify set_runner emit mbind M_bind];
          reflexivity|]. simpl.
  rewrite lookup_alter_eq, Hr. split; reflexivity.
Qed.

Lemma sleep_returns (self : nat) (t : Z) (r : Runner) (p : Process) (w : World) :
  runners w !! self = Some r -> _proc r = Some p ->
  exists w' r' p', Runner.sleep self t w = Ok tt w'
    /\ runners w' !! self = Some r' /\ _proc r' = Some p'.
Proof.
  intros Hr Hp. unfold Runner.sleep, runner_of.
  rewrite bind_unfold, (deref_Ok _ _ _ _ Hr), Hp.
  destruct p as [pid [c|] [d code|] b l]; try (by eexists _, _, _).
  destruct (d <? t).
  - eexists _, _, _.
    split; [cbv [set_proc set_runner modify emit mbind M_bind]; reflexivity|]. simpl.
    rewrite lookup_alter_eq, Hr. simpl. rewrite Hp. split; reflexivity.
  - eexists _, _, _.
    split; [cbv [set_proc set_runner modify emit mbind M_bind]; reflexivity|]. simpl.
    rewrite lookup_alter_eq, Hr. simpl. rewrite Hp. split; reflexivity.
Qed.

(** A launch raises only when the pool has no port for a streamlit
    runner. *)
Lemma run_impl_raises (self : nat) (e : string) (v : list (string * string))
    (c : list string) (w w' : World) (x : exn) :
  is_Some (runners w !! self) ->
  Runner._run_impl self e v c w = Err x w' ->
  x = IndexError "pop index out of range".
Proof.
  intros [r Hr] H. unfold Runner._run_impl, runner_of in H.
  rewrite bind_unfold, (deref_Ok _ _ _ _ Hr) in H.
  destruct (runner_class r).
  - rewrite bind_unfold in H.
    match type of H with
    | context [Runner.create_subprocess self ?l w] =>
        destruct (create_subprocess_returns self l r w Hr) as (? & ? & ? & Hc & _)
    end.
    rewrite Hc in H. discriminate H.
  - rewrite bind_unfold in H.
    match type of H with
    | context [Runner.create_subprocess self ?l w] =>
        destruct (create_subprocess_returns self l r w Hr) as (? & ? & ? & Hc & _)
    end.
    rewrite Hc in H. discriminate H.
  - rewrite bind_unfold in H. unfold get at 1 in H. cbv iota in H.
    rewrite bind_unfold in H.
    destruct (ports w) as [|p rest]; [by injection H as <- _|].
    simpl lift in H. unfold mret, M_ret in H. cbv iota beta in H.
    rewrite bind_unfold in H. unfold modify at 1 in H. cbv iota beta in H.
    rewrite bind_unfold in H. unfold set_runner at 1, modify at 1 in H.
    cbv iota beta in H.
    match type of H with
    | (Runner.create_subprocess _ ?l ≫= _) ?w1 = _ =>
        destruct (create_subprocess_returns self l (with_port (Some p) r) w1)
          as (w2 & r2 & p2 & Hc & Hr2 & Hp2);
        [simpl; by rewrite lookup_alter_eq, Hr|]
    end.
    rewrite bind_unfold, Hc in H.
    destruct (sleep_returns self 3 r2 p2 w2 Hr2 Hp2) as (w3 & r3 & p3 & Hs & Hr3 & Hp3).
    rewrite bind_unfold, Hs in H.
    by rewrite bind_unfold, (the_proc_eq _ _ _ _ _ Hr3 Hp3) in H.
Qed.

Lemma run_idle_raises (self : nat) (e : string) (v : list (string * string))
    (c : list string) (w w' : World) (x : exn) :
  Runner.is_running self w = Ok false w ->
  Runner.run self e v c w = Err x w' ->
  x = IndexError "pop index out of range".
Proof.
  intros Hidle H. unfold Runner.run in H.
  rewrite (bind_Ok _ _ _ _ _ Hidle) in H. simpl when in H.
  apply is_running_inv in Hidle as [_ (r & Hr & _)].
  rewrite bind_unfold in H. change (@mret M _ unit tt w) with (@Ok unit tt w) in H.
  cbv iota beta in H. unfold runner_of in H.
  rewrite bind_unfold, (deref_Ok _ _ _ _ Hr) in H.
  rewrite bind_unfold in H.
  match type of H with
  | match ?m w with _ => _ end = _ =>
      assert (exists w1, m w = Ok tt w1 /\ is_Some (runners w1 !! self))
        as (w1 & Hm & Hr1)
  end.
  { destruct (_stream_strategy r); eexists; (split; [reflexivity|]); simpl;
      rewrite ?lookup_alter_is_Some; eauto. }
  rewrite Hm, bind_unfold in H.
  destruct (Runner._run_impl self e v c w1) as [ok w2|x2 w2|w2] eqn:Hi.
  - destruct ok; [|discriminate H].
    rewrite bind_unfold in H.
    destruct (deref runners self w2) as [r2 w2'|x2 w2'|w2'] eqn:Hd; [discriminate H| |discriminate H].
    apply run_impl_spawns in Hi as (? & r2 & ? & _ & _ & Hr2 & _).
    by rewrite (deref_Ok _ _ _ _ Hr2) in Hd.
  - injection H as <- _. by eapply run_impl_raises.
  - discriminate H.
Qed.

(** ** Starting a service *)

Lemma runner_events_other (r self : nat) (evs : list Event) :
  forallb (runner_event r) evs = true ->
  tries_of self evs = [] /\ service_states_of self evs = [].
Proof.
  induction evs as [|ev evs IH]; simpl; [done|].
  intros [Hev Hevs]%andb_true_iff. destruct (IH Hevs) as [IH1 IH2].
  unfold tries_of, service_states_of in *. simpl.
  destruct ev; simpl in *; try done.
Qed.

Lemma tries_of_app (self : nat) (e1 e2 : list Event) :
  tries_of self (e1 ++ e2) = tries_of self e1 ++ tries_of self e2.
Proof. apply omap_app. Qed.

Lemma service_states_of_app (self : nat) (e1 e2 : list Event) :
  service_states_of self (e1 ++ e2)
  = service_states_of self e1 ++ service_states_of self e2.
Proof. apply omap_app. Qed.

Lemma is_running_same_runners (r : nat) (b : bool) (w w' : World) :
  runners w' = runners w ->
  Runner.is_running r w = Ok b w -> Runner.is_running r w' = Ok b w'.
Proof.
  intros Hr H. apply is_running_inv in H as [_ (x & Hx & ->)].
  apply is_running_eq. by rewrite Hr.
Qed.

Lemma exited_same_runners (r : nat) (code : Z) (w w' : World) :
  runners w' = runners w -> exited r code w -> exited r code w'.
Proof. intros Hr (x & p & H). exists x, p. by rewrite Hr. Qed.

Lemma startup_loop_ready (n self runner : nat) (cfg : app_config.RuntimeConfig)
    (w : World) :
  Service.startup_loop n self runner cfg true w = Ok true w.
Proof. by destruct n. Qed.

Ltac ok_inv :=
  repeat match goal with
         | H : mret _ _ = Ok _ _ |- _ => minv H
         | H : Ok _ _ = Ok _ _ |- _ => minv H
         | H : Err _ _ = Ok _ _ |- _ => discriminate H
         | H : Hang _ = Ok _ _ |- _ => discriminate H
         | H : Ok _ _ = Hang _ |- _ => discriminate H
         | H : Err _ _ = Hang _ |- _ => discriminate H
         | H : mret _ _ = Hang _ |- _ => discriminate H
         end.

Lemma tries_of_try (self : nat) (b : bool) (evs : list Event) :
  tries_of self (Startup_try self b :: evs) = b :: tries_of self evs.
Proof. unfold tries_of. simpl. by rewrite Nat.eqb_refl. Qed.

Lemma service_states_of_try (self s : nat) (b : bool) (evs : list Event) :
  service_states_of self (Startup_try s b :: evs) = service_states_of self evs.
Proof. reflexivity. Qed.

Lemma tries_of_state (self s : nat) (st : service.State) (evs : list Event) :
  tries_of self (Service_state s st :: evs) = tries_of self evs.
Proof. reflexivity. Qed.

Lemma service_states_of_state (self : nat) (st : service.State) (evs : list Event) :
  service_states_of self (Service_state self st :: evs)
  = st :: service_states_of self evs.
Proof. unfold service_states_of. simpl. by rewrite Nat.eqb_refl. Qed.

(** The loop of startup tries, from a runner without a running process. *)
Lemma startup_loop_spec (n self runner : nat) (cfg : app_config.RuntimeConfig)
    (w : World) :
  Runner.is_running runner w = Ok false w ->
  let out := Service.startup_loop n self runner cfg false w in
  exists evs,
    history (world_of out) = history w ++ evs
    /\ service_states_of self evs = []
    /\ (length (tries_of self evs) <= n)%nat
    /\ (services (world_of out) = services w
        /\ fs (world_of out) = fs w
        /\ tasks (world_of out) = tasks w
        /\ clock (world_of out) = clock w
        /\ utcnow (world_of out) = utcnow w)
    /\ (forall w', out <> Hang w')
    /\ (forall x w', out = Err x w' -> x = IndexError "pop index out of range")
    /\ forall ready w', out = Ok ready w' ->
         existsb id (tries_of self evs) = ready
         /\ (ready = false ->
             length (tries_of self evs) = n
             /\ (n <> 0%nat -> exists code, exited runner code w')).
Proof.
  revert w. induction n as [|n IH]; intros w Hidle out.
  { exists []. subst out. simpl. rewrite app_nil_r.
    split; [done|]. split; [done|]. split; [done|]. split; [done|].
    split; [done|]. split; [done|]. intros ready w' H. ok_inv. done. }
  subst out. simpl Service.startup_loop. rewrite bind_unfold.
  pose proof (runner_frame_run runner (app_config.entry_file cfg)
                (merge (app_config.env cfg) release_mode)
                (app_config.cli_args cfg) w) as F.
  pose proof (run_idle_no_hang runner (app_config.entry_file cfg)
                (merge (app_config.env cfg) release_mode)
                (app_config.cli_args cfg) w) as NH.
  pose proof (run_false runner (app_config.entry_file cfg)
                (merge (app_config.env cfg) release_mode)
                (app_config.cli_args cfg) w) as RF.
  destruct (Runner.run _ _ _ _ w) as [ready w1|e w1|w1] eqn:Erun;
    simpl in F; destruct F as [_ _ _ Fsv Ffs _ _ Ft Fc Fu _ (evs1 & Fh & Fev)];
    destruct (runner_events_other _ self _ Fev) as [Ht1 Hs1].
  - rewrite bind_unfold. simpl.
    set (w2 := set_history (fun h => h ++ [Startup_try self ready]) w1).
    destruct ready.
    + rewrite startup_loop_ready. exists (evs1 ++ [Startup_try self true]).
      simpl. rewrite Fh, tries_of_app, service_states_of_app, Ht1, Hs1.
      rewrite tries_of_try, service_states_of_try, <- !app_assoc. simpl.
      split; [done|]. split; [done|]. split; [lia|]. split; [done|].
      split; [done|]. split; [done|]. intros ready w' H. ok_inv. done.
    + destruct (RF w1 eq_refl) as [code Hex].
      assert (Hidle2 : Runner.is_running runner w2 = Ok false w2).
      { eapply exited_not_alive, exited_same_runners; [|exact Hex]. done. }
      destruct (IH w2 Hidle2)
        as (evs & Hh & Hst & Hlen & (Hsv & Hfs & Htk & Hck & Hut) & Hnh & Herr & Hok).
      exists (evs1 ++ Startup_try self false :: evs).
      rewrite Hh, Hsv, Hfs, Htk, Hck, Hut. simpl.
      rewrite Fh, tries_of_app, service_states_of_app, Ht1, Hs1.
      rewrite tries_of_try, service_states_of_try, <- !app_assoc. simpl.
      split; [done|]. split; [done|]. split; [lia|]. split; [done|].
      split; [done|]. split; [done|]. intros ready w' H.
      destruct (Hok ready w' H) as [Hr Hf]. split; [done|].
      intros ->. destruct (Hf eq_refl) as [-> Hx]. split; [done|]. intros _.
      destruct n as [|n']; [|by apply Hx].
      simpl in H. ok_inv. exists code. done.
  - exists evs1. simpl. rewrite Ht1, Hs1. simpl.
    split; [done|]. split; [done|]. split; [lia|]. split; [done|].
    split; [done|]. split; [|done].
    intros x w' [= <- _]. by eapply run_idle_raises.
  - by destruct (NH w1 Hidle).
Qed.

Lemma appended_lookup (m : gmap path Node) (p : path) (data : str) :
  exists c, appended m p data !! p = Some (File (c ++ data)).
Proof.
  unfold appended. destruct (m !! p) as [[|c]|].
  - exists []. by rewrite lookup_insert_eq.
  - exists c. by rewrite lookup_insert_eq.
  - exists []. by rewrite lookup_insert_eq.
Qed.

Lemma appended_keeps (m : gmap path Node) (p : path) (data : str) (q : path) :
  is_Some (m !! q) -> is_Some (appended m p data !! q).
Proof.
  intros Hq. unfold appended.
  destruct (m !! p) as [[|c]|];
    (destruct (decide (p = q)) as [->|Hne];
     [rewrite lookup_insert_eq; eauto|by rewrite lookup_insert_ne]).
Qed.

Lemma ensure_log_spec (file : path) (w : World) :
  (is_Some (fs w !! file) -> Service._ensure_log_file_exists file w = Ok tt w)
  /\ exists w', Service._ensure_log_file_exists file w = Ok tt w'
       /\ fs_frame w w' /\ history w' = history w
       /\ is_Some (fs w' !! file)
       /\ (forall q, is_Some (fs w !! q) -> is_Some (fs w' !! q)).
Proof.
  unfold Service._ensure_log_file_exists. rewrite bind_unfold, exists_unfold.
  destruct (decide (is_Some (fs w !! file))) as [Hin|Hout].
  - rewrite bool_decide_eq_true_2 by done. split; [done|].
    exists w. split; [done|]. split; [reflexivity|]. done.
  - rewrite bool_decide_eq_false_2 by done. split; [done|].
    eexists. split; [reflexivity|]. simpl.
    split; [constructor; simpl; try done; by apply grew_same|].
    split; [done|]. split.
    + destruct (appended_lookup
                  (fold_left (fun m d => match m !! d with
                                         | Some _ => m
                                         | None => <[d := Dir]> m
                                         end) (upto (dirname file)) (fs w))
                  file []) as [c Hc].
      rewrite Hc. eauto.
    + intros q Hq. apply (appended_keeps _ file [] q). by apply mk_dirs_keeps.
Qed.

Lemma write_to_log_spec (self : nat) (data : string) (s : service.Service) (w : World) :
  services w !! self = Some s ->
  exists w', Service._write_to_log self data w = Ok tt w'
    /\ fs_frame w w' /\ history w' = history w
    /\ (forall q, is_Some (fs w !! q) -> is_Some (fs w' !! q))
    /\ (is_Some (fs w !! service._log_file s) ->
        exists content,
          fs w' !! service._log_file s = Some (File (content ++ Service.log_line w data))).
Proof.
  intros Hs. unfold Service._write_to_log, service_of.
  rewrite bind_unfold, (deref_Ok _ _ _ _ Hs), bind_unfold, exists_unfold.
  destruct (decide (is_Some (fs w !! service._log_file s))) as [Hin|Hout].
  - rewrite bool_decide_eq_true_2 by done.
    eexists. split; [reflexivity|]. simpl.
    split; [constructor; simpl; try done; by apply grew_same|].
    split; [done|]. split.
    + intros q Hq. by apply (appended_keeps _ _ _ q).
    + intros _. apply appended_lookup.
  - rewrite bool_decide_eq_false_2 by done.
    exists w. split; [done|]. split; [reflexivity|]. done.
Qed.

Lemma set_state_eq (self : nat) (st : service.State) (w : World) :
  Service.set_state self st w
  = Ok tt (set_history (fun h => h ++ [Service_state self st])
             (set_services (alter (service_set.set_state st) self) w)).
Proof. reflexivity. Qed.

Lemma when_not_loaded (rel : releases.Release) (w : World) :
  when (negb (bool_decide (is_Some (fs w !! Release.root_path rel))))
    (Release.load rel) w
  = Release.load rel w.
Proof.
  destruct (decide (is_Some (fs w !! Release.root_path rel))) as [Hin|Hout].
  - rewrite bool_decide_eq_true_2 by done. simpl. symmetry.
    by apply load_when_loaded.
  - by rewrite bool_decide_eq_false_2 by done.
Qed.

(** [Service.run] on a service whose runner has no running process: the
    release is materialised, which leaves the store [wl], and then the
    startup tries are made. *)
Lemma service_run_idle (self : nat) (s : service.Service) (w wl : World) :
  services w !! self = Some s ->
  Release.load (service._release s) w = Ok tt wl ->
  Runner.is_running (service._runner s) w = Ok false w ->
  let out := Service.run self w in
  exists evs,
    history (world_of out) = history wl ++ Service_state self service.STARTING :: evs
    /\ (length (tries_of self evs) <= Service._startup_tries)%nat
    /\ (forall w', out <> Hang w')
    /\ (forall x w', out = Err x w' -> x = IndexError "pop index out of range")
    /\ forall w', out = Ok tt w' ->
         if existsb id (tries_of self evs)
         then service_states_of self evs = [service.ACTIVE]
              /\ services w' !! self
                 = Some (service_set.set_started_at (Some (clock w))
                           (service_set.set_state service.ACTIVE s))
              /\ tasks w' = tasks w ++ [Service_wait_task self; Service_log_task self]
         else length (tries_of self evs) = Service._startup_tries
              /\ service_states_of self evs = [service.FAILED_TO_START]
              /\ exists code content,
                   services w' !! self
                   = Some (service_set.set_exit_code (Some code)
                             (service_set.set_state service.FAILED_TO_START s))
                   /\ exited (service._runner s) code w'
                   /\ fs w' !! service._log_file s
                      = Some (File (content ++ Service.log_line w
                           ("Failed to start process. exit-code: " +:+ string_of_Z code))).
Proof.
  intros Hs Hload Hidle out. subst out.
  pose proof (fs_frame_load (service._release s) w) as Fl.
  rewrite Hload in Fl. simpl in Fl.
  unfold Service.run, service_of.
  rewrite bind_unfold, (deref_Ok _ _ _ _ Hs).
  unfold Release.loaded_on_disk. rewrite bind_unfold, exists_unfold.
  rewrite bind_unfold, when_not_loaded, Hload.
  destruct (ensure_log_spec (service._log_file s) wl)
    as [_ (w0 & He & F0 & Hh0 & Hlog0 & _)].
  assert (F : fs_frame w w0) by (by etrans).
  rewrite bind_unfold, He.
  rewrite bind_unfold, (is_running_same_runners _ _ _ _ (ff_runners _ _ F) Hidle).
  rewrite bind_unfold, set_state_eq.
  set (w1 := set_history _ (set_services _ w0)).
  assert (Hs1 : services w1 !! self = Some (service_set.set_state service.STARTING s)).
  { subst w1. simpl. rewrite lookup_alter_eq, (ff_services _ _ F), Hs. done. }
  destruct (write_to_log_spec self "Starting service..." _ w1 Hs1)
    as (w2 & Hw & F2 & Hh2 & Hkeep2 & _).
  rewrite bind_unfold, Hw.
  assert (Hidle2 : Runner.is_running (service._runner s) w2 = Ok false w2).
  { eapply is_running_same_runners; [exact (ff_runners _ _ F2)|].
    eapply is_running_same_runners; [|exact Hidle]. subst w1. simpl.
    exact (ff_runners _ _ F). }
  destruct (startup_loop_spec Service._startup_tries self (service._runner s)
              (app_config.config (service.config s)) w2 Hidle2)
    as (evs & Hh & Hst & Hlen & (Hsv & Hfs & Htk & Hck & Hut) & Hnh & Herr & Hok).
  rewrite bind_unfold.
  assert (Hhist2 : history w2 = history wl ++ [Service_state self service.STARTING]).
  { rewrite Hh2. subst w1. simpl. by rewrite Hh0. }
  destruct (Service.startup_loop _ _ _ _ _ w2) as [ready w3|e w3|w3] eqn:Eloop;
    simpl in Hh, Hsv, Hfs, Htk, Hck, Hut.
  2: { exists evs. simpl. rewrite Hh, Hhist2, <- app_assoc.
       split; [done|]. split; [done|]. split; [done|]. split; [|done].
       intros x w' [= <- _]. by eapply Herr. }
  2: { by destruct (Hnh w3). }
  destruct (Hok ready w3 eq_refl) as [Hex Hfail].
  assert (Hs3 : services w3 !! self = Some (service_set.set_state service.STARTING s)).
  { by rewrite Hsv, (ff_services _ _ F2). }
  destruct ready.
  - (* some try reported readiness *)
    change (negb true) with false. cbv iota.
    exists (evs ++ [Service_state self service.ACTIVE]).
    rewrite tries_of_app, service_states_of_app, Hst.
    rewrite tries_of_state, service_states_of_state. simpl.
    rewrite app_nil_r, Hex. rewrite Hh, Hhist2, <- !app_assoc. simpl.
    split; [done|]. split; [done|]. split; [done|]. split; [done|].
    intros w' H. rewrite bind_unfold, set_state_eq in H. minv H.
    split; [done|]. simpl. split.
    + rewrite !lookup_alter_eq, Hs3. simpl.
      rewrite Hck, (ff_clock _ _ F2). subst w1. simpl.
      by rewrite (ff_clock _ _ F).
    + rewrite <- app_assoc. simpl.
      rewrite Htk, (ff_tasks _ _ F2). subst w1. simpl.
      by rewrite (ff_tasks _ _ F).
  - (* no try reported readiness *)
    destruct (Hfail eq_refl) as [Hl5 Hexit].
    destruct Hexit as [code Hexited]; [done|].
    change (negb false) with true. cbv iota.
    rewrite bind_unfold, set_state_eq.
    set (w4 := set_history _ (set_services _ w3)).
    destruct Hexited as (r & p & Hr & Hp & Hc).
    destruct (wait_leaving (service._runner s) r p code w4)
      as (w5 & Hwait & Hex5 & _ & Hh5); [done|done|by left|].
    pose proof (runner_frame_wait (service._runner s) w4) as F5.
    rewrite Hwait in F5. simpl in F5.
    rewrite bind_unfold, Hwait. cbv iota. rewrite bind_unfold.
    unfold set_service at 1 2 3. unfold modify at 1 2 3. cbv iota.
    set (w6 := set_services _ w5).
    assert (Hs6 : services w6 !! self
                  = Some (service_set.set_exit_code (Some code)
                            (service_set.set_state service.FAILED_TO_START s))).
    { subst w6 w4. simpl. rewrite lookup_alter_eq, (rf_services _ _ _ F5). simpl.
      rewrite lookup_alter_eq, Hs3. done. }
    destruct (write_to_log_spec self
                ("Failed to start process. exit-code: " +:+ string_of_Z code) _ w6 Hs6)
      as (w7 & Hw7 & F7 & Hh7 & _ & Hline).
    rewrite Hw7. simpl world_of.
    exists (evs ++ [Service_state self service.FAILED_TO_START]).
    rewrite tries_of_app, service_states_of_app, Hst.
    rewrite tries_of_state, service_states_of_state. simpl.
    rewrite app_nil_r, Hex. rewrite Hh7. subst w6. simpl.
    rewrite Hh5, Hc, app_nil_r. subst w4. simpl.
    rewrite Hh, Hhist2, <- !app_assoc. simpl.
    split; [done|]. split; [done|]. split; [done|]. split; [done|].
    intros w' H. rewrite Hw7 in H. ok_inv. split; [done|]. split; [done|].
    destruct Hline as [content Hcontent].
    { simpl. rewrite (rf_fs _ _ _ F5). simpl. rewrite Hfs. by apply Hkeep2. }
    simpl in Hcontent.
    exists code, content. split; [by rewrite (ff_services _ _ F7)|].
    split; [eapply exited_same_runners; [exact (ff_runners _ _ F7)|]; done|].
    rewrite Hcontent. unfold Service.log_line. simpl.
    rewrite (rf_utcnow _ _ _ F5). simpl. rewrite Hut, (ff_utcnow _ _ F2).
    subst w1. simpl. by rewrite (ff_utcnow _ _ F).
Qed.

(** [Service.run] on a service whose process is running: the release is
    materialised, the log file is made, and that is all. *)
Lemma service_run_running (self : nat) (s : service.Service) (w wl : World) :
  services w !! self = Some s ->
  Release.load (service._release s) w = Ok tt wl ->
  Runner.is_running (service._runner s) w = Ok true w ->
  exists w', Service.run self w = Ok tt w'
    /\ fs_frame w w'
    /\ history w' = history wl
    /\ (is_Some (fs w !! Release.root_path (service._release s)) ->
        is_Some (fs w !! service._log_file s) -> w' = w).
Proof.
  intros Hs Hload Hrun.
  pose proof (fs_frame_load (service._release s) w) as Fl.
  rewrite Hload in Fl. simpl in Fl.
  unfold Service.run, service_of.
  rewrite bind_unfold, (deref_Ok _ _ _ _ Hs).
  unfold Release.loaded_on_disk. rewrite bind_unfold, exists_unfold.
  rewrite bind_unfold, when_not_loaded, Hload.
  destruct (ensure_log_spec (service._log_file s) wl)
    as [Hthere (w0 & He & F0 & Hh0 & _)].
  assert (F : fs_frame w w0) by (by etrans).
  rewrite bind_unfold, He.
  rewrite bind_unfold, (is_running_same_runners _ _ _ _ (ff_runners _ _ F) Hrun).
  exists w0. split; [done|]. split; [done|]. split; [done|].
  intros Hdisk Hlog.
  rewrite (load_when_loaded _ _ Hdisk) in Hload. injection Hload as <-.
  rewrite (Hthere Hlog) in He. by injection He as <-.
Qed.

(** C2. [Service.run], for a service whose release materialises (which
    leaves the store [wl]).  When the process of its runner is running
    the call returns having changed nothing but the files of the release
    and the log file: no state, no runner, no queued task, and nothing at
    all when those files were there.  Otherwise the state becomes
    [STARTING] and at most [_startup_tries] = 5 launches are tried; the
    call comes back, and raises only when a launch finds the port pool
    empty.  When it returns and no try reported readiness there were
    exactly 5 tries, the one state set after [STARTING] is
    [FAILED_TO_START], the exit code of the process, which has exited, is
    in [exit_code], and the log file ends with the line that reports it.
    When a try reported readiness the one state set after [STARTING] is
    [ACTIVE], [started_at] is the time of the clock and the two watcher
    tasks are queued. *)
Theorem service_run_spec (self : nat) (s : service.Service) (w wl : World)
    (running : bool) :
  services w !! self = Some s ->
  Release.load (service._release s) w = Ok tt wl ->
  Runner.is_running (service._runner s) w = Ok running w ->
  let out := Service.run self w in
  if running then
    exists w', out = Ok tt w'
      /\ fs_frame w w'
      /\ history w' = history wl
      /\ (is_Some (fs w !! Release.root_path (service._release s)) ->
          is_Some (fs w !! service._log_file s) -> w' = w)
  else
    exists evs,
      history (world_of out) = history wl ++ Service_state self service.STARTING :: evs
      /\ (length (tries_of self evs) <= 5)%nat
      /\ (forall w', out <> Hang w')
      /\ (forall x w', out = Err x w' -> x = IndexError "pop index out of range")
      /\ forall w', out = Ok tt w' ->
           if existsb id (tries_of self evs)
           then service_states_of self evs = [service.ACTIVE]
                /\ services w' !! self
                   = Some (service_set.set_started_at (Some (clock w))
                             (service_set.set_state service.ACTIVE s))
                /\ tasks w' = tasks w ++ [Service_wait_task self; Service_log_task self]
           else length (tries_of self evs) = 5%nat
                /\ service_states_of self evs = [service.FAILED_TO_START]
                /\ exists code content,
                     services w' !! self
                     = Some (service_set.set_exit_code (Some code)
                               (service_set.set_state service.FAILED_TO_START s))
                     /\ exited (service._runner s) code w'
                     /\ fs w' !! service._log_file s
                        = Some (File (content ++ Service.log_line w
                             ("Failed to start process. exit-code: " +:+ string_of_Z code))).
Proof.
  intros Hs Hload Hrun out. subst out. destruct running.
  - by apply service_run_running.
  - by apply service_run_idle.
Qed.

Lemma service_run_spec_witness :
  exists evs,
    history (world_of (Service.run 1 service_world))
    = history service_world ++ Service_state 1 service.STARTING :: evs
    /\ (length (tries_of 1 evs) <= 5)%nat.
Proof.
  destruct (services service_world !! 1%nat) as [s|] eqn:Hs;
    [|vm_compute in Hs; discriminate Hs].
  destruct (service_run_spec 1 s service_world service_world false Hs)
    as (evs & Hh & Hlen & _).
  - vm_compute in Hs. injection Hs as <-. vm_compute. reflexivity.
  - vm_compute in Hs. injection Hs as <-. vm_compute. reflexivity.
  - exists evs. split; assumption.
Defined.




(** ** The footprint of the calls on an artifact *)

#[global] Instance artifact_frame_preorder (k : Kind) (self runner : nat) :
  PreOrder (artifact_frame k self runner).
Proof.
  split.
  - intros w. constructor; eauto.
  - intros w1 w2 w3 [R1 S1 V1 SR1 VR1] [R2 S2 V2 SR2 VR2]. constructor.
    + intros r Hr. by rewrite R2, R1.
    + intros x Hx. by rewrite S2, S1.
    + intros x Hx. by rewrite V2, V1.
    + intros x s Hs. destruct (SR1 x s Hs) as (s' & Hs' & E1).
      destruct (SR2 x s' Hs') as (s'' & Hs'' & E2). exists s''.
      split; [done|congruence].
    + intros x s Hs. destruct (VR1 x s Hs) as (s' & Hs' & E1).
      destruct (VR2 x s' Hs') as (s'' & Hs'' & E2). exists s''.
      split; [done|congruence].
Qed.

Lemma steps_impl (R R' : relation World) {A} (m : M A) :
  (forall w w', R w w' -> R' w w') -> steps R m -> steps R' m.
Proof. intros H Hm w. apply H, Hm. Qed.

(** Neither the runners' methods on [runner] nor the file operations
    touch an artifact. *)
Lemma runner_frame_artifact (k : Kind) (self runner : nat) (w w' : World) :
  runner_frame runner w w' -> artifact_frame k self runner w w'.
Proof.
  intros F. constructor.
  - apply (rf_runners _ _ _ F).
  - intros x _. by rewrite (rf_scripts _ _ _ F).
  - intros x _. by rewrite (rf_services _ _ _ F).
  - intros x s Hs. exists s. by rewrite (rf_scripts _ _ _ F).
  - intros x s Hs. exists s. by rewrite (rf_services _ _ _ F).
Qed.

Lemma fs_frame_artifact (k : Kind) (self runner : nat) (w w' : World) :
  fs_frame w w' -> artifact_frame k self runner w w'.
Proof.
  intros F. constructor.
  - intros r _. by rewrite (ff_runners _ _ F).
  - intros x _. by rewrite (ff_scripts _ _ F).
  - intros x _. by rewrite (ff_services _ _ F).
  - intros x s Hs. exists s. by rewrite (ff_scripts _ _ F).
  - intros x s Hs. exists s. by rewrite (ff_services _ _ F).
Qed.

Lemma artifact_frame_same (k : Kind) (self runner : nat) (w w' : World) :
  runners w' = runners w -> scripts w' = scripts w -> services w' = services w ->
  artifact_frame k self runner w w'.
Proof.
  intros Hr Hs Hv. constructor; rewrite ?Hr, ?Hs, ?Hv; eauto.
Qed.

Lemma artifact_frame_set_script (self runner : nat)
    (f : script.Script -> script.Script) :
  (forall s, script._runner (f s) = script._runner s) ->
  steps (artifact_frame ScriptKind self runner) (set_script self f).
Proof.
  intros Hf w. simpl. constructor; simpl; try done.
  - intros x Hx. rewrite lookup_alter_ne; [done|]. intros <-. by apply Hx.
  - intros x s Hs. destruct (decide (x = self)) as [->|Hne].
    + exists (f s). by rewrite lookup_alter_eq, Hs.
    + exists s. by rewrite lookup_alter_ne.
  - eauto.
Qed.

Lemma artifact_frame_set_service (self runner : nat)
    (f : service.Service -> service.Service) :
  (forall s, service._runner (f s) = service._runner s) ->
  steps (artifact_frame ServiceKind self runner) (set_service self f).
Proof.
  intros Hf w. simpl. constructor; simpl; try done.
  - intros x Hx. rewrite lookup_alter_ne; [done|]. intros <-. by apply Hx.
  - eauto.
  - intros x s Hs. destruct (decide (x = self)) as [->|Hne].
    + exists (f s). by rewrite lookup_alter_eq, Hs.
    + exists s. by rewrite lookup_alter_ne.
Qed.

Lemma artifact_frame_emit (k : Kind) (self runner : nat) (ev : Event) :
  steps (artifact_frame k self runner) (emit ev).
Proof. intros w. by apply artifact_frame_same. Qed.

Lemma artifact_frame_ensure_future (k : Kind) (self runner : nat) (t : Task) :
  steps (artifact_frame k self runner) (ensure_future t).
Proof. intros w. by apply artifact_frame_same. Qed.

Lemma artifact_frame_of_runner (k : Kind) (self runner : nat) {A} (m : M A) :
  steps (runner_frame runner) m -> steps (artifact_frame k self runner) m.
Proof. apply steps_impl, runner_frame_artifact. Qed.

Lemma artifact_frame_of_fs (k : Kind) (self runner : nat) {A} (m : M A) :
  steps fs_frame m -> steps (artifact_frame k self runner) m.
Proof. apply steps_impl, fs_frame_artifact. Qed.

Ltac artifact_frame_leaf :=
  first
    [ apply artifact_frame_emit
    | apply artifact_frame_ensure_future
    | apply artifact_frame_set_script; reflexivity
    | apply artifact_frame_set_service; reflexivity
    | apply artifact_frame_of_fs;
      first [ apply fs_frame_load | apply fs_frame_exists
            | apply fs_frame_ensure_log | apply fs_frame_write_to_log ]
    | apply artifact_frame_of_runner;
      first [ apply runner_frame_run | apply runner_frame_terminate
            | apply runner_frame_kill | apply runner_frame_wait
            | apply runner_frame_is_running | apply runner_frame_port ] ].

Lemma artifact_kept (k : Kind) (self runner : nat) (w w' : World) :
  artifact_frame k self runner w w' ->
  (exists a, artifact_of k w self = Some a /\ art_runner a = runner) ->
  exists a, artifact_of k w' self = Some a /\ art_runner a = runner.
Proof.
  intros F (a & Ha & Hr). destruct k; simpl in *.
  - destruct (scripts w !! self) as [s|] eqn:Hs; simplify_eq/=.
    destruct (af_script_runner _ _ _ _ _ F self s Hs) as (s' & -> & E).
    by exists (inl s').
  - destruct (services w !! self) as [s|] eqn:Hs; simplify_eq/=.
    destruct (af_service_runner _ _ _ _ _ F self s Hs) as (s' & -> & E).
    by exists (inr s').
Qed.

#[global] Instance artifact_frame_from_preorder (k : Kind) (self runner : nat) :
  PreOrder (artifact_frame_from k self runner).
Proof.
  split.
  - intros w _. reflexivity.
  - intros w1 w2 w3 F1 F2 H. specialize (F1 H).
    etrans; [exact F1|]. apply F2. by eapply artifact_kept.
Qed.

Lemma artifact_frame_from_of (k : Kind) (self runner : nat) {A} (m : M A) :
  steps (artifact_frame k self runner) m ->
  steps (artifact_frame_from k self runner) m.
Proof. intros H w _. apply H. Qed.

(** The rule for a method that starts by reading its object. *)
Lemma script_method {B} (self runner : nat) (f : script.Script -> M B) :
  (forall s, script._runner s = runner ->
             steps (artifact_frame_from ScriptKind self runner) (f s)) ->
  steps (artifact_frame_from ScriptKind self runner) (script_of self ≫= f).
Proof.
  intros H w Hc. destruct (Hc) as (a & Ha & Hr). simpl in Ha.
  destruct (scripts w !! self) as [s|] eqn:Hs; simplify_eq/=.
  unfold script_of. rewrite bind_unfold, (deref_Ok _ _ _ _ Hs).
  by apply (H s eq_refl w).
Qed.

Lemma service_method {B} (self runner : nat) (f : service.Service -> M B) :
  (forall s, service._runner s = runner ->
             steps (artifact_frame_from ServiceKind self runner) (f s)) ->
  steps (artifact_frame_from ServiceKind self runner) (service_of self ≫= f).
Proof.
  intros H w Hc. destruct (Hc) as (a & Ha & Hr). simpl in Ha.
  destruct (services w !! self) as [s|] eqn:Hs; simplify_eq/=.
  unfold service_of. rewrite bind_unfold, (deref_Ok _ _ _ _ Hs).
  by apply (H s eq_refl w).
Qed.

Ltac artifact_frame_from_step :=
  first
    [ apply artifact_frame_from_of; artifact_frame_leaf
    | apply script_method; intros ? <-
    | apply service_method; intros ? <-
    | steps_step ].

Ltac artifact_frame_from_auto :=
  repeat (artifact_frame_from_step
          || match goal with
             | |- steps _ (match ?x with _ => _ end) => destruct x
             | |- steps _ (if ?x then _ else _) => destruct x
             end).

Lemma artifact_frame_script_run (self runner : nat)
    (e : option string) (v : option (dict string string)) (c : option (list string)) :
  steps (artifact_frame_from ScriptKind self runner) (Script.run self e v c).
Proof.
  unfold Script.run, Release.loaded_on_disk, Script.set_state.
  artifact_frame_from_auto.
Qed.

Lemma artifact_frame_script_terminate (self runner : nat) (t : Z) :
  steps (artifact_frame_from ScriptKind self runner) (Script.terminate self t).
Proof. unfold Script.terminate. artifact_frame_from_auto. Qed.

Lemma artifact_frame_script_kill (self runner : nat) :
  steps (artifact_frame_from ScriptKind self runner) (Script.kill self).
Proof. unfold Script.kill. artifact_frame_from_auto. Qed.

Lemma artifact_frame_script_wait_task (self runner : nat) :
  steps (artifact_frame_from ScriptKind self runner) (Script._wait_task self).
Proof. unfold Script._wait_task, Script.set_state. artifact_frame_from_auto. Qed.

Lemma artifact_frame_startup_loop (n self : nat) (cfg : app_config.RuntimeConfig)
    (s : service.Service) (ready : bool) :
  steps (artifact_frame_from ServiceKind self (service._runner s))
    (Service.startup_loop n self (service._runner s) cfg ready).
Proof.
  revert ready. induction n as [|n IH]; intros ready; simpl.
  - artifact_frame_from_auto.
  - destruct ready; [artifact_frame_from_auto|].
    apply steps_bind; [apply _| |intros ready'].
    { artifact_frame_from_auto. }
    apply steps_bind; [apply _| |intros _; apply IH].
    artifact_frame_from_auto.
Qed.

Lemma artifact_frame_service_run (self runner : nat) :
  steps (artifact_frame_from ServiceKind self runner) (Service.run self).
Proof.
  unfold Service.run, Release.loaded_on_disk, Service.set_state.
  apply service_method; intros s <-.
  repeat first
    [ apply artifact_frame_startup_loop
    | artifact_frame_from_step
    | match goal with
      | |- steps _ (if ?x then _ else _) => destruct x
      end ].
Qed.

Lemma artifact_frame_service_terminate (self runner : nat) (t : Z) :
  steps (artifact_frame_from ServiceKind self runner) (Service.terminate self t).
Proof. unfold Service.terminate. artifact_frame_from_auto. Qed.

Lemma artifact_frame_service_kill (self runner : nat) :
  steps (artifact_frame_from ServiceKind self runner) (Service.kill self).
Proof. unfold Service.kill. artifact_frame_from_auto. Qed.

Lemma artifact_frame_service_wait_task (self runner : nat) :
  steps (artifact_frame_from ServiceKind self runner) (Service._wait_task self).
Proof.
  unfold Service._wait_task, Service.set_state.
  apply service_method; intros s <-.
  repeat first
    [ apply artifact_frame_service_run
    | apply artifact_frame_from_of; artifact_frame_leaf
    | apply service_method; intros ? _
    | steps_step
    | match goal with
      | |- steps _ (if ?x then _ else _) => destruct x
      end ].
Qed.

(** Every call on an artifact stays within the footprint. *)
Lemma artifact_frame_call (k : Kind) (self runner : nat) (c : Call) :
  steps (artifact_frame_from k self runner) (call k self c).
Proof.
  destruct k, c; simpl.
  - apply artifact_frame_script_run.
  - apply steps_bind; [apply _|apply artifact_frame_script_terminate|].
    intros _. apply steps_ret, _.
  - apply artifact_frame_script_kill.
  - apply artifact_frame_script_wait_task.
  - apply artifact_frame_service_run.
  - apply steps_bind; [apply _|apply artifact_frame_service_terminate|].
    intros _. apply steps_ret, _.
  - apply artifact_frame_service_kill.
  - apply artifact_frame_service_wait_task.
Qed.

Lemma artifact_frame_after_calls (k : Kind) (self runner : nat) (cs : list Call)
    (w : World) :
  artifact_frame_from k self runner w (after_calls k self cs w).
Proof.
  revert w. induction cs as [|c cs IH]; intros w; simpl.
  - reflexivity.
  - etrans; [apply (artifact_frame_call k self runner c w)|apply IH].
Qed.

(** ** Cloning an artifact for a shared owner *)

Lemma script_clone (self : nat) (s : script.Script) (owner : Z) (w w1 : World) (c : nat) :
  wf w -> scripts w !! self = Some s ->
  Script.clone_to_shared self owner w = Ok c w1 ->
  exists sc rc,
    scripts w1 !! c = Some sc
    /\ script.name sc = script.name s /\ script.version sc = script.version s
    /\ c <> self /\ script._runner sc <> script._runner s
    /\ runners w1 !! script._runner sc = Some rc /\ _proc rc = None
    /\ scripts w1 !! self = Some s
    /\ runners w1 !! script._runner s = runners w !! script._runner s.
Proof.
  intros (Wr & Ws & Wv) Hs H.
  unfold Script.clone_to_shared, Release.clone_to_shared, Release.new, Runner.clone,
    Runner.new, Script.new, Runner.set_working_dir, Runner.is_running in H.
  minv H.
  match goal with
  | Hl : Release.load ?rel w = Ok _ ?w0 |- _ =>
      pose proof (fs_frame_load rel w) as F; rewrite Hl in F; simpl in F
  end.
  destruct F as [Fr Fs _ Fn _ _ _ _ _ _ _ _].
  assert (Hself : (self < next_id w)%nat) by (by destruct (Ws self s Hs)).
  assert (Hrun : (script._runner s < next_id w)%nat).
  { eapply (Wr (script._runner s)). rewrite <- Fr. eassumption. }
  assert (Hver : script.version s = releases.tag_name (script._release s))
    by (by destruct (Ws self s Hs)).
  eexists _, _. simpl. rewrite Fn, Fs, Fr.
  rewrite lookup_insert_eq. split; [reflexivity|]. simpl.
  split; [done|]. split; [done|]. split; [lia|]. split; [lia|].
  rewrite !lookup_alter_eq, lookup_insert_eq. simpl.
  split; [reflexivity|]. split; [done|].
  rewrite lookup_insert_ne by lia. split; [done|].
  rewrite !lookup_alter_ne, lookup_insert_ne by lia. done.
Qed.

Lemma service_clone (self : nat) (s : service.Service) (owner : Z) (w w1 : World) (c : nat) :
  wf w -> services w !! self = Some s ->
  Service.clone_to_shared self owner w = Ok c w1 ->
  exists sc rc,
    services w1 !! c = Some sc
    /\ service.name sc = service.name s /\ service.version sc = service.version s
    /\ c <> self /\ service._runner sc <> service._runner s
    /\ runners w1 !! service._runner sc = Some rc /\ _proc rc = None
    /\ services w1 !! self = Some s
    /\ runners w1 !! service._runner s = runners w !! service._runner s.
Proof.
  intros (Wr & Ws & Wv) Hs H.
  assert (Hself : (self < next_id w)%nat) by (by destruct (Wv self s Hs)).
  assert (Hver : service.version s = releases.tag_name (service._release s))
    by (by destruct (Wv self s Hs)).
  clear Ws Wv.
  unfold Service.clone_to_shared, Release.clone_to_shared, Release.new, Runner.clone,
    Runner.new, Service.new, Runner.set_working_dir, Runner.is_running in H.
  minv H.
  all: match goal with
       | Hl : Release.load ?rel ?w = Ok _ ?w0 |- _ =>
           pose proof (fs_frame_load rel w) as F; rewrite Hl in F; simpl in F;
           destruct F as [Fr _ Fs Fn _ _ _ _ _ _ _ _]
       end.
  all: match goal with
       | Hx : runners _ !! service._runner _ = Some _ |- _ =>
           rewrite Fr in Hx; pose proof (Wr _ _ Hx) as Hrun; simpl in Hrun
       end.
  all: eexists _, _; simpl; rewrite Fn, Fs, Fr.
  all: rewrite lookup_insert_eq; (split; [reflexivity|]); simpl.
  all: split; [done|]; split; [done|]; split; [lia|]; split; [lia|].
  all: rewrite !lookup_alter_eq, lookup_insert_eq; simpl.
  all: split; [reflexivity|]; split; [done|].
  all: rewrite lookup_insert_ne by lia; split; [done|].
  all: rewrite !lookup_alter_ne, lookup_insert_ne by lia; done.
Qed.

Lemma artifact_frame_other (k : Kind) (self runner x : nat) (w w' : World) :
  artifact_frame k self runner w w' -> x <> self ->
  artifact_of k w' x = artifact_of k w x.
Proof.
  intros F Hx. destruct k; simpl.
  - by rewrite (af_scripts _ _ _ _ _ F).
  - by rewrite (af_services _ _ _ _ _ F).
Qed.

(** What [clone_to_shared] makes, and what it leaves. *)
Lemma clone_facts (k : Kind) (self : nat) (a : Artifact) (owner : Z)
    (w w1 : World) (c : nat) :
  wf w -> artifact_of k w self = Some a ->
  clone_to_shared k self owner w = Ok c w1 ->
  exists ac rc,
    artifact_of k w1 c = Some ac
    /\ art_name ac = art_name a /\ art_version ac = art_version a
    /\ c <> self /\ art_runner ac <> art_runner a
    /\ runners w1 !! art_runner ac = Some rc /\ _proc rc = None
    /\ artifact_of k w1 self = Some a
    /\ runners w1 !! art_runner a = runners w !! art_runner a.
Proof.
  intros Hwf Ha H. destruct k; simpl in *.
  - destruct (scripts w !! self) as [s|] eqn:Hs; simplify_eq/=.
    destruct (script_clone self s owner w w1 c Hwf Hs H)
      as (sc & rc & Hc & Hn & Hv & Hne & Hr & Hrc & Hp & Hself & Hrun).
    exists (inl sc), rc. rewrite Hc, Hself. done.
  - destruct (services w !! self) as [s|] eqn:Hs; simplify_eq/=.
    destruct (service_clone self s owner w w1 c Hwf Hs H)
      as (sc & rc & Hc & Hn & Hv & Hne & Hr & Hrc & Hp & Hself & Hrun).
    exists (inr sc), rc. rewrite Hc, Hself. done.
Qed.

(** C7. [clone_to_shared] of a script or a service, in a store that
    satisfies the invariant [wf].  The clone is a new artifact with the
    name and the version of the original and a runner of its own, which
    has no process; making it leaves the original and its runner as they
    were.  After any sequence of [run], [terminate], [kill] and exit
    watcher calls on the clone the original, with its state, port and
    exit code, and the runner of the original, with its process, are what
    they were before the clone was made; and after any such sequence on
    the original the clone and its runner are what they were when the
    clone was made. *)
Theorem clone_to_shared_independent (k : Kind) (self : nat) (a : Artifact)
    (owner : Z) (w w1 : World) (c : nat) :
  wf w -> artifact_of k w self = Some a ->
  clone_to_shared k self owner w = Ok c w1 ->
  exists ac rc,
    artifact_of k w1 c = Some ac
    /\ art_name ac = art_name a /\ art_version ac = art_version a
    /\ c <> self /\ art_runner ac <> art_runner a
    /\ runners w1 !! art_runner ac = Some rc /\ _proc rc = None
    /\ artifact_of k w1 self = Some a
    /\ runners w1 !! art_runner a = runners w !! art_runner a
    /\ (forall cs, let w2 := after_calls k c cs w1 in
          artifact_of k w2 self = Some a
          /\ runners w2 !! art_runner a = runners w !! art_runner a)
    /\ (forall cs, let w2 := after_calls k self cs w1 in
          artifact_of k w2 c = Some ac
          /\ runners w2 !! art_runner ac = Some rc).
Proof.
  intros Hwf Ha H.
  destruct (clone_facts k self a owner w w1 c Hwf Ha H)
    as (ac & rc & Hc & Hn & Hv & Hne & Hr & Hrc & Hp & Hself & Hrun).
  exists ac, rc. do 9 (split; [done|]). split.
  - intros cs w2. subst w2.
    pose proof (artifact_frame_after_calls k c (art_runner ac) cs w1) as F.
    specialize (F (ex_intro _ ac (conj Hc eq_refl))). split.
    + by rewrite (artifact_frame_other _ _ _ _ _ _ F).
    + rewrite (af_runners _ _ _ _ _ F); [done|congruence].
  - intros cs w2. subst w2.
    pose proof (artifact_frame_after_calls k self (art_runner a) cs w1) as F.
    specialize (F (ex_intro _ a (conj Hself eq_refl))). split.
    + by rewrite (artifact_frame_other _ _ _ _ _ _ F).
    + by rewrite (af_runners _ _ _ _ _ F).
Qed.

Lemma clone_to_shared_independent_witness :
  let w := running_script_world in
  match Script.clone_to_shared 1 8 w with
  | Ok c w1 =>
      forall cs,
        artifact_of ScriptKind (after_calls ScriptKind c cs w1) 1
        = artifact_of ScriptKind w 1
        /\ runners (after_calls ScriptKind c cs w1) !! 0%nat = runners w !! 0%nat
  | _ => False
  end.
Proof.
  intros w.
  destruct (Script.clone_to_shared 1 8 w) as [c w1| |] eqn:H;
    [|vm_compute in H; discriminate H..].
  destruct (artifact_of ScriptKind w 1) as [a|] eqn:Ha;
    [|vm_compute in Ha; discriminate Ha].
  assert (Hwf : wf w).
  { unfold wf. apply (bool_decide_unpack _). vm_compute. exact I. }
  destruct (clone_to_shared_independent ScriptKind 1 a 8 w w1 c Hwf Ha H)
    as (ac & rc & _ & _ & _ & _ & _ & _ & _ & _ & _ & Hcalls & _).
  intros cs. destruct (Hcalls cs) as [H1 H2]. split; [exact H1|].
  vm_compute in Ha. injection Ha as <-. exact H2.
Defined.

(** ** Reading the last lines of the log file *)

(** C8 fails on a log file whose last line has no newline after it.  The
    file [a\nb] has the two lines [a] and [b]; [get_logs(2)] returns the
    one line [ba], which is no line of the file: the generator yields [b]
    and then [a\n], [logs += line] glues them to [ba\n], and
    [splitlines] finds one line in that.  With the limit 1 the result is
    the last line, [b]. *)
Lemma get_logs_unterminated_last_line :
  let file := txt "a" ++ [LF] ++ txt "b" in
  ServiceLogs.splitlines false file = [txt "a"; txt "b"]
  /\ ServiceLogs.get_logs (Some file) 2 = Returns (txt "ba")
  /\ ServiceLogs.get_logs (Some file) 2
     <> Returns (ServiceLogs.join [LF] (ServiceLogs.last_n 2 [txt "a"; txt "b"]))
  /\ ServiceLogs.get_logs (Some file) 1 = Returns (txt "b").
Proof. vm_compute. repeat split; congruence. Qed.

(** *** Files of newline-terminated lines *)

Section newline_terminated.
Import ServiceLogs.

(** *** The rounds of the loop *)

(** One round of the loop. *)
Lemma read_loop_round (rounds : nat) (content : str) (buf_size file_size : Z)
    (segment : option str) (offset remaining_size : Z) :
  read_loop (Datatypes.S rounds) content buf_size file_size segment offset
    remaining_size
  = if 0 <? remaining_size then
      let offset := Z.min file_size (offset + buf_size) in
      let buffer :=
        read_at content (file_size - offset) (Z.min remaining_size buf_size) in
      let lines := splitlines true buffer in
      let continue (first : list str) (lines : list str) : gen str :=
        match lines with
        | [] => yield_all first (Throw out_of_range)
        | line0 :: _ =>
            yield_all (first ++ tail_backwards lines)
              (read_loop rounds content buf_size file_size (Some line0) offset
                 (remaining_size - buf_size))
        end in
      match segment with
      | Some seg =>
          match last_item buffer with
          | None => Throw out_of_range
          | Some c =>
              if Ascii.eqb c LF then continue [seg] lines
              else
                match lines with
                | [] => Throw out_of_range
                | _ => continue [] (extend_last lines seg)
                end
          end
      | None => continue [] lines
      end
    else
      match segment with
      | Some seg => Yield seg Stop
      | None => Stop
      end.
Proof. reflexivity. Qed.

(** Every round takes [buf_size] off [remaining_size]: once the rounds
    are as many as [remaining_size] the loop has ended, and more rounds
    change nothing. *)
Lemma read_loop_rounds (content : str) (buf_size file_size : Z) (rounds : nat)
    (segment : option str) (offset remaining_size : Z) :
  1 <= buf_size -> remaining_size <= Z.of_nat rounds ->
  read_loop (Datatypes.S rounds) content buf_size file_size segment offset
    remaining_size
  = read_loop rounds content buf_size file_size segment offset remaining_size.
Proof.
  intros HB. revert segment offset remaining_size.
  induction rounds as [|r IH]; intros segment offset rem Hrem.
  - rewrite read_loop_round. destruct (0 <? rem) eqn:E; [|done].
    apply Z.ltb_lt in E. lia.
  - rewrite (read_loop_round (Datatypes.S r)), (read_loop_round r).
    destruct (0 <? rem) eqn:E; [|done].
    assert (Hr : rem - buf_size <= Z.of_nat r) by lia.
    cbv zeta.
    repeat match goal with
           | |- context [match ?x with _ => _ end] =>
               lazymatch x with
               | context [read_loop] => fail
               | _ => destruct x
               end
           end;
      try reflexivity; rewrite (IH _ _ _ Hr); reflexivity.
Qed.

(** *** [splitlines] on newline-terminated lines *)







(** *** Cutting a prefix of the file *)












(** *** The generator *)





(** *** [get_logs] *)






End newline_terminated.

(** *** Any file *)

Section any_file.
Import ServiceLogs.

Lemma splitlines_cons (keepends : bool) (c : ascii) (s' : str) :
  splitlines keepends (c :: s')
  = if is_linebreak c then
      match s' with
      | d :: s'' =>
          if Ascii.eqb c CR && Ascii.eqb d LF
          then (if keepends then [c; d] else []) :: splitlines keepends s''
          else (if keepends then [c] else []) :: splitlines keepends s'
      | [] => [if keepends then [c] else []]
      end
    else
      match splitlines keepends s' with
      | [] => [[c]]
      | l :: ls => (c :: l) :: ls
      end.
Proof. by destruct s'. Qed.

Lemma splitlines_keepends_length (n : nat) (s : str) :
  (length s <= n)%nat ->
  concat (splitlines true s) = s
  /\ Forall (fun l => l <> []) (splitlines true s).
Proof.
  revert s. induction n as [|n IH]; intros s Hn.
  { destruct s; [done|cbn [length] in Hn; lia]. }
  destruct s as [|c s']; [done|]. rewrite splitlines_cons. cbn [length] in Hn.
  destruct (is_linebreak c).
  - destruct s' as [|d s'']; [by repeat constructor|]. cbn [length] in Hn.
    destruct (Ascii.eqb c CR && Ascii.eqb d LF).
    + assert (Hl : (length s'' <= n)%nat) by lia.
      destruct (IH s'' Hl) as [E F].
      simpl. rewrite E. split; [done|]. by constructor.
    + assert (Hl : (length (d :: s'') <= n)%nat) by (cbn [length]; lia).
      destruct (IH (d :: s'') Hl) as [E F].
      cbn [concat app]. rewrite E. split; [done|]. by constructor.
  - assert (Hl : (length s' <= n)%nat) by lia.
    destruct (IH s' Hl) as [E F].
    destruct (splitlines true s') as [|l ls].
    + simpl in E. subst s'. by repeat constructor.
    + simpl in *. rewrite E. split; [done|].
      inversion F; subst. by constructor.
Qed.


Lemma splitlines_pieces (s : str) : Forall (fun l => l <> []) (splitlines true s).
Proof. by apply (splitlines_keepends_length (length s)). Qed.














End any_file.

(** ** More on the port pool *)

Lemma add_smallest (p : Z) (s : list Z) :
  PortService.sorted (p :: s) -> PortService.add p s = p :: s.
Proof.
  intros H. inversion H as [|? ? _ Hp]; subst.
  destruct s as [|q s]; [done|]. simpl.
  inversion Hp; subst. by destruct (Z.ltb_spec p q); [|lia].
Qed.

Lemma add_member (p : Z) (s : list Z) :
  PortService.sorted s -> In p s -> PortService.add p s = s.
Proof.
  induction 1 as [|q s Hs IH Hq]; [done|]. intros [->|Hp]; simpl.
  - rewrite Z.ltb_irrefl, Z.eqb_refl. done.
  - rewrite List.Forall_forall in Hq. specialize (Hq p Hp).
    destruct (Z.ltb_spec p q); [lia|].
    destruct (Z.eqb_spec p q); [lia|]. by rewrite IH.
Qed.

Lemma SortedSet_In (ports : list Z) (x : Z) :
  In x (PortService.SortedSet ports) <-> In x ports.
Proof.
  unfold PortService.SortedSet.
  assert (H : forall s, In x (fold_left (fun s p => PortService.add p s) ports s)
                        <-> In x ports \/ In x s).
  { induction ports as [|p ports IH]; intros s; simpl; [tauto|].
    rewrite IH, add_In. intuition. }
  rewrite H. simpl. tauto.
Qed.

Lemma sorted_NoDup (s : list Z) : PortService.sorted s -> List.NoDup s.
Proof.
  induction 1 as [|q s Hs IH Hq]; constructor; [|done].
  intros Hin. rewrite List.Forall_forall in Hq. specialize (Hq q Hin). lia.
Qed.

(** [PortService(ports)] holds the given ports and no other, each once,
    in increasing order. *)
Theorem port_pool_init (ports : list Z) :
  let pool := PortService.init ports in
  (forall p, In p pool <-> In p ports)
  /\ List.NoDup pool
  /\ PortService.sorted pool.
Proof.
  intros pool. split; [intros p; apply SortedSet_In|].
  split; [apply sorted_NoDup|]; apply SortedSet_sorted.
Qed.

(** On a pool reached from any initial ports by any calls: a port that
    is acquired and then released leaves the pool as it was, and
    releasing a port that is available changes nothing. *)
Theorem release_port_restores (ports : list Z) (ops : list PortService.op) :
  let pool := PortService.after ports ops in
  (forall p pool', PortService.acquire_port pool = Returns (p, pool') ->
                   PortService.release_port p pool' = pool)
  /\ (forall p, In p pool -> PortService.release_port p pool = pool).
Proof.
  intros pool. pose proof (after_sorted ports ops) as Hs. fold pool in Hs.
  split.
  - intros p pool' H. destruct pool as [|q s]; simpl in H; [done|].
    injection H as <- <-. by apply add_smallest.
  - intros p Hp. by apply add_member.
Qed.

(** ** Python's dict *)

Lemma Dict_get_set {K V} `{EqDecision K} (d : dict K V) (k k' : K) (v : V) :
  Dict.get (Dict.set d k v) k' = if decide (k' = k) then Some v else Dict.get d k'.
Proof.
  induction d as [|[k0 v0] d IH]; simpl.
  - destruct (decide (k = k')) as [->|Hne]; [by rewrite decide_True|].
    by rewrite decide_False by congruence.
  - destruct (decide (k0 = k)) as [->|Hne]; simpl.
    + destruct (decide (k = k')) as [->|Hne']; [by rewrite decide_True|].
      by rewrite decide_False by congruence.
    + rewrite IH. destruct (decide (k0 = k')) as [->|Hne']; [|done].
      by rewrite decide_False.
Qed.

Lemma Dict_get_del_ne {K V} `{EqDecision K} (d : dict K V) (k k' : K) :
  k' <> k -> Dict.get (Dict.del d k) k' = Dict.get d k'.
Proof.
  intros Hne. induction d as [|[k0 v0] d IH]; simpl; [done|].
  destruct (decide (k0 = k)) as [->|Hne0]; simpl.
  - by rewrite decide_False by congruence.
  - by rewrite IH.
Qed.

(** ** The release set *)

(** [Releases.new_release]: the first release registered under a tag
    stays, and a later one with the same tag is dropped without a hook
    being called; a release with a new tag is found under its tag
    afterwards, the others are found as before, and the new-release hooks
    have run in the order of their registration. *)
Theorem new_release_registers (self : Releases) (rel : releases.Release)
    (w : World) :
  match Releases.get_release self (releases.tag_name rel) with
  | Some _ => Releases.new_release self rel w = Ok self w
  | None =>
      forall self' w',
        Releases.new_release self rel w = Ok self' w' ->
        Releases.get_release self' (releases.tag_name rel) = Some rel
        /\ (forall t, t <> releases.tag_name rel ->
                      Releases.get_release self' t = Releases.get_release self t)
        /\ for_each (_new_hooks self) (fun hook => hook (_repo self) rel) w
           = Ok tt w'
  end.
Proof.
  unfold Releases.get_release, Releases.new_release, Dict.contains.
  destruct (Dict.get (_releases self) (releases.tag_name rel)) eqn:E; [done|].
  intros self' w' H. simpl in H. rewrite bind_unfold in H.
  destruct (for_each _ _ w) as [[] w1|e w1|w1] eqn:Hh; [|done..].
  injection H as <- <-. simpl. split; [|split; [|done]].
  - rewrite Dict_get_set. by rewrite decide_True.
  - intros t Ht. rewrite Dict_get_set. by rewrite decide_False.
Qed.

Lemma rmtree_lookup (p q : path) (m : gmap path Node) :
  filter (fun kv : path * Node => ~ (p `prefix_of` kv.1)) m !! q
  = if bool_decide (p `prefix_of` q) then None else m !! q.
Proof.
  destruct (bool_decide (p `prefix_of` q)) eqn:E.
  - apply bool_decide_eq_true in E. apply map_lookup_filter_None. right.
    intros x _ Hn. by apply Hn.
  - apply bool_decide_eq_false in E. destruct (m !! q) as [x|] eqn:Hq.
    + by apply map_lookup_filter_Some.
    + apply map_lookup_filter_None. by left.
Qed.

(** [Releases.delete_release]: a release whose tag is not in the set is
    left alone.  For one that is, once every deleted-hook has returned:
    when the snapshot is on disk it is removed with everything below it
    and nothing else, and the release is out of the set, the others
    staying; when it is not on disk the call raises [FileNotFoundError],
    after the hooks have run. *)
Theorem delete_release_outcome (self : Releases) (rel : releases.Release)
    (w : World) :
  (Releases.get_release self (releases.tag_name rel) = None ->
   Releases.delete_release self rel w = Ok self w)
  /\ forall w1,
       Releases.get_release self (releases.tag_name rel) <> None ->
       for_each (_delete_hooks self) (fun hook => hook (_repo self) rel) w
       = Ok tt w1 ->
       if bool_decide (is_Some (fs w1 !! Release.root_path rel)) then
         exists w2,
           Releases.delete_release self rel w
           = Ok (Releases.removed self rel) w2
           /\ (forall q, fs w2 !! q
                         = if bool_decide (Release.root_path rel `prefix_of` q)
                           then None else fs w1 !! q)
           /\ Releases.get_release (Releases.removed self rel)
                (releases.tag_name rel) = None
           /\ (forall t, t <> releases.tag_name rel ->
                 Releases.get_release (Releases.removed self rel) t
                 = Releases.get_release self t)
       else Releases.delete_release self rel w = Err FileNotFoundError w1.
Proof.
  unfold Releases.get_release. split.
  - intros E. unfold Releases.delete_release, Dict.contains. by rewrite E.
  - intros w1 Hin Hhooks.
    assert (Hc : Dict.contains (_releases self) (releases.tag_name rel) = true).
    { unfold Dict.contains. by destruct (Dict.get _ _). }
    rewrite (delete_release_evicts_after_hooks self rel w w1 Hc Hhooks).
    unfold Release.unload, rmtree. rewrite !bind_unfold, exists_unfold.
    destruct (bool_decide (is_Some (fs w1 !! Release.root_path rel))); [|done].
    eexists. split; [reflexivity|]. simpl. split; [intros q; apply rmtree_lookup|].
    split; [apply Dict_get_del|]. intros t Ht. by apply Dict_get_del_ne.
Qed.

Lemma delete_release_outcome_witness :
  let rel := sample_release [] in
  let set := {| _releases := [("v1"%string, rel)]; _repo := sample_repo;
                _new_hooks := []; _delete_hooks := [] |} in
  let w := world_of (Release.load rel empty_world) in
  exists w2,
    Releases.delete_release set rel w = Ok (Releases.removed set rel) w2
    /\ fs w2 !! (Release.root_path rel ++ ["main.py"%string]) = None.
Proof.
  intros rel set w.
  pose proof (proj2 (delete_release_outcome set rel w) w) as H.
  change (bool_decide (is_Some (fs w !! Release.root_path rel))) with true in H.
  destruct H as (w2 & H1 & H2 & _); [done|reflexivity|].
  exists w2. split; [exact H1|]. rewrite H2. reflexivity.
Defined.

Lemma new_release_registers_witness :
  let rel := sample_release [] in
  let set := {| _releases := []; _repo := sample_repo;
                _new_hooks := []; _delete_hooks := [] |} in
  exists self' w',
    Releases.new_release set rel empty_world = Ok self' w'
    /\ Releases.get_release self' "v1" = Some rel.
Proof.
  intros rel set. eexists _, _. split; [reflexivity|].
  exact (proj1 (new_release_registers set rel empty_world _ _ eq_refl)).
Defined.

(** ** The indices of the artifacts *)

Lemma by_name_new_object (c : ByNameCollection.t) (o : ReleaseObject) (obj : nat)
    (n v : string) :
  ByNameCollection.get_object (ByNameCollection.new_object c o obj) n v
  = if decide (n = ro_name o /\ v = ro_version o) then Some obj
    else ByNameCollection.get_object c n v.
Proof.
  unfold ByNameCollection.get_object, ByNameCollection.get_by_name,
    ByNameCollection.new_object.
  destruct (Dict.get c (ro_name o)) as [by_version|] eqn:E;
    rewrite Dict_get_set;
    (destruct (decide (n = ro_name o)) as [->|Hn]; simpl;
     [|by rewrite decide_False by tauto]).
  - rewrite Dict_get_set, E. simpl.
    destruct (decide (v = ro_version o)) as [->|Hv];
      [by rewrite decide_True|by rewrite decide_False by tauto].
  - rewrite E. simpl.
    destruct (decide (ro_version o = v)) as [<-|Hv];
      [by rewrite decide_True|].
    by rewrite decide_False by (intros [_ ->]; done).
Qed.

Lemma by_name_delete_object (c : ByNameCollection.t) (o : ReleaseObject)
    (n v : string) :
  ByNameCollection.get_object (ByNameCollection.delete_object c o) n v
  = if decide (n = ro_name o /\ v = ro_version o) then None
    else ByNameCollection.get_object c n v.
Proof.
  unfold ByNameCollection.get_object, ByNameCollection.get_by_name,
    ByNameCollection.delete_object, Dict.contains.
  destruct (Dict.get c (ro_name o)) as [by_version|] eqn:E.
  2: { destruct (decide _) as [[-> ->]|]; [by rewrite E|done]. }
  destruct (Dict.get by_version (ro_version o)) as [x|] eqn:Ev; simpl.
  2: { destruct (decide _) as [[-> ->]|]; [by rewrite E|done]. }
  destruct (Dict.del by_version (ro_version o)) as [|kv rest] eqn:Ed.
  - destruct (decide (n = ro_name o)) as [->|Hn].
    + rewrite Dict_get_del. simpl.
      destruct (decide _) as [|Hne]; [done|]. rewrite E. simpl.
      assert (Hv : v <> ro_version o) by tauto.
      rewrite <- (Dict_get_del_ne by_version (ro_version o) v Hv), Ed. done.
    + rewrite Dict_get_del_ne by done. by rewrite decide_False by tauto.
  - rewrite <- Ed. rewrite Dict_get_set.
    destruct (decide (n = ro_name o)) as [->|Hn]; cbn [default];
      [|by rewrite decide_False by tauto].
    destruct (decide (v = ro_version o)) as [->|Hv].
    + rewrite decide_True by done. apply Dict_get_del.
    + rewrite decide_False by tauto. rewrite E. cbn [default].
      by apply Dict_get_del_ne.
Qed.

Lemma get_object_new_object (c : collections.ObjCollection) (o : ReleaseObject)
    (obj : nat) (user : Z) (name version : string) :
  ObjCollection.get_object_for_user (ObjCollection.new_object c o obj)
    user name version
  = if decide (user = ObjCollection.with_user_id o
               /\ name = ro_name o /\ version = ro_version o)
    then Some obj
    else ObjCollection.get_object_for_user c user name version.
Proof.
  unfold ObjCollection.get_object_for_user, ObjCollection.new_object. simpl.
  destruct (Dict.get (collections._by_owner_id c) (ObjCollection.with_user_id o))
    as [bn|] eqn:E; rewrite Dict_get_set;
    (destruct (decide (user = ObjCollection.with_user_id o)) as [->|Hu];
     [|by rewrite decide_False by tauto]);
    rewrite by_name_new_object, ?E;
    destruct (decide (name = ro_name o /\ version = ro_version o));
    first [by rewrite decide_True by tauto | by rewrite decide_False by tauto].
Qed.

(** [ObjCollection.new_object], then [get_object_for_user]: the
    artifact is found under the user it is indexed for (the one it is
    shared to, else its owner), its name and its version, where it
    replaces what was there; every other lookup gives what it gave. *)
Theorem new_object_lookup (c : collections.ObjCollection) (o : ReleaseObject)
    (obj : nat) (user : Z) (name version : string) :
  ObjCollection.get_object_for_user (ObjCollection.new_object c o obj)
    user name version
  = if decide (user = ObjCollection.with_user_id o
               /\ name = ro_name o /\ version = ro_version o)
    then Some obj
    else ObjCollection.get_object_for_user c user name version.
Proof. apply get_object_new_object. Qed.

(** [ObjCollection.delete_object]: when the user that the artifact is
    indexed for has no entry the call raises [KeyError]; otherwise the
    artifact is no longer found under that user, its name and its
    version, and every other lookup gives what it gave. *)
Theorem delete_object_lookup (c : collections.ObjCollection) (o : ReleaseObject) :
  match Dict.get (collections._by_owner_id c) (ObjCollection.with_user_id o) with
  | None =>
      ObjCollection.delete_object c o
      = Raises (KeyError (string_of_Z (ObjCollection.with_user_id o)))
  | Some _ =>
      exists c',
        ObjCollection.delete_object c o = Returns c'
        /\ forall user name version,
             ObjCollection.get_object_for_user c' user name version
             = if decide (user = ObjCollection.with_user_id o
                          /\ name = ro_name o /\ version = ro_version o)
               then None
               else ObjCollection.get_object_for_user c user name version
  end.
Proof.
  unfold ObjCollection.delete_object.
  destruct (Dict.get (collections._by_owner_id c) (ObjCollection.with_user_id o))
    as [bn|] eqn:E; [|done].
  eexists. split; [reflexivity|]. intros user name version.
  unfold ObjCollection.get_object_for_user. simpl. rewrite Dict_get_set.
  destruct (decide (user = ObjCollection.with_user_id o)) as [->|Hu];
    [|by rewrite decide_False by tauto].
  rewrite by_name_delete_object, E.
  destruct (decide (name = ro_name o /\ version = ro_version o));
    first [by rewrite decide_True by tauto | by rewrite decide_False by tauto].
Qed.
(** ** Starting a process on a runner that has none running *)

Lemma spawned_of_app (evs1 evs2 : list Event) :
  spawned_of (evs1 ++ evs2) = spawned_of evs1 ++ spawned_of evs2.
Proof. apply omap_app. Qed.

Lemma run_impl_launch (self : nat) (r : Runner) (e : string)
    (v : list (string * string)) (c : list string) (w w' : World) (ready : bool) :
  runners w !! self = Some r ->
  Runner._run_impl self e v c w = Ok ready w' ->
  exists r' p,
    runners w' !! self = Some r' /\ _proc r' = Some p
    /\ pid p = next_id w
    /\ ready = bool_decide (returncode p = None)
    /\ launched_with r e v c (head (ports w)) (launch p)
    /\ _port r'
       = match runner_class r with StreamlitVenvRunner => head (ports w) | _ => _port r end
    /\ ports w'
       = match runner_class r with StreamlitVenvRunner => tail (ports w) | _ => ports w end
    /\ (runner_class r = StreamlitVenvRunner -> ports w <> [])
    /\ runner_class r' = runner_class r
    /\ _stream_strategy r' = _stream_strategy r
    /\ _run_start_event r' = _run_start_event r
    /\ _streams r' = _streams r
    /\ _venv_activator r' = _venv_activator r
    /\ _work_dir r' = _work_dir r
    /\ (forall d code, alone (hd Runner.default_behaviour (oracle w)) = ExitsAfter d code ->
        leaving p code).
Proof.
  intros Hr H.
  unfold Runner._run_impl, Runner.create_subprocess, Runner.sleep in H.
  minv H; tidy.
  all: eexists _, _; (split; [reflexivity|]); simpl; rewrite ?Heqr0; simpl.
  all: try match goal with
           | H : PortService.acquire_port (ports ?w) = _ |- _ =>
               destruct (ports w); [discriminate H|]; simpl in H;
               injection H as <- <-
           end.
  all: unfold launched_with, leaving; simpl; rewrite ?Heqr0; simpl.
  all: repeat split; try reflexivity; try done.
  all: intros d' code' E; try (rewrite E in *; simplify_eq); eauto.
Qed.

(** A launch raises only when the pool has no port for a streamlit
    runner; nothing has changed then. *)
Lemma run_impl_no_port (self : nat) (r : Runner) (e : string)
    (v : list (string * string)) (c : list string) (w w' : World) (x : exn) :
  runners w !! self = Some r ->
  Runner._run_impl self e v c w = Err x w' ->
  x = IndexError "pop index out of range" /\ w' = w
  /\ runner_class r = StreamlitVenvRunner /\ ports w = [].
Proof.
  intros Hr H. unfold Runner._run_impl, runner_of in H.
  rewrite bind_unfold, (deref_Ok _ _ _ _ Hr) in H.
  destruct (runner_class r).
  - rewrite bind_unfold in H.
    match type of H with
    | context [Runner.create_subprocess self ?l w] =>
        destruct (create_subprocess_returns self l r w Hr) as (? & ? & ? & Hc & _)
    end.
    rewrite Hc in H. discriminate H.
  - rewrite bind_unfold in H.
    match type of H with
    | context [Runner.create_subprocess self ?l w] =>
        destruct (create_subprocess_returns self l r w Hr) as (? & ? & ? & Hc & _)
    end.
    rewrite Hc in H. discriminate H.
  - rewrite bind_unfold in H. unfold get at 1 in H. cbv iota in H.
    rewrite bind_unfold in H.
    destruct (ports w) as [|p rest]; [by injection H as <- <-|].
    simpl lift in H. unfold mret, M_ret in H. cbv iota beta in H.
    rewrite bind_unfold in H. unfold modify at 1 in H. cbv iota beta in H.
    rewrite bind_unfold in H. unfold set_runner at 1, modify at 1 in H.
    cbv iota beta in H.
    match type of H with
    | (Runner.create_subprocess _ ?l ≫= _) ?w1 = _ =>
        destruct (create_subprocess_returns self l (with_port (Some p) r) w1)
          as (w2 & r2 & p2 & Hc & Hr2 & Hp2);
        [simpl; by rewrite lookup_alter_eq, Hr|]
    end.
    rewrite bind_unfold, Hc in H.
    destruct (sleep_returns self 3 r2 p2 w2 Hr2 Hp2) as (w3 & r3 & p3 & Hs & Hr3 & Hp3).
    rewrite bind_unfold, Hs in H.
    by rewrite bind_unfold, (the_proc_eq _ _ _ _ _ Hr3 Hp3) in H.
Qed.

Lemma run_idle_unfold (self : nat) (r : Runner) (e : string)
    (v : list (string * string)) (c : list string) (w : World) :
  runners w !! self = Some r -> Runner.alive r = false ->
  exists w1,
    runners w1 !! self = Some (with_pty r)
    /\ ports w1 = ports w /\ history w1 = history w /\ next_id w1 = next_id w
    /\ oracle w1 = oracle w
    /\ Runner.run self e v c w
       = (Runner._run_impl self e v c ≫= fun ok : bool =>
            if ok then
              r ← runner_of self;
              set_runner self (with_streams
                match _stream_strategy r, _proc r with
                | PSEUDO_TERMINAL, Some p => Some (FileDescriptorStream (pid p))
                | SUBPROCESS_PIPE, Some p => Some (SubProcessStream (pid p))
                | _, _ => None
                end);;
              set_runner self (with_run_start_event true);;
              mret true
            else mret false) w1.
Proof.
  intros Hr Ha. unfold Runner.run.
  rewrite bind_unfold, (is_running_eq _ _ _ Hr), Ha. simpl when.
  rewrite bind_unfold. change (@mret M _ unit tt w) with (@Ok unit tt w).
  cbv iota beta. unfold runner_of at 2.
  rewrite bind_unfold, (deref_Ok _ _ _ _ Hr).
  rewrite bind_unfold. unfold with_pty.
  destruct (_stream_strategy r) eqn:Es.
  - eexists. split; [|split; [|split; [|split; [|split; [|reflexivity]]]]]; simpl;
      rewrite ?lookup_alter_eq, ?Hr; reflexivity.
  - exists w. by rewrite Hr.
  - exists w. by rewrite Hr.
Qed.

Lemma run_idle_inv (self : nat) (r : Runner) (e : string)
    (v : list (string * string)) (c : list string) (w w' : World) (ready : bool) :
  runners w !! self = Some r -> Runner.alive r = false ->
  Runner.run self e v c w = Ok ready w' ->
  exists r' p,
    runners w' !! self = Some r' /\ _proc r' = Some p
    /\ pid p = next_id w
    /\ ready = Runner.alive r'
    /\ launched_with r e v c (head (ports w)) (launch p)
    /\ _port r'
       = match runner_class r with StreamlitVenvRunner => head (ports w) | _ => _port r end
    /\ ports w'
       = match runner_class r with StreamlitVenvRunner => tail (ports w) | _ => ports w end
    /\ (runner_class r = StreamlitVenvRunner -> ports w <> [])
    /\ spawned_of (history w') = spawned_of (history w) ++ [next_id w]
    /\ (ready = true ->
        _run_start_event r' = true
        /\ _streams r' = streams_for (_stream_strategy r) (next_id w))
    /\ (forall d code, alone (hd Runner.default_behaviour (oracle w)) = ExitsAfter d code ->
        leaving p code)
    /\ runner_class r' = runner_class r.
Proof.
  intros Hr Ha H.
  destruct (run_idle_unfold self r e v c w Hr Ha)
    as (w1 & Hr1 & Hp1 & Hh1 & Hn1 & Ho1 & E).
  rewrite E in H. clear E.
  apply bind_inv in H as [(ok & w2 & Hi & H)|[(? & ? & _ & ?)|(? & _ & ?)]];
    [|done..].
  pose proof (run_impl_spawns _ _ _ _ _ _ _ Hi)
    as (evs & _ & _ & Hh2 & Hs2 & _).
  apply (run_impl_launch _ _ _ _ _ _ _ _ Hr1) in Hi
    as (r2 & p & Hr2 & Hp2 & Hpid & Hok & Hl & Hport & Hports & Hne
        & Hc2 & Hs & He & Hst & _ & _ & Hf).
  rewrite Ho1 in Hf.
  assert (Hsp : spawned_of (history w2) = spawned_of (history w) ++ [next_id w]).
  { rewrite Hh2, Hh1, Hn1, spawned_of_app. simpl. by rewrite Hs2. }
  assert (Hl' : launched_with r e v c (head (ports w)) (launch p)).
  { rewrite Hp1 in Hl. unfold launched_with, with_pty in *.
    by destruct (_stream_strategy r). }
  assert (Hcls : runner_class (with_pty r) = runner_class r).
  { unfold with_pty. by destruct (_stream_strategy r). }
  assert (Hpo : _port (with_pty r) = _port r).
  { unfold with_pty. by destruct (_stream_strategy r). }
  assert (Hss : _stream_strategy (with_pty r) = _stream_strategy r).
  { unfold with_pty. by destruct (_stream_strategy r) eqn:Es. }
  rewrite Hcls, Hp1, ?Hpo in *. rewrite Hn1 in Hpid.
  destruct ok.
  - unfold runner_of in H. rewrite bind_unfold, (deref_Ok _ _ _ _ Hr2) in H.
    cbv [set_runner modify mbind M_bind mret M_ret] in H.
    injection H as <- <-.
    eexists _, p. simpl. rewrite !lookup_alter_eq, Hr2. simpl.
    split; [reflexivity|]. simpl.
    split; [done|]. split; [done|].
    split; [unfold Runner.alive; simpl; by rewrite Hp2|].
    split; [done|]. split; [done|]. split; [done|]. split; [done|].
    split; [done|]. split; [|done]. intros _. split; [done|].
    rewrite Hp2, Hs, Hss, Hpid. by destruct (_stream_strategy r) eqn:Es.
  - cbv [mret M_ret] in H. injection H as <- <-.
    exists r2, p. split; [done|]. split; [done|]. split; [done|].
    split; [unfold Runner.alive; by rewrite Hp2|].
    split; [done|]. split; [done|]. split; [done|]. split; [done|].
    split; [done|]. split; [done|]. done.
Qed.

Lemma run_idle_raises_inv (self : nat) (r : Runner) (e : string)
    (v : list (string * string)) (c : list string) (w w' : World) (x : exn) :
  runners w !! self = Some r -> Runner.alive r = false ->
  Runner.run self e v c w = Err x w' ->
  x = IndexError "pop index out of range"
  /\ runner_class r = StreamlitVenvRunner /\ ports w = []
  /\ runners w' !! self = Some (with_pty r)
  /\ ports w' = ports w /\ history w' = history w /\ next_id w' = next_id w.
Proof.
  intros Hr Ha H.
  destruct (run_idle_unfold self r e v c w Hr Ha)
    as (w1 & Hr1 & Hp1 & Hh1 & Hn1 & Ho1 & E).
  rewrite E in H. clear E.
  apply bind_inv in H as [(ok & w2 & Hi & H)|[(? & ? & Hi & H)|(? & _ & ?)]];
    [| |done].
  - apply (run_impl_launch _ _ _ _ _ _ _ _ Hr1) in Hi
      as (r2 & p & Hr2 & _).
    destruct ok; [|discriminate H].
    unfold runner_of in H. rewrite bind_unfold, (deref_Ok _ _ _ _ Hr2) in H.
    discriminate H.
  - injection H as <- <-.
    apply (run_impl_no_port _ _ _ _ _ _ _ _ Hr1) in Hi as (-> & -> & Hc & Hp).
    split; [done|].
    split; [unfold with_pty in Hc; by destruct (_stream_strategy r)|].
    split; [congruence|]. done.
Qed.

Lemma run_idle_returns (self : nat) (r : Runner) (e : string)
    (v : list (string * string)) (c : list string) (w : World) :
  runners w !! self = Some r -> Runner.alive r = false ->
  (runner_class r = StreamlitVenvRunner -> ports w <> []) ->
  exists ready w', Runner.run self e v c w = Ok ready w'.
Proof.
  intros Hr Ha Hp.
  destruct (Runner.run self e v c w) as [ready w'|x w'|w'] eqn:H.
  - eauto.
  - apply (run_idle_raises_inv _ _ _ _ _ _ _ _ Hr Ha) in H as (_ & Hc & Hn & _).
    by destruct (Hp Hc).
  - exfalso. eapply run_idle_no_hang; [|exact H].
    by rewrite (is_running_eq _ _ _ Hr), Ha.
Qed.

(** [run] on a runner whose process is not running, with a port in the
    pool when the runner is a streamlit runner, returns; it has started
    one process, with the activator and the working directory of the
    runner and, but for the shell runner, the entry file, the environment
    and the arguments of the call.  What it returns is whether that
    process is running; when it is, the start event is set and the
    streams are those of the runner's strategy. *)
Theorem run_starts_process (self : nat) (r : Runner) (e : string)
    (v : list (string * string)) (c : list string) (w : World) :
  runners w !! self = Some r -> Runner.alive r = false ->
  (runner_class r = StreamlitVenvRunner -> ports w <> []) ->
  exists ready w' r' p,
    Runner.run self e v c w = Ok ready w'
    /\ runners w' !! self = Some r' /\ _proc r' = Some p
    /\ pid p = next_id w
    /\ spawned_of (history w') = spawned_of (history w) ++ [pid p]
    /\ launched_with r e v c (head (ports w)) (launch p)
    /\ ready = Runner.alive r'
    /\ (ready = true ->
        _run_start_event r' = true
        /\ _streams r' = streams_for (_stream_strategy r) (pid p)).
Proof.
  intros Hr Ha Hp.
  destruct (Runner.run self e v c w) as [ready w'|x w'|w'] eqn:H.
  - destruct (run_idle_inv _ _ _ _ _ _ _ _ Hr Ha H)
      as (r' & p & Hr' & Hp' & Hpid & Hal & Hl & _ & _ & _ & Hs & He & _).
    exists ready, w', r', p. rewrite Hpid. done.
  - apply (run_idle_raises_inv _ _ _ _ _ _ _ _ Hr Ha) in H as (_ & Hc & Hn & _).
    by destruct (Hp Hc).
  - exfalso. eapply run_idle_no_hang; [|exact H].
    by rewrite (is_running_eq _ _ _ Hr), Ha.
Qed.

Lemma run_starts_process_witness :
  exists ready w' r' p,
    Runner.run 0 "main.py" [] [] service_world = Ok ready w'
    /\ runners w' !! 0%nat = Some r' /\ _proc r' = Some p
    /\ ready = Runner.alive r'.
Proof.
  destruct (runners service_world !! 0%nat) as [r|] eqn:Hr;
    [|vm_compute in Hr; discriminate Hr].
  destruct (run_starts_process 0 r "main.py" [] [] service_world Hr)
    as (ready & w' & r' & p & H & Hr' & Hp & _ & _ & _ & Ha & _).
  - vm_compute in Hr. injection Hr as <-. vm_compute. reflexivity.
  - vm_compute in Hr. injection Hr as <-. vm_compute. discriminate.
  - exists ready, w', r', p. done.
Defined.

(** [run] on a streamlit runner when the pool is empty raises the
    [IndexError] of the pool.  No process has been started, the runner
    keeps the process and the port it had, and the pseudo terminal that
    was opened for the start stays open. *)
Theorem run_without_port (self : nat) (r : Runner) (e : string)
    (v : list (string * string)) (c : list string) (w : World) :
  runners w !! self = Some r -> Runner.alive r = false ->
  runner_class r = StreamlitVenvRunner -> ports w = [] ->
  exists w' r',
    Runner.run self e v c w = Err (IndexError "pop index out of range") w'
    /\ history w' = history w /\ ports w' = []
    /\ runners w' !! self = Some r'
    /\ _proc r' = _proc r /\ _port r' = _port r
    /\ (_stream_strategy r = PSEUDO_TERMINAL ->
        _master_fd r' = true /\ _slave_fd r' = true).
Proof.
  intros Hr Ha Hc Hp.
  destruct (Runner.run self e v c w) as [ready w'|x w'|w'] eqn:H.
  - destruct (run_idle_inv _ _ _ _ _ _ _ _ Hr Ha H)
      as (_ & _ & _ & _ & _ & _ & _ & _ & _ & Hne & _).
    by destruct (Hne Hc).
  - apply (run_idle_raises_inv _ _ _ _ _ _ _ _ Hr Ha) in H
      as (-> & _ & _ & Hr' & Hp' & Hh & _).
    exists w', (with_pty r). split; [done|]. split; [done|].
    split; [congruence|]. split; [done|]. unfold with_pty.
    destruct (_stream_strategy r); by repeat split.
  - exfalso. eapply run_idle_no_hang; [|exact H].
    by rewrite (is_running_eq _ _ _ Hr), Ha.
Qed.

Lemma run_without_port_witness :
  exists w', Runner.run 0 "main.py" [] [] (streamlit_world [])
             = Err (IndexError "pop index out of range") w'
             /\ history w' = history (streamlit_world []).
Proof.
  destruct (runners (streamlit_world []) !! 0%nat) as [r|] eqn:Hr;
    [|vm_compute in Hr; discriminate Hr].
  destruct (run_without_port 0 r "main.py" [] [] (streamlit_world []) Hr)
    as (w' & r' & H & Hh & _).
  - vm_compute in Hr. injection Hr as <-. vm_compute. reflexivity.
  - vm_compute in Hr. injection Hr as <-. vm_compute. reflexivity.
  - vm_compute. reflexivity.
  - exists w'. done.
Defined.

Lemma wait_ports (self : nat) (r : Runner) (p : Process) (code : Z) (w : World) :
  runners w !! self = Some r -> _proc r = Some p -> leaving p code ->
  exists w' r',
    Runner.wait self w = Ok code w' /\ exited self code w'
    /\ runners w' !! self = Some r'
    /\ _port r' = port_after_wait r
    /\ ports w' = pool_after_wait r (ports w)
    /\ runner_class r' = runner_class r
    /\ _master_fd r' = false /\ _slave_fd r' = false
    /\ _run_start_event r' = false.
Proof.
  intros Hr Hp Hl.
  destruct (wait_leaving self r p code w Hr Hp Hl) as (w' & H & Hex & _).
  exists w'. pose proof H as H0.
  unfold Runner.wait, Runner.SubProcessRunner_wait, Runner.proc_wait,
    Runner._release_port in H.
  unfold port_after_wait, pool_after_wait.
  minv H; (destruct Hl as [Hl|[Hl [d Hf]]]); tidy.
  all: eexists; (split; [exact H0|]); (split; [exact Hex|]).
  all: (split; [reflexivity|]); simpl; rewrite ?Heqr0; simpl.
  all: repeat match goal with H : _ = _ |- _ => rewrite H end; simpl.
  all: by repeat split.
Qed.

(** A streamlit runner takes the smallest port of the pool for the
    process it starts, and the [wait] for the exit of that process gives
    it back: the pool is then as it was before the start.  The port 0 is
    the exception: [wait] keeps it, and the pool stays without it. *)
Theorem streamlit_port_round_trip (self : nat) (r : Runner) (e : string)
    (v : list (string * string)) (c : list string) (w : World)
    (q : Z) (rest : list Z) (d code : Z) :
  runners w !! self = Some r -> Runner.alive r = false ->
  runner_class r = StreamlitVenvRunner ->
  PortService.sorted (ports w) -> ports w = q :: rest ->
  alone (hd Runner.default_behaviour (oracle w)) = ExitsAfter d code ->
  exists ready w1 w2,
    Runner.run self e v c w = Ok ready w1
    /\ Runner.port self w1 = Ok (Some q) w1 /\ ports w1 = rest
    /\ Runner.wait self w1 = Ok code w2
    /\ Runner.port self w2 = Ok (if q =? 0 then Some q else None) w2
    /\ ports w2 = if q =? 0 then rest else ports w.
Proof.
  intros Hr Ha Hc Hs Hp Hf.
  destruct (run_idle_returns self r e v c w Hr Ha) as (ready & w1 & H);
    [by rewrite Hp|].
  destruct (run_idle_inv _ _ _ _ _ _ _ _ Hr Ha H)
    as (r1 & p & Hr1 & Hp1 & _ & _ & _ & Hport & Hports & _ & _ & _ & Hl & Hc1).
  rewrite Hc, Hp in Hport, Hports. simpl in Hport, Hports.
  destruct (wait_ports self r1 p code w1 Hr1 Hp1 (Hl _ _ Hf))
    as (w2 & r2 & Hw & _ & Hr2 & Hport2 & Hports2 & Hc2 & _).
  unfold port_after_wait in Hport2. unfold pool_after_wait in Hports2.
  rewrite Hc1, Hc, Hport in Hport2, Hports2. rewrite Hc1, Hc in Hc2.
  exists ready, w1, w2. split; [done|].
  split; [unfold Runner.port, runner_of;
          by rewrite bind_unfold, (deref_Ok _ _ _ _ Hr1), Hc1, Hc, Hport|].
  split; [done|]. split; [done|].
  split; [unfold Runner.port, runner_of;
          by rewrite bind_unfold, (deref_Ok _ _ _ _ Hr2), Hc2, Hport2|].
  rewrite Hports2, Hports. destruct (q =? 0); [done|].
  rewrite Hp. apply add_smallest. by rewrite <- Hp.
Qed.

Lemma streamlit_port_round_trip_witness :
  exists ready w1 w2,
    Runner.run 0 "main.py" [] [] (streamlit_world [8502; 8501]) = Ok ready w1
    /\ ports w1 = [8502]
    /\ Runner.wait 0 w1 = Ok 1 w2
    /\ ports w2 = [8501; 8502].
Proof.
  destruct (runners (streamlit_world [8502; 8501]) !! 0%nat) as [r|] eqn:Hr;
    [|vm_compute in Hr; discriminate Hr].
  destruct (streamlit_port_round_trip 0 r "main.py" [] []
              (streamlit_world [8502; 8501]) 8501 [8502] 5 1 Hr)
    as (ready & w1 & w2 & H1 & _ & Hp1 & H2 & _ & Hp2).
  - vm_compute in Hr. injection Hr as <-. vm_compute. reflexivity.
  - vm_compute in Hr. injection Hr as <-. vm_compute. reflexivity.
  - unfold PortService.sorted. vm_compute ports.
    repeat constructor.
  - vm_compute. reflexivity.
  - vm_compute. reflexivity.
  - exists ready, w1, w2. done.
Defined.

(** ** Stopping a process *)

Lemma stop_unfold (sig : Signal) (self : nat) (t : Z) (r : Runner) (p : Process)
    (w : World) :
  runners w !! self = Some r -> _proc r = Some p -> returncode p = None ->
  t <> 0 ->
  exists w1,
    stop sig self (Some t) w = Runner.wait_for self t w1
    /\ runners w1 !! self
       = Some (with_proc (Some (with_fate (reaction sig (behaviour p)) p)) r)
    /\ history w1 = history w ++ [Signalled self (pid p) sig]
    /\ next_id w1 = next_id w /\ ports w1 = ports w.
Proof.
  intros Hr Hp Hc Ht.
  destruct sig; (eexists; split;
    [unfold stop, Runner.terminate, Runner.kill, Runner._terminate_impl,
       Runner._kill_impl, Runner.truthy;
     (destruct (Z.eqb_spec t 0) as [|_]; [done|]);
     rewrite bind_unfold, (send_signal_alive _ _ _ _ _ _ Hr Hp Hc); reflexivity|]);
    simpl; rewrite lookup_alter_eq, Hr; simpl; by rewrite Hp.
Qed.

(** [terminate] and [kill] with a timeout that is not zero, on a runner
    whose process is running: the signal is sent; when the process exits
    before the timeout the call returns its exit code, otherwise it
    raises [TimeoutError] and the process is still running. *)
Theorem stop_with_timeout (sig : Signal) (self : nat) (t : Z) (r : Runner)
    (p : Process) (w : World) :
  runners w !! self = Some r -> _proc r = Some p -> returncode p = None ->
  t <> 0 ->
  match in_time (reaction sig (behaviour p)) t with
  | Some code =>
      exists w',
        stop sig self (Some t) w = Ok code w'
        /\ exited self code w'
        /\ history w' = history w ++ [Signalled self (pid p) sig;
                                      Exited self (pid p) code]
  | None =>
      exists w' r' p',
        stop sig self (Some t) w = Err TimeoutError w'
        /\ runners w' !! self = Some r' /\ _proc r' = Some p'
        /\ pid p' = pid p /\ returncode p' = None
        /\ history w' = history w ++ [Signalled self (pid p) sig]
        /\ ports w' = ports w
  end.
Proof.
  intros Hr Hp Hc Ht.
  destruct (stop_unfold sig self t r p w Hr Hp Hc Ht)
    as (w1 & -> & Hr1 & Hh1 & Hn1 & Hp1).
  unfold Runner.wait_for.
  rewrite bind_unfold, (the_proc_eq _ _ _ _ _ Hr1 eq_refl). simpl.
  rewrite Hc. unfold in_time.
  destruct (reaction sig (behaviour p)) as [d code|] eqn:Hf.
  - destruct (d <? t).
    + destruct (wait_leaving self _ _ code w1 Hr1 eq_refl)
        as (w' & Hw & Hex & _ & Hh); [right; simpl; eauto|].
      exists w'. split; [done|]. split; [done|].
      rewrite Hh, Hh1. simpl. rewrite Hc. by rewrite <- app_assoc.
    + eexists _, _, _. split; [reflexivity|]. simpl.
      rewrite lookup_alter_eq, Hr1. simpl.
      split; [reflexivity|]. split; [reflexivity|]. simpl. by repeat split.
  - eexists _, _, _. split; [reflexivity|]. split; [exact Hr1|].
    split; [reflexivity|]. simpl. by repeat split.
Qed.

Lemma stop_with_timeout_witness :
  exists w', Runner.terminate 0 (Some 10) running_script_world = Ok (-15) w'
             /\ exited 0 (-15) w'.
Proof.
  destruct (runners running_script_world !! 0%nat) as [r|] eqn:Hr;
    [|vm_compute in Hr; discriminate Hr].
  destruct (_proc r) as [p|] eqn:Hp;
    [|vm_compute in Hr; injection Hr as <-; vm_compute in Hp; discriminate Hp].
  assert (Hb : behaviour p = Runner.default_behaviour).
  { vm_compute in Hr. injection Hr as <-. vm_compute in Hp.
    injection Hp as <-. reflexivity. }
  assert (Hc : returncode p = None).
  { vm_compute in Hr. injection Hr as <-. vm_compute in Hp.
    injection Hp as <-. reflexivity. }
  pose proof (stop_with_timeout SIGTERM 0 10 r p running_script_world Hr Hp Hc) as H.
  rewrite Hb in H. simpl in H.
  destruct H as (w' & H & Hex & _); [lia|].
  exists w'. done.
Defined.

(** [terminate], [kill] and [wait] on a runner that never started a
    process raise [AttributeError]; on a runner whose process has exited
    [terminate] and [kill] raise [ProcessLookupError], whatever the
    timeout.  Nothing has changed then. *)
Theorem stop_without_running_process (sig : Signal) (self : nat) (r : Runner)
    (timeout : option Z) (w : World) :
  runners w !! self = Some r -> Runner.alive r = false ->
  match _proc r with
  | None =>
      stop sig self timeout w
      = Err (AttributeError ("'NoneType' object has no attribute '"
                             +:+ stop_method sig +:+ "'")) w
      /\ Runner.wait self w
         = Err (AttributeError "'NoneType' object has no attribute 'wait'") w
  | Some _ => stop sig self timeout w = Err ProcessLookupError w
  end.
Proof.
  intros Hr Ha. unfold Runner.alive in Ha.
  destruct (_proc r) as [p|] eqn:Hp.
  - apply bool_decide_eq_false in Ha.
    destruct (returncode p) as [code|] eqn:Hc; [|done].
    destruct sig; unfold stop, Runner.terminate, Runner.kill,
      Runner._terminate_impl, Runner._kill_impl, Runner.send_signal;
      destruct (Runner.truthy timeout);
      by rewrite bind_unfold, bind_unfold, (the_proc_eq _ _ _ _ _ Hr Hp), Hc.
  - split.
    + destruct sig; unfold stop, Runner.terminate, Runner.kill,
        Runner._terminate_impl, Runner._kill_impl, Runner.send_signal,
        Runner.the_proc, runner_of;
        destruct (Runner.truthy timeout);
        by rewrite bind_unfold, bind_unfold, bind_unfold, (deref_Ok _ _ _ _ Hr), Hp.
    + unfold Runner.wait, runner_of.
      rewrite bind_unfold, (deref_Ok _ _ _ _ Hr).
      destruct (runner_class r);
        unfold Runner.SubProcessRunner_wait, Runner.proc_wait, Runner.the_proc,
          runner_of;
        by rewrite ?bind_unfold, (deref_Ok _ _ _ _ Hr), Hp.
Qed.

Lemma stop_without_running_process_witness :
  Runner.terminate 0 (Some 10) service_world
  = Err (AttributeError "'NoneType' object has no attribute 'terminate'") service_world.
Proof.
  destruct (runners service_world !! 0%nat) as [r|] eqn:Hr;
    [|vm_compute in Hr; discriminate Hr].
  assert (Hp : _proc r = None).
  { vm_compute in Hr. injection Hr as <-. reflexivity. }
  pose proof (stop_without_running_process SIGTERM 0 r (Some 10) service_world Hr) as H.
  rewrite Hp in H. apply H. unfold Runner.alive. by rewrite Hp.
Defined.

(** ** The working directory *)

Lemma set_working_dir_idle (self : nat) (r : Runner) (d : path) (w : World) :
  runners w !! self = Some r -> Runner.alive r = false ->
  Runner.set_working_dir self d w
  = Ok tt (set_runners (alter (with_work_dir d) self) w).
Proof.
  intros Hr Ha. unfold Runner.set_working_dir.
  by rewrite bind_unfold, (is_running_eq _ _ _ Hr), Ha.
Qed.

(** [set_working_dir] on a runner whose process is running raises
    [RunnerError] and changes nothing; on any other runner it returns,
    and the process that the next [run] starts is started in the new
    directory. *)
Theorem set_working_dir_then_run (self : nat) (r : Runner) (d : path)
    (e : string) (v : list (string * string)) (c : list string) (w : World) :
  runners w !! self = Some r ->
  (runner_class r = StreamlitVenvRunner -> ports w <> []) ->
  if Runner.alive r
  then Runner.set_working_dir self d w
       = Err (RunnerError "Cannot change working directory while running") w
  else exists ready w' r' p,
         (Runner.set_working_dir self d;; Runner.run self e v c) w = Ok ready w'
         /\ runners w' !! self = Some r' /\ _proc r' = Some p
         /\ l_work_dir (launch p) = d.
Proof.
  intros Hr Hp. destruct (Runner.alive r) eqn:Ha.
  - unfold Runner.set_working_dir.
    by rewrite bind_unfold, (is_running_eq _ _ _ Hr), Ha.
  - rewrite bind_unfold, (set_working_dir_idle _ _ _ _ Hr Ha).
    set (w1 := set_runners _ w).
    assert (Hr1 : runners w1 !! self = Some (with_work_dir d r))
      by (subst w1; simpl; by rewrite lookup_alter_eq, Hr).
    destruct (run_idle_returns self _ e v c w1 Hr1 Ha Hp) as (ready & w' & H).
    destruct (run_idle_inv _ _ _ _ _ _ _ _ Hr1 Ha H)
      as (r' & p & Hr' & Hp' & _ & _ & Hl & _).
    exists ready, w', r', p. split; [done|]. split; [done|]. split; [done|].
    by destruct Hl as (_ & -> & _).
Qed.

Lemma set_working_dir_then_run_witness :
  exists ready w' r' p,
    (Runner.set_working_dir 0 ["srv"%string];; Runner.run 0 "main.py" [] [])
      service_world = Ok ready w'
    /\ runners w' !! 0%nat = Some r' /\ _proc r' = Some p
    /\ l_work_dir (launch p) = ["srv"%string].
Proof.
  destruct (runners service_world !! 0%nat) as [r|] eqn:Hr;
    [|vm_compute in Hr; discriminate Hr].
  pose proof (set_working_dir_then_run 0 r ["srv"%string] "main.py" [] []
                service_world Hr) as H.
  assert (Ha : Runner.alive r = false).
  { vm_compute in Hr. injection Hr as <-. reflexivity. }
  rewrite Ha in H. apply H.
  vm_compute in Hr. injection Hr as <-. vm_compute. discriminate.
Defined.

(** ** Running a script that is not running *)

Lemma script_set_state_eq (self : nat) (st : script.State) (w : World) :
  Script.set_state self st w
  = Ok tt (set_history (fun h => h ++ [Script_state self st])
             (set_scripts (alter (script_set.set_state st) self) w)).
Proof. reflexivity. Qed.

Lemma port_eq (self : nat) (r : Runner) (w : World) :
  runners w !! self = Some r ->
  Runner.port self w
  = Ok match runner_class r with StreamlitVenvRunner => _port r | _ => None end w.
Proof.
  intros Hr. unfold Runner.port, runner_of.
  rewrite bind_unfold, (deref_Ok _ _ _ _ Hr). by destruct (runner_class r).
Qed.

Lemma script_run_idle_spec (self : nat) (s : script.Script) (r : Runner)
    (ef : option string) (env : option (dict string string))
    (args : option (list string)) (w wl : World) :
  scripts w !! self = Some s ->
  runners w !! script._runner s = Some r -> Runner.alive r = false ->
  (runner_class r = StreamlitVenvRunner -> ports w <> []) ->
  Release.load (script._release s) w = Ok tt wl ->
  let declared := app_config.config (script.config s) in
  exists w' r' p,
    Script.run self ef env args w = Ok tt w'
    /\ runners w' !! script._runner s = Some r' /\ _proc r' = Some p
    /\ scripts w' !! self
       = Some (script_set.set_port
                 match runner_class r with
                 | StreamlitVenvRunner => head (ports w)
                 | _ => None
                 end
                 (script_set.set_state
                    (if Runner.alive r' then script.ACTIVE else script.INACTIVE) s))
    /\ tasks w' = tasks w ++ [Script_wait_task self]
    /\ fs w' = fs wl
    /\ l_work_dir (launch p) = _work_dir r
    /\ (runner_class r <> PythonShellRunner ->
        l_entry_file (launch p)
        = Some match ef with
               | Some f => if String.eqb f "" then app_config.entry_file declared else f
               | None => app_config.entry_file declared
               end
        /\ Dict.get (l_env (launch p)) "RELEASE_MODE"%string = Some "True"%string)
    /\ _port r'
       = match runner_class r with StreamlitVenvRunner => head (ports w) | _ => _port r end
    /\ ports w'
       = match runner_class r with StreamlitVenvRunner => tail (ports w) | _ => ports w end
    /\ runner_class r' = runner_class r
    /\ (forall d code,
          alone (hd Runner.default_behaviour (oracle w)) = ExitsAfter d code ->
          leaving p code).
Proof.
  intros Hs Hr Ha Hp Hload declared.
  pose proof (fs_frame_load (script._release s) w) as Fl.
  rewrite Hload in Fl. simpl in Fl.
  unfold Script.run, script_of.
  rewrite bind_unfold, (deref_Ok _ _ _ _ Hs).
  unfold Release.loaded_on_disk.
  rewrite bind_unfold, exists_unfold, bind_unfold, when_not_loaded, Hload.
  rewrite bind_unfold, script_set_state_eq.
  set (w2 := set_history _ _).
  assert (Hr2 : runners w2 !! script._runner s = Some r)
    by (subst w2; simpl; by rewrite (ff_runners _ _ Fl)).
  assert (Hp2 : ports w2 = ports w) by (subst w2; simpl; apply (ff_ports _ _ Fl)).
  assert (Ho2 : oracle w2 = oracle w) by (subst w2; simpl; apply (ff_oracle _ _ Fl)).
  rewrite <- Hp2 in Hp.
  rewrite bind_unfold.
  match goal with
  | |- context [Runner.run _ ?e ?v ?c w2] =>
      destruct (run_idle_returns (script._runner s) r e v c w2 Hr2 Ha Hp)
        as (ready & w3 & H);
      pose proof (runner_frame_run (script._runner s) e v c w2) as Fr
  end.
  rewrite H in Fr. simpl in Fr. rewrite H.
  destruct (run_idle_inv _ _ _ _ _ _ _ _ Hr2 Ha H)
    as (r' & p & Hr' & Hp' & _ & Hready & Hl & Hport & Hports & _ & _ & _ & Hf & Hc').
  rewrite Ho2 in Hf.
  rewrite bind_unfold, script_set_state_eq.
  rewrite bind_unfold.
  match goal with
  | |- context [Runner.port _ ?w4] =>
      rewrite (port_eq (script._runner s) r' w4) by (simpl; exact Hr')
  end.
  eexists _, r', p. split; [reflexivity|]. simpl.
  split; [exact Hr'|]. split; [exact Hp'|].
  rewrite !lookup_alter_eq, (rf_scripts _ _ _ Fr). subst w2. simpl.
  rewrite lookup_alter_eq, (ff_scripts _ _ Fl), Hs. simpl.
  rewrite (rf_tasks _ _ _ Fr), (rf_fs _ _ _ Fr). simpl.
  rewrite (ff_tasks _ _ Fl).
  destruct Hl as (_ & Hwd & Hef & Henv & _).
  rewrite Hp2 in Hport, Hports.
  split; [|split; [done|split; [done|split; [done|split; [|done]]]]].
  - rewrite Hc', Hport, <- Hready. by destruct (runner_class r).
  - intros Hcls. split; [by destruct (runner_class r)|].
    replace (l_env (launch p)) with
      (match env with
       | Some (_ :: e) => merge (merge (app_config.env declared) e) release_mode
       | _ => merge (app_config.env declared) release_mode
       end) by (by destruct (runner_class r)).
    destruct env as [[|]|]; unfold merge, release_mode; simpl fold_left at 1;
      by rewrite Dict_get_set, decide_True.
Qed.

(** [Script.run] on a script whose runner has no running process, with
    the release on disk or loadable and a port in the pool for a
    streamlit script, returns.  The runner has started a process with the
    entry file of the call or, without one, of the configuration, and
    with [RELEASE_MODE] set to [True] in its environment whatever the
    call passed; the script is active when that process is running and
    inactive when it is not, it shows the port of a streamlit runner and
    no port otherwise, and its wait task is queued last. *)
Theorem script_run_idle (self : nat) (s : script.Script) (r : Runner)
    (ef : option string) (env : option (dict string string))
    (args : option (list string)) (w wl : World) :
  scripts w !! self = Some s ->
  runners w !! script._runner s = Some r -> Runner.alive r = false ->
  runner_class r <> PythonShellRunner ->
  (runner_class r = StreamlitVenvRunner -> ports w <> []) ->
  Release.load (script._release s) w = Ok tt wl ->
  exists w' s' r' p,
    Script.run self ef env args w = Ok tt w'
    /\ scripts w' !! self = Some s'
    /\ runners w' !! script._runner s = Some r' /\ _proc r' = Some p
    /\ script.state s' = (if Runner.alive r' then script.ACTIVE else script.INACTIVE)
    /\ script.port s'
       = match runner_class r with
         | StreamlitVenvRunner => head (ports w)
         | _ => None
         end
    /\ script.exit_code s' = script.exit_code s
    /\ tasks w' = tasks w ++ [Script_wait_task self]
    /\ l_entry_file (launch p)
       = Some match ef with
              | Some f =>
                  if String.eqb f ""
                  then app_config.entry_file (app_config.config (script.config s))
                  else f
              | None => app_config.entry_file (app_config.config (script.config s))
              end
    /\ Dict.get (l_env (launch p)) "RELEASE_MODE"%string = Some "True"%string.
Proof.
  intros Hs Hr Ha Hcls Hp Hload.
  destruct (script_run_idle_spec self s r ef env args w wl Hs Hr Ha Hp Hload)
    as (w' & r' & p & H & Hr' & Hp' & Hs' & Ht & _ & _ & Hl & _).
  destruct (Hl Hcls) as [He Hv].
  eexists w', _, r', p. split; [done|]. split; [exact Hs'|]. by repeat split.
Qed.

Lemma script_run_idle_witness :
  exists w' s',
    Script.run 1 None None None (streamlit_world [8502; 8501]) = Ok tt w'
    /\ scripts w' !! 1%nat = Some s'
    /\ script.port s' = Some 8501.
Proof.
  destruct (scripts (streamlit_world [8502; 8501]) !! 1%nat) as [s|] eqn:Hs;
    [|vm_compute in Hs; discriminate Hs].
  destruct (runners (streamlit_world [8502; 8501]) !! script._runner s) as [r|] eqn:Hr;
    [|vm_compute in Hs; injection Hs as <-; vm_compute in Hr; discriminate Hr].
  assert (Hc : runner_class r = StreamlitVenvRunner).
  { vm_compute in Hs. injection Hs as <-. vm_compute in Hr. injection Hr as <-.
    reflexivity. }
  destruct (script_run_idle 1 s r None None None (streamlit_world [8502; 8501])
              (streamlit_world [8502; 8501]) Hs Hr)
    as (w' & s' & r' & p & H & Hs' & _ & _ & _ & Hport & _).
  - vm_compute in Hs. injection Hs as <-. vm_compute in Hr. injection Hr as <-.
    reflexivity.
  - by rewrite Hc.
  - intros _. vm_compute. discriminate.
  - vm_compute in Hs. injection Hs as <-. vm_compute. reflexivity.
  - exists w', s'. split; [done|]. split; [done|]. by rewrite Hport, Hc.
Defined.

(** ** The wait task of a script *)

Lemma wait_hangs (self : nat) (r : Runner) (p : Process) (w : World) :
  runners w !! self = Some r -> _proc r = Some p ->
  returncode p = None -> fate p = Never ->
  Runner.wait self w = Hang w.
Proof.
  intros Hr Hp Hc Hf. unfold Runner.wait, runner_of.
  rewrite bind_unfold, (deref_Ok _ _ _ _ Hr).
  destruct (runner_class r);
    unfold Runner.SubProcessRunner_wait, Runner.proc_wait;
    by rewrite ?bind_unfold, (the_proc_eq _ _ _ _ _ Hr Hp), Hc, Hf.
Qed.

Lemma script_wait_task_spec (self : nat) (s : script.Script) (r : Runner)
    (p : Process) (code : Z) (w : World) :
  scripts w !! self = Some s ->
  runners w !! script._runner s = Some r -> _proc r = Some p ->
  leaving p code ->
  exists w',
    Script._wait_task self w = Ok tt w'
    /\ scripts w' !! self
       = Some (script_set.set_state script.INACTIVE
                 (script_set.set_port None
                    (script_set.set_exit_code (Some code) s)))
    /\ exited (script._runner s) code w'
    /\ ports w' = pool_after_wait r (ports w)
    /\ tasks w' = tasks w.
Proof.
  intros Hs Hr Hp Hl. unfold Script._wait_task, script_of.
  rewrite bind_unfold, (deref_Ok _ _ _ _ Hs).
  destruct (wait_ports _ _ _ _ _ Hr Hp Hl)
    as (w1 & r1 & Hw & Hex & _ & _ & Hports & _).
  pose proof (runner_frame_wait (script._runner s) w) as Fw.
  rewrite Hw in Fw. simpl in Fw.
  rewrite bind_unfold, Hw.
  eexists. split; [reflexivity|]. simpl.
  rewrite !lookup_alter_eq, (rf_scripts _ _ _ Fw), Hs, (rf_tasks _ _ _ Fw).
  by repeat split.
Qed.

(** [Script._wait_task] on a script whose process has exited or will
    exit: it returns, and the script is inactive, with the exit code of
    the process and no port; the port of a streamlit runner is back in
    the pool.  While the process does not exit the task does not come
    back and the script is as it was. *)
Theorem script_wait_task (self : nat) (s : script.Script) (r : Runner)
    (p : Process) (w : World) :
  scripts w !! self = Some s ->
  runners w !! script._runner s = Some r -> _proc r = Some p ->
  (forall code, leaving p code ->
     exists w' s',
       Script._wait_task self w = Ok tt w'
       /\ scripts w' !! self = Some s'
       /\ script.state s' = script.INACTIVE
       /\ script.exit_code s' = Some code
       /\ script.port s' = None
       /\ exited (script._runner s) code w'
       /\ ports w' = pool_after_wait r (ports w))
  /\ (returncode p = None -> fate p = Never ->
      Script._wait_task self w = Hang w).
Proof.
  intros Hs Hr Hp. split.
  - intros code Hl.
    destruct (script_wait_task_spec self s r p code w Hs Hr Hp Hl)
      as (w' & H & Hs' & Hex & Hports & _).
    eexists w', _. split; [done|]. split; [exact Hs'|]. by repeat split.
  - intros Hc Hf. unfold Script._wait_task, script_of.
    by rewrite bind_unfold, (deref_Ok _ _ _ _ Hs), bind_unfold,
      (wait_hangs _ _ _ _ Hr Hp Hc Hf).
Qed.

Lemma script_wait_task_witness :
  Script._wait_task 1 running_script_world = Hang running_script_world.
Proof.
  destruct (scripts running_script_world !! 1%nat) as [s|] eqn:Hs;
    [|vm_compute in Hs; discriminate Hs].
  destruct (runners running_script_world !! script._runner s) as [r|] eqn:Hr;
    [|vm_compute in Hs; injection Hs as <-; vm_compute in Hr; discriminate Hr].
  destruct (_proc r) as [p|] eqn:Hp;
    [|vm_compute in Hs; injection Hs as <-; vm_compute in Hr; injection Hr as <-;
      vm_compute in Hp; discriminate Hp].
  apply (proj2 (script_wait_task 1 s r p running_script_world Hs Hr Hp)).
  - vm_compute in Hs. injection Hs as <-. vm_compute in Hr. injection Hr as <-.
    vm_compute in Hp. injection Hp as <-. reflexivity.
  - vm_compute in Hs. injection Hs as <-. vm_compute in Hr. injection Hr as <-.
    vm_compute in Hp. injection Hp as <-. reflexivity.
Defined.

(** ** A run of a script, from the start to the exit *)

(** A script that is not running is run, its process exits by itself
    with some code, and the wait task that the run queued is run: the
    script is then inactive with that exit code and shows no port, and
    the pool of ports is as it was before the run (the pool is a sorted
    set without the port 0). *)
Theorem script_run_then_wait_task (self : nat) (s : script.Script) (r : Runner)
    (ef : option string) (env : option (dict string string))
    (args : option (list string)) (w wl : World) (d code : Z) :
  scripts w !! self = Some s ->
  runners w !! script._runner s = Some r -> Runner.alive r = false ->
  (runner_class r = StreamlitVenvRunner -> ports w <> []) ->
  PortService.sorted (ports w) -> ~ In 0 (ports w) ->
  Release.load (script._release s) w = Ok tt wl ->
  alone (hd Runner.default_behaviour (oracle w)) = ExitsAfter d code ->
  exists w1 w2 s2,
    Script.run self ef env args w = Ok tt w1
    /\ last (tasks w1) = Some (Script_wait_task self)
    /\ run_task (Script_wait_task self) w1 = Ok tt w2
    /\ scripts w2 !! self = Some s2
    /\ script.state s2 = script.INACTIVE
    /\ script.exit_code s2 = Some code
    /\ script.port s2 = None
    /\ ports w2 = ports w.
Proof.
  intros Hs Hr Ha Hp Hsorted H0 Hload Hf.
  destruct (script_run_idle_spec self s r ef env args w wl Hs Hr Ha Hp Hload)
    as (w1 & r1 & p & H & Hr1 & Hp1 & Hs1 & Ht & _ & _ & _ & Hport & Hports & Hc1 & Hl).
  destruct (script_wait_task_spec self _ r1 p code w1 Hs1 Hr1 Hp1 (Hl _ _ Hf))
    as (w2 & Hw & Hs2 & _ & Hports2 & _).
  eexists w1, w2, _. split; [done|].
  split; [by rewrite Ht, last_snoc|]. split; [exact Hw|].
  split; [exact Hs2|]. split; [done|]. split; [done|]. split; [done|].
  rewrite Hports2. unfold pool_after_wait. rewrite Hc1, Hport, Hports.
  destruct (runner_class r) eqn:Hc; [by destruct (_port r)..|].
  destruct (ports w) as [|q rest] eqn:Hpw; [by destruct Hp|]. simpl.
  destruct (Z.eqb_spec q 0) as [->|_]; [destruct H0; by left|].
  by apply add_smallest.
Qed.

Lemma script_run_then_wait_task_witness :
  exists w1 w2 s2,
    Script.run 1 None None None (streamlit_world [8502; 8501]) = Ok tt w1
    /\ run_task (Script_wait_task 1) w1 = Ok tt w2
    /\ scripts w2 !! 1%nat = Some s2
    /\ script.exit_code s2 = Some 1
    /\ ports w2 = [8501; 8502].
Proof.
  destruct (scripts (streamlit_world [8502; 8501]) !! 1%nat) as [s|] eqn:Hs;
    [|vm_compute in Hs; discriminate Hs].
  destruct (runners (streamlit_world [8502; 8501]) !! script._runner s) as [r|] eqn:Hr;
    [|vm_compute in Hs; injection Hs as <-; vm_compute in Hr; discriminate Hr].
  destruct (script_run_then_wait_task 1 s r None None None
              (streamlit_world [8502; 8501]) (streamlit_world [8502; 8501]) 5 1 Hs Hr)
    as (w1 & w2 & s2 & H1 & _ & H2 & Hs2 & _ & Hc & _ & Hp).
  - vm_compute in Hs. injection Hs as <-. vm_compute in Hr. injection Hr as <-.
    reflexivity.
  - intros _. vm_compute. discriminate.
  - unfold PortService.sorted. vm_compute ports. repeat constructor.
  - vm_compute ports. simpl. intros [|[|[]]]; discriminate.
  - vm_compute in Hs. injection Hs as <-. vm_compute. reflexivity.
  - vm_compute. reflexivity.
  - exists w1, w2, s2. done.
Defined.

(** ** The log of a service, written and read *)

Section service_logs.
Import ServiceLogs.








End service_logs.


(** ** The enabled flag of a service, written and read *)

(** [set_enabled] without autostart, on a service that is not stopped
    by it (it is enabled, or its runner has no running process), with
    the directory of the release on disk: the flag is set, and the file
    of the flag holds it.  A service that is constructed afterwards for
    the same release directory and name has the flag, and its run is
    queued exactly when the flag is set. *)
Theorem set_enabled_persists (self : nat) (s : service.Service) (r : Runner)
    (b : bool) (w : World) :
  services w !! self = Some s ->
  runners w !! service._runner s = Some r ->
  (b = false -> Runner.alive r = false) ->
  fs w !! dirname (service._enabled_file s) = Some Dir ->
  exists w1,
    Service.set_enabled self b false w = Ok tt w1
    /\ services w1 !! self = Some (service_set.set_enabled b s)
    /\ fs w1 !! service._enabled_file s
       = Some (File (txt (if b then "true" else "false")))
    /\ forall rel name cfg runner r',
         Release.root_path rel ++ [name +:+ ".enabled"] = service._enabled_file s ->
         runners w1 !! runner = Some r' -> Runner.alive r' = false ->
         exists new s' w2,
           Service.new rel name cfg runner w1 = Ok new w2
           /\ services w2 !! new = Some s'
           /\ service.enabled s' = b
           /\ tasks w2 = tasks w1 ++ (if b then [Service_run new] else []).
Proof.
  intros Hs Hr Hb _.
  unfold Service.set_enabled.
  rewrite bind_unfold. unfold set_service at 1, modify at 1. cbv beta iota.
  set (w0 := set_services _ w).
  assert (Hs0 : services w0 !! self = Some (service_set.set_enabled b s))
    by (subst w0; simpl; by rewrite lookup_alter_eq, Hs).
  unfold service_of. rewrite bind_unfold, (deref_Ok _ _ _ _ Hs0).
  rewrite bind_unfold. unfold write_file at 1, modify at 1. cbv beta iota.
  set (w1 := set_fs _ w0).
  assert (Hr1 : runners w1 !! service._runner s = Some r) by exact Hr.
  rewrite bind_unfold. simpl service._runner.
  rewrite (is_running_eq _ _ _ Hr1). cbv beta iota.
  assert (Hend : (if b && false then when (negb (Runner.alive r)) (Service.run self)
                  else if negb b && Runner.alive r
                       then terminate_result ← Service.terminate self 10;
                            when (negb terminate_result) (Service.kill self)
                       else mret tt) w1 = Ok tt w1).
  { destruct b; [reflexivity|]. rewrite (Hb eq_refl). reflexivity. }
  rewrite Hend. exists w1. split; [done|]. split; [exact Hs0|].
  split; [subst w1; simpl; by rewrite lookup_insert_eq|].
  intros rel name cfg runner r' Hpath Hr' Ha'.
  unfold Service.new.
  rewrite bind_unfold, (set_working_dir_idle _ _ _ _ Hr' Ha').
  rewrite bind_unfold. unfold get at 1. cbv beta iota.
  rewrite Hpath. simpl fs. rewrite lookup_insert_eq.
  destruct b; eexists _, _, _; (split; [reflexivity|]); simpl;
    rewrite lookup_insert_eq; (split; [reflexivity|]); simpl;
    (split; [|by rewrite ?app_nil_r]); unfold Service.json_bool.
  - by apply bool_decide_eq_true_2.
  - by apply bool_decide_eq_false_2.
Qed.

Lemma set_enabled_persists_witness :
  exists w1,
    Service.set_enabled 1 true false service_world = Ok tt w1
    /\ fs w1 !! ["7"; "myapp"; "v1"; "svc.enabled"]%string = Some (File (txt "true")).
Proof.
  destruct (services service_world !! 1%nat) as [s|] eqn:Hs;
    [|vm_compute in Hs; discriminate Hs].
  destruct (runners service_world !! service._runner s) as [r|] eqn:Hr;
    [|vm_compute in Hs; injection Hs as <-; vm_compute in Hr; discriminate Hr].
  destruct (set_enabled_persists 1 s r true service_world Hs Hr)
    as (w1 & H & _ & Hf & _).
  - discriminate.
  - vm_compute in Hs. injection Hs as <-. vm_compute. reflexivity.
  - exists w1. split; [exact H|].
    vm_compute in Hs. injection Hs as <-. exact Hf.
Defined.

(** ** Registering the apps of a release *)

Lemma new_release_unfold (venv : string) (repo : repository.Repository)
    (rel : releases.Release) :
  RepositoryCollection.new_release venv repo rel
  = for_each (Release.apps rel) (new_release_body venv rel).
Proof. reflexivity. Qed.

Lemma script_new_item (venv : string) (rel : releases.Release) (name : string)
    (cfg : app_config.AppConfig) (cls : RunnerClass) (w : World) :
  exists w1 s r,
    (runner ← Runner.new cls venv (Release.root_path rel) PSEUDO_TERMINAL;
     obj ← Script.new rel name cfg runner;
     s ← script_of obj;
     modify (set_script_index (fun c =>
       ObjCollection.new_object c (script_object s) obj))) w = Ok tt w1
    /\ next_id w1 = S (S (next_id w))
    /\ scripts w1 = <[S (next_id w) := s]> (scripts w)
    /\ services w1 = services w
    /\ runners w1 = <[next_id w := r]> (runners w)
    /\ script_index w1
       = ObjCollection.new_object (script_index w) (script_object s) (S (next_id w))
    /\ service_index w1 = service_index w
    /\ script.name s = name /\ script.version s = Release.id rel
    /\ script.config s = cfg /\ script._release s = rel
    /\ script.state s = script.INACTIVE
    /\ script._runner s = next_id w
    /\ runner_class r = cls /\ _work_dir r = Release.root_path rel
    /\ _venv_activator r = venv /\ _proc r = None.
Proof.
  assert (exists r0 w0,
             Runner.new cls venv (Release.root_path rel) PSEUDO_TERMINAL w
             = Ok (next_id w) w0
             /\ runners w0 = <[next_id w := r0]> (runners w)
             /\ next_id w0 = S (next_id w)
             /\ scripts w0 = scripts w /\ services w0 = services w
             /\ script_index w0 = script_index w
             /\ service_index w0 = service_index w
             /\ Runner.alive r0 = false
             /\ runner_class r0 = cls
             /\ _venv_activator r0 = venv /\ _proc r0 = None)
    as (r0 & w0 & Hnew & Hrs0 & Hn0 & Hsc0 & Hsv0 & Hsi0 & Hvi0 & Ha0 & Hc0 & Hv0 & Hp0).
  { eexists _, _. split; [reflexivity|]. by repeat split. }
  assert (Hr0 : runners w0 !! next_id w = Some r0)
    by (by rewrite Hrs0, lookup_insert_eq).
  rewrite bind_unfold, Hnew.
  unfold Script.new.
  rewrite bind_unfold, bind_unfold, (set_working_dir_idle _ _ _ _ Hr0 Ha0).
  unfold store_new at 1. cbv beta iota.
  unfold script_of. rewrite bind_unfold.
  erewrite deref_Ok by (simpl; apply lookup_insert_eq).
  eexists _, _, (with_work_dir (Release.root_path rel) r0).
  split; [reflexivity|]. simpl.
  rewrite Hn0, Hsc0, Hsv0, Hsi0, Hvi0, Hrs0, alter_insert_eq.
  by repeat split.
Qed.

Lemma service_new_item (venv : string) (rel : releases.Release) (name : string)
    (cfg : app_config.AppConfig) (cls : RunnerClass) (w : World) :
  exists w1 s r,
    (runner ← Runner.new cls venv (Release.root_path rel) PSEUDO_TERMINAL;
     obj ← Service.new rel name cfg runner;
     s ← service_of obj;
     modify (set_service_index (fun c =>
       ObjCollection.new_object c (service_object s) obj))) w = Ok tt w1
    /\ next_id w1 = S (S (next_id w))
    /\ services w1 = <[S (next_id w) := s]> (services w)
    /\ scripts w1 = scripts w
    /\ runners w1 = <[next_id w := r]> (runners w)
    /\ service_index w1
       = ObjCollection.new_object (service_index w) (service_object s) (S (next_id w))
    /\ script_index w1 = script_index w
    /\ service.name s = name /\ service.version s = Release.id rel
    /\ service.config s = cfg /\ service._release s = rel
    /\ service.state s = service.INACTIVE
    /\ service._runner s = next_id w
    /\ runner_class r = cls /\ _work_dir r = Release.root_path rel
    /\ _venv_activator r = venv /\ _proc r = None.
Proof.
  assert (exists r0 w0,
             Runner.new cls venv (Release.root_path rel) PSEUDO_TERMINAL w
             = Ok (next_id w) w0
             /\ runners w0 = <[next_id w := r0]> (runners w)
             /\ next_id w0 = S (next_id w)
             /\ scripts w0 = scripts w /\ services w0 = services w
             /\ script_index w0 = script_index w
             /\ service_index w0 = service_index w
             /\ Runner.alive r0 = false
             /\ runner_class r0 = cls
             /\ _venv_activator r0 = venv /\ _proc r0 = None)
    as (r0 & w0 & Hnew & Hrs0 & Hn0 & Hsc0 & Hsv0 & Hsi0 & Hvi0 & Ha0 & Hc0 & Hv0 & Hp0).
  { eexists _, _. split; [reflexivity|]. by repeat split. }
  assert (Hr0 : runners w0 !! next_id w = Some r0)
    by (by rewrite Hrs0, lookup_insert_eq).
  rewrite bind_unfold, Hnew.
  unfold Service.new.
  rewrite bind_unfold, bind_unfold, (set_working_dir_idle _ _ _ _ Hr0 Ha0).
  rewrite bind_unfold. unfold get at 1. cbv beta iota zeta.
  rewrite bind_unfold. unfold store_new at 1. cbv beta iota.
  match goal with
  | |- context [when ?b _] => destruct b eqn:Hen
  end.
  all: rewrite bind_unfold; simpl when;
    unfold ensure_future, modify, mret, M_ret; cbv beta iota;
    unfold service_of; rewrite bind_unfold;
    (erewrite deref_Ok by (simpl; apply lookup_insert_eq));
    eexists _, _, (with_work_dir (Release.root_path rel) r0);
    (split; [reflexivity|]); simpl;
    rewrite Hn0, Hsc0, Hsv0, Hsi0, Hvi0, Hrs0, alter_insert_eq;
    by repeat split.
Qed.

Lemma new_release_item (venv : string) (rel : releases.Release) (name : string)
    (cfg : app_config.AppConfig) (w : World) :
  exists w1,
    new_release_body venv rel (name, cfg) w = Ok tt w1
    /\ (next_id w <= next_id w1)%nat
    /\ (forall k i, (i < next_id w)%nat -> artifact_of k w1 i = artifact_of k w i)
    /\ (forall i, (i < next_id w)%nat -> runners w1 !! i = runners w !! i)
    /\ match kind_of_type (app_config.type cfg) with
       | Some k =>
           exists obj a r,
             (next_id w <= obj < next_id w1)%nat
             /\ artifact_of k w1 obj = Some a
             /\ art_name a = name /\ art_version a = Release.id rel
             /\ art_config a = cfg /\ ro_release (art_object a) = rel
             /\ (art_runner a < next_id w1)%nat
             /\ runners w1 !! art_runner a = Some r
             /\ runner_class r = runner_class_of_type (app_config.type cfg)
             /\ _work_dir r = Release.root_path rel /\ _proc r = None
             /\ index_of k w1
                = ObjCollection.new_object (index_of k w) (art_object a) obj
             /\ forall k', k' <> k -> index_of k' w1 = index_of k' w
       | None => forall k, index_of k w1 = index_of k w
       end.
Proof.
  assert (Hkeep : forall {A} (m : gmap nat A) (x : A) (i : nat),
             (i < next_id w)%nat -> <[S (next_id w) := x]> m !! i = m !! i).
  { intros A m x i Hi. apply lookup_insert_ne. lia. }
  unfold new_release_body. destruct (app_config.type cfg) eqn:T; simpl.
  - destruct (service_new_item venv rel name cfg PythonVEnvRunner w)
      as (w1 & s & r & H & Hn & Hsv & Hsc & Hr & Hvi & Hsi & Hname & Hver & Hcfg
          & Hrel & Hst & Hrun & Hc & Hwd & _ & Hp).
    exists w1. split; [exact H|]. split; [lia|]. split.
    { intros [] i Hi; simpl; rewrite ?Hsv, ?Hsc; [done|]. by rewrite Hkeep. }
    split; [intros i Hi; rewrite Hr; apply lookup_insert_ne; lia|].
    exists (S (next_id w)), (inr s), r. simpl.
    rewrite Hsv, lookup_insert_eq, Hrun, Hr, lookup_insert_eq.
    split; [lia|]. split; [done|]. split; [done|]. split; [done|].
    split; [done|]. split; [done|]. split; [lia|]. split; [done|]. split; [done|].
    split; [done|]. split; [done|]. split; [done|].
    by intros [] Hk.
  - destruct (script_new_item venv rel name cfg StreamlitVenvRunner w)
      as (w1 & s & r & H & Hn & Hsc & Hsv & Hr & Hsi & Hvi & Hname & Hver & Hcfg
          & Hrel & Hst & Hrun & Hc & Hwd & _ & Hp).
    exists w1. split; [exact H|]. split; [lia|]. split.
    { intros [] i Hi; simpl; rewrite ?Hsv, ?Hsc; [|done]. by rewrite Hkeep. }
    split; [intros i Hi; rewrite Hr; apply lookup_insert_ne; lia|].
    exists (S (next_id w)), (inl s), r. simpl.
    rewrite Hsc, lookup_insert_eq, Hrun, Hr, lookup_insert_eq.
    split; [lia|]. split; [done|]. split; [done|]. split; [done|].
    split; [done|]. split; [done|]. split; [lia|]. split; [done|]. split; [done|].
    split; [done|]. split; [done|]. split; [done|].
    by intros [] Hk.
  - destruct (script_new_item venv rel name cfg PythonVEnvRunner w)
      as (w1 & s & r & H & Hn & Hsc & Hsv & Hr & Hsi & Hvi & Hname & Hver & Hcfg
          & Hrel & Hst & Hrun & Hc & Hwd & _ & Hp).
    exists w1. split; [exact H|]. split; [lia|]. split.
    { intros [] i Hi; simpl; rewrite ?Hsv, ?Hsc; [|done]. by rewrite Hkeep. }
    split; [intros i Hi; rewrite Hr; apply lookup_insert_ne; lia|].
    exists (S (next_id w)), (inl s), r. simpl.
    rewrite Hsc, lookup_insert_eq, Hrun, Hr, lookup_insert_eq.
    split; [lia|]. split; [done|]. split; [done|]. split; [done|].
    split; [done|]. split; [done|]. split; [lia|]. split; [done|]. split; [done|].
    split; [done|]. split; [done|]. split; [done|].
    by intros [] Hk.
  - exists w. split; [done|]. split; [done|]. split; [done|]. split; [done|]. done.
Qed.

Lemma art_object_name (a : Artifact) : ro_name (art_object a) = art_name a.
Proof. by destruct a. Qed.

Lemma art_object_version (a : Artifact) : ro_version (art_object a) = art_version a.
Proof. by destruct a. Qed.

Lemma new_release_loop (venv : string) (rel : releases.Release)
    (apps : list (string * app_config.AppConfig)) :
  forall w : World,
    NoDup (map fst apps) ->
    exists w',
      for_each apps (new_release_body venv rel) w = Ok tt w'
      /\ (next_id w <= next_id w')%nat
      /\ (forall k i, (i < next_id w)%nat -> artifact_of k w' i = artifact_of k w i)
      /\ (forall i, (i < next_id w)%nat -> runners w' !! i = runners w !! i)
      /\ (forall name cfg, In (name, cfg) apps ->
            match kind_of_type (app_config.type cfg) with
            | Some k =>
                exists obj a,
                  ObjCollection.get_object_for_user (index_of k w')
                    (ObjCollection.with_user_id (art_object a)) name (Release.id rel)
                  = Some obj
                  /\ artifact_of k w' obj = Some a
                  /\ (next_id w <= obj)%nat
                  /\ art_name a = name /\ art_version a = Release.id rel
                  /\ art_config a = cfg /\ ro_release (art_object a) = rel
                  /\ exists r,
                       runners w' !! art_runner a = Some r
                       /\ runner_class r = runner_class_of_type (app_config.type cfg)
                       /\ _work_dir r = Release.root_path rel /\ _proc r = None
            | None => True
            end)
      /\ (forall name,
            (forall cfg, In (name, cfg) apps ->
                         kind_of_type (app_config.type cfg) = None) ->
            forall k user version,
              ObjCollection.get_object_for_user (index_of k w') user name version
              = ObjCollection.get_object_for_user (index_of k w) user name version).
Proof.
  induction apps as [|[n0 c0] rest IH]; intros w Hnd.
  - exists w. split; [done|]. split; [done|]. split; [done|]. split; [done|].
    split; [intros ? ? []|done].
  - inversion Hnd as [|? ? Hn0 Hrest]; subst.
    destruct (new_release_item venv rel n0 c0 w)
      as (w1 & H1 & Hle1 & Hk1 & Hkr1 & Hi1).
    destruct (IH w1 Hrest) as (w' & H & Hle & Hk & Hkr & Hreg & Hoth).
    exists w'. split.
    { change (for_each ((n0, c0) :: rest) (new_release_body venv rel) w)
        with ((new_release_body venv rel (n0, c0);;
               for_each rest (new_release_body venv rel)) w).
      by rewrite bind_unfold, H1. }
    split; [lia|]. split; [intros k i Hi; rewrite Hk by lia; by apply Hk1|].
    split; [intros i Hi; rewrite Hkr by lia; by apply Hkr1|].
    assert (Hfresh : forall cfg, In (n0, cfg) rest ->
                                 kind_of_type (app_config.type cfg) = None).
    { intros cfg Hin. destruct Hn0. apply list_elem_of_In, in_map_iff.
      by exists (n0, cfg). }
    split.
    + intros name cfg [[= -> ->]|Hin].
      * destruct (kind_of_type (app_config.type cfg)) as [k|] eqn:Hkind; [|done].
        destruct Hi1 as (obj & a & r & Hobj & Ha & Hname & Hver & Hcfg & Hrel
                         & Hrun & Hr & Hcls & Hwd & Hp & Hidx & _).
        exists obj, a. rewrite (Hoth name Hfresh), Hidx, get_object_new_object.
        rewrite decide_True
          by (by rewrite art_object_name, art_object_version, Hname, Hver).
        split; [done|]. rewrite Hk by lia.
        split; [done|]. split; [lia|]. split; [done|]. split; [done|].
        split; [done|]. split; [done|].
        exists r. by rewrite Hkr.
      * specialize (Hreg name cfg Hin).
        destruct (kind_of_type (app_config.type cfg)) as [k|]; [|done].
        destruct Hreg as (obj & a & Hget & Ha & Hobj & Hrestf).
        exists obj, a. split; [done|]. split; [done|]. split; [lia|done].
    + intros name Hnone k user version.
      rewrite Hoth by (intros cfg Hin; apply Hnone; by right).
      destruct (kind_of_type (app_config.type c0)) as [k0|] eqn:Hkind.
      * destruct Hi1 as (obj & a & r & _ & _ & Hname & _ & _ & _
                         & _ & _ & _ & _ & _ & Hidx & Hother).
        assert (Hdec : k = k0 \/ k <> k0) by (destruct k, k0; auto).
        destruct Hdec as [->|Hne]; [|by rewrite Hother].
        rewrite Hidx, get_object_new_object. rewrite decide_False; [done|].
        intros (_ & -> & _). rewrite art_object_name, Hname in Hnone.
        specialize (Hnone c0 (or_introl eq_refl)). congruence.
      * by rewrite Hi1.
Qed.

(** [RepositoryCollection.new_release], the hook of a new release, on
    a release whose apps have different names: it returns, and every app
    with a known type is an artifact in the store (a script for the types
    python and streamlit, a service for the type service) that is found
    in the index of its kind under the user of the release, the name of
    the app and the tag; under the name of an app of unknown type, and
    under any name that the release has no app for, the indices give what
    they gave. *)
Theorem new_release_indexes_apps (venv : string) (repo : repository.Repository)
    (rel : releases.Release) (w : World) :
  NoDup (map fst (Release.apps rel)) ->
  exists w',
    RepositoryCollection.new_release venv repo rel w = Ok tt w'
    /\ (forall name cfg, In (name, cfg) (Release.apps rel) ->
          match kind_of_type (app_config.type cfg) with
          | Some k =>
              exists obj a,
                ObjCollection.get_object_for_user (index_of k w')
                  (ObjCollection.with_user_id (art_object a)) name (Release.id rel)
                = Some obj
                /\ artifact_of k w' obj = Some a
                /\ (next_id w <= obj)%nat
                /\ art_name a = name /\ art_version a = Release.id rel
                /\ art_config a = cfg /\ ro_release (art_object a) = rel
                /\ exists r,
                     runners w' !! art_runner a = Some r
                     /\ runner_class r = runner_class_of_type (app_config.type cfg)
                     /\ _work_dir r = Release.root_path rel /\ _proc r = None
          | None => True
          end)
    /\ (forall name,
          (forall cfg, In (name, cfg) (Release.apps rel) ->
                       kind_of_type (app_config.type cfg) = None) ->
          forall k user version,
            ObjCollection.get_object_for_user (index_of k w') user name version
            = ObjCollection.get_object_for_user (index_of k w) user name version).
Proof.
  intros Hnd. rewrite new_release_unfold.
  destruct (new_release_loop venv rel (Release.apps rel) w Hnd)
    as (w' & H & _ & _ & _ & Hreg & Hoth).
  exists w'. done.
Qed.

Lemma new_release_indexes_apps_witness :
  let rel := sample_release [("app"%string, sample_config app_config.PYTHON);
                             ("svc"%string, sample_config app_config.SERVICE);
                             ("odd"%string, sample_config app_config.UNKNOWN)] in
  exists w',
    RepositoryCollection.new_release "/venv/bin/activate" sample_repo rel empty_world
    = Ok tt w'
    /\ exists obj a,
         ObjCollection.get_object_for_user (script_index w')
           (ObjCollection.with_user_id (art_object a)) "app" "v1" = Some obj
         /\ artifact_of ScriptKind w' obj = Some a.
Proof.
  intros rel.
  destruct (new_release_indexes_apps "/venv/bin/activate" sample_repo rel empty_world)
    as (w' & H & Hreg & _).
  - apply (bool_decide_unpack _). vm_compute. exact I.
  - exists w'. split; [exact H|].
    destruct (Hreg "app"%string (sample_config app_config.PYTHON))
      as (obj & a & Hget & Ha & _); [by left|].
    exists obj, a. done.
Defined.

(** ** The files of a release on disk *)

Lemma mk_dirs_value (ds : list path) (m : gmap path Node) (q : path) (x : Node) :
  m !! q = Some x ->
  fold_left (fun m d => match m !! d with
                        | Some _ => m
                        | None => <[d := Dir]> m
                        end) ds m !! q = Some x.
Proof.
  revert m. induction ds as [|d ds IH]; simpl; [done|].
  intros m Hq. apply IH. destruct (m !! d) eqn:Ed; [done|].
  rewrite lookup_insert_ne; [done|]. intros ->. congruence.
Qed.

Lemma write_tree_files (root : path) (tree : list (path * str)) :
  forall w : World,
    NoDup (map fst tree) ->
    exists w',
      for_each tree (fun entry : path * str =>
          let file_path := root ++ entry.1 in
          makedirs (dirname file_path);; write_file file_path entry.2) w
      = Ok tt w'
      /\ (forall p c, In (p, c) tree -> fs w' !! (root ++ p) = Some (File c))
      /\ (forall q x, (forall p, In p (map fst tree) -> root ++ p <> q) ->
                      fs w !! q = Some x -> fs w' !! q = Some x).
Proof.
  induction tree as [|[p c] tree IH]; intros w Hnd.
  - exists w. split; [done|]. split; [intros ? ? []|done].
  - inversion Hnd as [|? ? Hp Hrest]; subst.
    simpl for_each. rewrite bind_unfold. simpl.
    match goal with |- context [for_each tree ?body ?w1] =>
      destruct (IH w1 Hrest) as (w' & Hrun & Hfiles & Hkeep) end.
    exists w'. split; [exact Hrun|]. split.
    + intros p' c' [[= -> ->]|Hin]; [|by apply Hfiles].
      apply Hkeep; [|simpl; by rewrite lookup_insert_eq].
      intros p0 Hp0 E. apply app_inv_head in E. subst p0.
      apply Hp. by apply list_elem_of_In.
    + intros q x Hq Hx. apply Hkeep.
      * intros p0 Hp0. apply Hq. by right.
      * simpl. rewrite lookup_insert_ne by (apply Hq; by left).
        by apply mk_dirs_value.
Qed.

(** [Release.load] of a release that is not on disk (nothing is at its
    path or below, and no directory above it is a file), whose tag
    resolves to a tree of files (every path once, none empty, none below
    another): it returns, and every file of the tree is on disk below the
    path of the release, with its content; what was on disk elsewhere is
    as it was.  When the tag does not resolve the load raises [KeyError]
    and writes nothing. *)
Theorem load_materialises (self : releases.Release) (w : World) :
  (forall q, Release.root_path self `prefix_of` q -> fs w !! q = None) ->
  (forall d c, d `prefix_of` Release.root_path self -> fs w !! d <> Some (File c)) ->
  match List.find (fun e : string * list (path * str) =>
                     String.eqb e.1 (releases.tag_name self))
          (repository.tagged (releases.repo self)) with
  | Some (_, tree) =>
      NoDup (map fst tree) -> ~ In [] (map fst tree) ->
      (forall p p', In p (map fst tree) -> In p' (map fst tree) ->
                    p `prefix_of` p' -> p = p') ->
      exists w',
        Release.load self w = Ok tt w'
        /\ (forall p c, In (p, c) tree ->
              fs w' !! (Release.root_path self ++ p) = Some (File c))
        /\ (forall q x, ~ (Release.root_path self `prefix_of` q) ->
              fs w !! q = Some x -> fs w' !! q = Some x)
  | None =>
      exists w',
        Release.load self w = Err (KeyError (releases.tag_name self)) w'
        /\ fs w' = fs w
  end.
Proof.
  intros Hbelow _.
  assert (Hmiss : fs w !! Release.root_path self = None) by (by apply Hbelow).
  unfold Release.load, Release.loaded_on_disk.
  rewrite bind_unfold, exists_unfold.
  rewrite bool_decide_eq_false_2 by (rewrite Hmiss; by intros [? ?]).
  unfold Release.git_copy_tagged_version.
  rewrite bind_unfold. simpl.
  destruct (List.find _ _) as [[tag tree]|].
  - intros Hnd _ _.
    match goal with |- context [for_each tree ?body ?w1] =>
      destruct (write_tree_files (Release.root_path self) tree w1 Hnd)
        as (w' & Hrun & Hfiles & Hkeep) end.
    exists w'. split; [exact Hrun|]. split; [exact Hfiles|].
    intros q x Hq Hx. apply Hkeep; [|exact Hx].
    intros p _ <-. apply Hq. by apply prefix_app_r.
  - eexists. split; [reflexivity|]. done.
Qed.

Lemma load_materialises_witness :
  exists w',
    Release.load (sample_release []) empty_world = Ok tt w'
    /\ fs w' !! (Release.root_path (sample_release []) ++ ["main.py"%string])
       = Some (File (txt "print(1)")).
Proof.
  pose proof (load_materialises (sample_release []) empty_world) as H.
  simpl in H.
  destruct H as (w' & H & Hfiles & _).
  - intros q _. apply lookup_empty.
  - intros d c _. by rewrite lookup_empty.
  - apply (bool_decide_unpack _). vm_compute. exact I.
  - intros [E|[E|[]]]; discriminate E.
  - intros p p' [<-|[<-|[]]] [<-|[<-|[]]] [k E]; try done; discriminate E.
  - exists w'. split; [exact H|]. apply Hfiles. right. by left.
Defined.
